(** * Sweeps of algebraic value editing: a shallow embedding of
    [algebraic_value_editing/sweeps.py]

    The development follows the Python module function by function:
    [make_rich_prompts], [sweep_over_prompts], [sweep_over_metrics],
    [reduce_sweep_results] and [plot_sweep_results].  Python exceptions are
    values of [exn]; code that only computes lives in the error monad
    [result], code that touches the model's hooks or consumes an iterator
    lives in the state-and-error monad [M] over [World].  The two sweeps are
    embedded twice: over the values of the tables, which is enough wherever
    every call of a collaborator returns a table of its own, and, in
    [Objects], over tables and descriptor sets as the objects that Python
    hands around, which is what the statements about identity, freshness and
    writing in place are about.  Python floats are idealised as rationals
    ([Q]): a sum, a product or a quotient of floats is the exact one, taken
    in the order in which the code takes it, and no statement below rests on
    a law of exact arithmetic that rounding breaks.  The sweeps are taken
    with logging off, so the [log] argument and the [loggable] decorator do
    not appear. *)

From Stdlib Require Import ZArith QArith Lia.
From stdpp Require Import base option list strings sorting.

Local Open Scope Z_scope.

(** ** Python exceptions and the error monad *)

Inductive exn : Type :=
| AssertionError (msg : string)
| ValueError (msg : string)
| KeyError (key : string)
| AttributeError (msg : string)
| TypeError (msg : string)
| ExternalError (msg : string).

Inductive result (A : Type) : Type :=
| Ok (a : A)
| Raise (e : exn).
Arguments Ok {A} a.
Arguments Raise {A} e.

#[global] Instance result_ret : MRet result := fun _ a => Ok a.
#[global] Instance result_bind : MBind result := fun _ _ f m =>
  match m with
  | Ok a => f a
  | Raise e => Raise e
  end.
#[global] Instance result_fmap : FMap result := fun _ _ f m =>
  match m with
  | Ok a => Ok (f a)
  | Raise e => Raise e
  end.

(** [for x in l: ys.append(f x)], stopping at the first exception. *)
Fixpoint forM {A B : Type} (l : list A) (f : A → result B) : result (list B) :=
  match l with
  | [] => Ok []
  | x :: l' => y ← f x; ys ← forM l' f; Ok (y :: ys)
  end.

(** Python's [assert cond, msg]. *)
Definition py_assert (cond : bool) (msg : string) : result unit :=
  if cond then Ok tt else Raise (AssertionError msg).

(** Python's built-in [max] on a list of integers. *)
Definition py_max (l : list Z) : result Z :=
  match l with
  | [] => Raise (ValueError "max() arg is an empty sequence")
  | x :: l' => Ok (foldl Z.max x l')
  end.

(** ** Tokens, tensors and the model's tokenizer *)

Definition token : Type := Z.

(** A tensor of tokens of rank 0 or 1, which is all [make_rich_prompts]
    handles: [to_tokens(phrase)[0]] has rank 1 and [squeeze] may lower it. *)
Inductive Tensor : Type :=
| Tensor0 (t : token)
| Tensor1 (ts : list token).

(** [tokens.shape[-1]] of a rank-1 tensor. *)
Definition shape_last (tokens : list token) : Z := Z.of_nat (length tokens).

(** [torch.nn.functional.pad(tokens, (0, right), mode="constant", value=v)]
    on a rank-1 tensor: [right] copies of [v] are appended, and a negative
    amount crops instead (the builder never passes one, see [F_pad_right]). *)
Definition F_pad (tokens : list token) (right : Z) (value : token) : list token :=
  if 0 <=? right then tokens ++ replicate (Z.to_nat right) value
  else take (Z.to_nat (shape_last tokens + right)) tokens.

(** [tensor.squeeze()]: every dimension of size one is dropped. *)
Definition squeeze (tokens : list token) : Tensor :=
  match tokens with
  | [t] => Tensor0 t
  | _ => Tensor1 tokens
  end.

(** The part of [HookedTransformer] that [make_rich_prompts] uses.
    [to_tokens] gives the row [to_tokens(phrase)[0]]. *)
Record HookedTransformer : Type := {
  to_tokens : string → list token;
  to_single_token : string → token
}.

(** ** Descriptors *)

(** An injection site: [act_names] holds strings or integers. *)
Inductive ActName : Type :=
| ActStr (s : string)
| ActInt (n : Z).

Module prompt_utils.
(** Modelled from the spec: the declaration of [RichPrompt], whose module is
    not among the sources.  A descriptor has a site, a coefficient and exactly
    one of two content forms, a phrase or a token tensor; the constructor
    calls in [sweeps.py] pass [coeff], [act_name] and one of [prompt] and
    [tokens]. *)
Inductive Content : Type :=
| Prompt (prompt : string)
| Tokens (tokens : Tensor).

Record RichPrompt : Type := {
  coeff : Q;
  act_name : ActName;
  content : Content
}.
End prompt_utils.
Export prompt_utils.

(** ** Tables

    A [pandas.DataFrame] is kept column by column.  [index] holds one label
    tuple per row (one component per index level, so a [RangeIndex] row has
    the label [[CInt i]]); [index_names] names the levels.  [CNaN] is the
    float [nan], the missing value of a numeric column; [CNone] is Python's
    [None] in a column of objects. *)

Inductive cell : Type :=
| CInt (z : Z)
| CFloat (q : Q)
| CStr (s : string)
| CNaN
| CNone
| CRichPrompts (l : list RichPrompt)
| CPhrases (l : list (string * Q)).

Record DataFrame : Type := {
  index_names : list (option string);
  index : list (list cell);
  columns : list (string * list cell)
}.

Definition nrows (df : DataFrame) : nat := length (index df).
Definition column_names (df : DataFrame) : list string := (columns df).*1.

(** [df[name]] as a list of cells, [None] when there is no such column. *)
Fixpoint assoc {A : Type} (name : string) (cols : list (string * A)) : option A :=
  match cols with
  | [] => None
  | (n, c) :: cols' => if String.eqb n name then Some c else assoc name cols'
  end.
Definition column (name : string) (df : DataFrame) : option (list cell) :=
  assoc name (columns df).

(** The labels of a [RangeIndex] of [n] rows. *)
Definition RangeIndex (n : nat) : list (list cell) :=
  (λ i : nat, [CInt (Z.of_nat i)]) <$> seq 0 n.

Definition act_name_cell (a : ActName) : cell :=
  match a with
  | ActStr s => CStr s
  | ActInt n => CInt n
  end.

(** One dictionary of [rows] in [make_rich_prompts]. *)
Record Row : Type := {
  row_rich_prompts : list RichPrompt;
  row_phrases : list (string * Q);
  row_act_name : ActName;
  row_coeff : Q
}.

(** [pd.DataFrame(rows)] for that list of dictionaries: the keys of the
    dictionaries are the columns, and an empty list gives a table with no
    column at all. *)
Definition pd_DataFrame (rows : list Row) : DataFrame :=
  match rows with
  | [] => {| index_names := [None]; index := []; columns := [] |}
  | _ =>
    {| index_names := [None];
       index := RangeIndex (length rows);
       columns :=
         [ ("rich_prompts"%string, (λ r, CRichPrompts (row_rich_prompts r)) <$> rows);
           ("phrases"%string, (λ r, CPhrases (row_phrases r)) <$> rows);
           ("act_name"%string, (λ r, act_name_cell (row_act_name r)) <$> rows);
           ("coeff"%string, (λ r, CFloat (row_coeff r)) <$> rows) ] |}
  end.

(** ** [make_rich_prompts] *)

(** [for x in l: rows.extend(f x)], stopping at the first exception. *)
Fixpoint for_extend {A B : Type} (l : list A) (f : A → result (list B))
  : result (list B) :=
  match l with
  | [] => Ok []
  | x :: l' => ys ← f x; zs ← for_extend l' f; Ok (ys ++ zs)
  end.

(** The group-local padding step: the maximum token count of the group, then
    every token sequence padded on the right up to it. *)
Definition pad_tokens_list (pad_token : token) (tokens_list : list (list token))
  : result (list (list token)) :=
  max_len ← py_max (shape_last <$> tokens_list);
  Ok ((λ tokens, F_pad tokens (max_len - shape_last tokens) pad_token) <$> tokens_list).

(** The body of the innermost loop: the descriptors of one phrase group at
    one site and one outer coefficient. *)
Definition rich_prompts_for (pad : bool) (model : option HookedTransformer)
    (phrases_this : list (string * Q)) (act_name : ActName) (coeff : Q)
  : result (list RichPrompt) :=
  if pad then
    match model with
    | None => Raise (AttributeError "'NoneType' object has no attribute 'to_single_token'")
    | Some model =>
      let pad_token := to_single_token model " " in
      let tokens_list := (λ '(phrase, init_coeff), to_tokens model phrase) <$> phrases_this in
      tokens_list ← pad_tokens_list pad_token tokens_list;
      Ok ((λ '((phrase, init_coeff), tokens),
             {| prompt_utils.coeff := (init_coeff * coeff)%Q;
                prompt_utils.act_name := act_name;
                content := Tokens (squeeze tokens) |})
          <$> zip phrases_this tokens_list)
    end
  else
    Ok ((λ '(phrase, init_coeff),
           {| prompt_utils.coeff := (init_coeff * coeff)%Q;
              prompt_utils.act_name := act_name;
              content := Prompt phrase |})
        <$> phrases_this).

(** The three nested loops that fill [rows]. *)
Definition make_rows (phrases : list (list (string * Q))) (act_names : list ActName)
    (coeffs : list Q) (pad : bool) (model : option HookedTransformer)
  : result (list Row) :=
  for_extend phrases (λ phrases_this,
    for_extend act_names (λ act_name,
      for_extend coeffs (λ coeff,
        rich_prompts_this ← rich_prompts_for pad model phrases_this act_name coeff;
        Ok [ {| row_rich_prompts := rich_prompts_this;
                row_phrases := phrases_this;
                row_act_name := act_name;
                row_coeff := coeff |} ]))).

Definition make_rich_prompts (phrases : list (list (string * Q)))
    (act_names : list ActName) (coeffs : list Q)
    (pad : bool) (model : option HookedTransformer) : result DataFrame :=
  _ ← py_assert (negb pad || bool_decide (is_Some model))
        "model must be provided if pad==True";
  rows ← make_rows phrases act_names coeffs pad model;
  Ok (pd_DataFrame rows).

(** ** The [pandas] operations the sweeps use

    These follow pandas' documented behaviour on the tables of this module.
    A table holds every column under the dtype that pandas infers from its
    cells (see [is_numeric]); a boolean cell is the integer 0 or 1. *)

#[global] Instance Q_eq_dec : EqDecision Q.
Proof. solve_decision. Defined.
#[global] Instance ActName_eq_dec : EqDecision ActName.
Proof. solve_decision. Defined.
#[global] Instance Tensor_eq_dec : EqDecision Tensor.
Proof. solve_decision. Defined.
#[global] Instance Content_eq_dec : EqDecision Content.
Proof. solve_decision. Defined.
#[global] Instance RichPrompt_eq_dec : EqDecision RichPrompt.
Proof. solve_decision. Defined.
#[global] Instance cell_eq_dec : EqDecision cell.
Proof. solve_decision. Defined.

(** The [texts] argument of [sweep_over_metrics]: an iterable of strings, or
    a [pd.Series] of strings, which has a label for each of them and a name
    for its index (taken to have a single level). *)
Inductive Texts : Type :=
| TextList (values : list string)
| TextSeries (index_name : option string) (items : list (cell * string)).

Definition text_values (texts : Texts) : list string :=
  match texts with
  | TextList values => values
  | TextSeries _ items => items.*2
  end.

(** The labels the texts are known by: their positions in a list, their own
    labels in a series. *)
Definition text_labels (texts : Texts) : list cell :=
  match texts with
  | TextList values => (λ i : nat, CInt (Z.of_nat i)) <$> seq 0 (length values)
  | TextSeries _ items => items.*1
  end.

(** [pd.DataFrame({"text": texts})]: a list is put under a fresh
    [RangeIndex], a series keeps its index. *)
Definition pd_DataFrame_text (texts : Texts) : DataFrame :=
  match texts with
  | TextList values =>
    {| index_names := [None];
       index := RangeIndex (length values);
       columns := [("text"%string, CStr <$> values)] |}
  | TextSeries index_name items =>
    {| index_names := [index_name];
       index := (λ item, [item.1]) <$> items;
       columns := [("text"%string, (λ item, CStr item.2) <$> items)] |}
  end.

(** [df[name] = value] with a scalar: the column is overwritten in place when
    it exists and appended as the last column otherwise. *)
Fixpoint set_assoc {A : Type} (name : string) (c : A) (cols : list (string * A))
  : list (string * A) :=
  match cols with
  | [] => [(name, c)]
  | (n, c') :: cols' =>
    if String.eqb n name then (n, c) :: cols' else (n, c') :: set_assoc name c cols'
  end.

Definition setitem (name : string) (value : cell) (df : DataFrame) : DataFrame :=
  {| index_names := index_names df;
     index := index df;
     columns := set_assoc name (replicate (nrows df) value) (columns df) |}.

(** The names of a list, each once, in the order in which they first
    appear. *)
Fixpoint first_appearance (names : list string) : list string :=
  match names with
  | [] => []
  | name :: names' => name :: filter (λ n, n ≠ name) (first_appearance names')
  end.

(** [pd.concat(dfs)] along the rows: the labels are kept, the columns are the
    union of the columns in order of first appearance, a table without a
    column contributes [NaN] cells to it, and an empty list is an error. *)
Definition concat_column (dfs : list DataFrame) (name : string) : list cell :=
  dfs ≫= (λ df, default (replicate (nrows df) CNaN) (column name df)).

Definition pd_concat (dfs : list DataFrame) : result DataFrame :=
  match dfs with
  | [] => Raise (ValueError "No objects to concatenate")
  | df0 :: _ =>
    Ok {| index_names :=
            if forallb (λ df, bool_decide (index_names df = index_names df0)) dfs
            then index_names df0 else replicate (length (index_names df0)) None;
          index := dfs ≫= index;
          columns :=
            (λ name, (name, concat_column dfs name))
              <$> first_appearance (dfs ≫= column_names) |}
  end.

(** The name [reset_index] gives to level [k] of an index when none is
    passed: the level's own name, else ["index"] for a single level and
    ["level_k"] for a level of several. *)
Definition digit_string (k : nat) : string :=
  String (Ascii.ascii_of_nat (48 + k mod 10)) EmptyString.

Definition level_name (levels k : nat) (name : option string) : string :=
  match name with
  | Some n => n
  | None => if (levels =? 1)%nat then "index" else "level_" +:+ digit_string k
  end.

(** The cells of level [k] of the index. *)
Definition index_level (k : nat) (df : DataFrame) : list cell :=
  (λ label, default CNaN (label !! k)) <$> index df.

(** [df.reset_index(names=...)]: every index level becomes a column, inserted
    at the front in level order, and the index becomes a [RangeIndex]; a name
    that is already a column is an error. *)
Fixpoint insert_levels (df : DataFrame) (named : list (nat * string))
    (cols : list (string * list cell)) : result (list (string * list cell)) :=
  match named with
  | [] => Ok cols
  | (k, name) :: named' =>
    cols' ← insert_levels df named' cols;
    if bool_decide (name ∈ cols'.*1)
    then Raise (ValueError ("cannot insert " +:+ name +:+ ", already exists"))
    else Ok ((name, index_level k df) :: cols')
  end.

Definition reset_index (names : option (list string)) (df : DataFrame)
  : result DataFrame :=
  let levels := length (index_names df) in
  let named :=
    match names with
    | Some ns => zip (seq 0 levels) ns
    | None => imap (λ k n, (k, level_name levels k n)) (index_names df)
    end in
  cols ← insert_levels df named (columns df);
  Ok {| index_names := [None];
        index := RangeIndex (nrows df);
        columns := cols |}.

(** *** Grouping and means *)

(** Whether [mean(numeric_only=True)] averages a column is decided by the
    dtype of the column.  A table is taken to hold every column under the
    dtype that [pandas] infers from its cells: the column is numeric when it
    has a cell and all its cells are integers, floats or [nan]; a column with
    a string, a list or [None] in it, and a column without any cell, is a
    column of objects. *)
Definition is_numeric_cell (c : cell) : bool :=
  match c with
  | CInt _ | CFloat _ | CNaN => true
  | _ => false
  end.
Definition is_numeric (cells : list cell) : bool :=
  match cells with
  | [] => false
  | _ => forallb is_numeric_cell cells
  end.

Definition is_hashable (c : cell) : bool :=
  match c with
  | CRichPrompts _ | CPhrases _ => false
  | _ => true
  end.

(** A missing value: [nan] or [None]. *)
Definition is_nan (c : cell) : bool :=
  match c with
  | CNaN | CNone => true
  | _ => false
  end.

(** Group keys compare by value: a float key is kept in lowest terms. *)
Definition key_cell (c : cell) : cell :=
  match c with
  | CFloat q => CFloat (Qred q)
  | _ => c
  end.

Definition numeric_value (c : cell) : option Q :=
  match c with
  | CInt z => Some (inject_Z z)
  | CFloat q => Some q
  | _ => None
  end.

Definition Qsum (l : list Q) : Q := foldr Qplus 0%Q l.

(** The arithmetic mean of a non-empty list, in lowest terms: the exact sum,
    taken from the right, over the count.  The mean of floats that pandas
    computes is this number up to rounding. *)
Definition arithmetic_mean (l : list Q) : Q :=
  Qred (Qsum l / inject_Z (Z.of_nat (length l))).

(** [mean] of the cells of one group: [NaN] cells are skipped, and a group
    with no value left has mean [NaN]. *)
Definition mean_cell (cells : list cell) : cell :=
  match omap numeric_value cells with
  | [] => CNaN
  | vs => CFloat (arithmetic_mean vs)
  end.

(** The order in which [groupby] lists its groups. *)
Definition cell_leb (a b : cell) : bool :=
  match numeric_value a, numeric_value b with
  | Some x, Some y => Qle_bool x y
  | Some _, None => true
  | None, Some _ => false
  | None, None =>
    match a, b with
    | CStr s, CStr t => String.leb s t
    | _, _ => true
    end
  end.

Fixpoint key_leb (k1 k2 : list cell) : bool :=
  match k1, k2 with
  | [], _ => true
  | _ :: _, [] => false
  | a :: k1', b :: k2' =>
    if bool_decide (a = b) then key_leb k1' k2' else cell_leb a b
  end.

(** The key tuple of every row, read off the key columns. *)
Definition key_rows (key_cols : list (list cell)) (n : nat) : list (list cell) :=
  (λ i : nat, (λ col : list cell, key_cell (default CNaN (col !! i))) <$> key_cols)
    <$> seq 0 n.

(** The cells of a column that lie in the rows whose key is [k]. *)
Definition group_cells {K : Type} `{EqDecision K} (keys : list K)
    (cells : list cell) (k : K) : list cell :=
  (filter (λ kc, kc.1 = k) (zip keys cells)).*2.

(** The columns [mean(numeric_only=True)] averages: the numeric columns that
    are not keys. *)
Definition value_columns (by_ : list string) (df : DataFrame)
  : list (string * list cell) :=
  filter (λ nc, bool_decide (nc.1 ∉ by_) && is_numeric nc.2 = true) (columns df).

(** [df.groupby(by).mean(numeric_only=True)]: one row per distinct key tuple,
    in sorted order, rows with a [NaN] key left out; the columns are the
    numeric columns that are not keys, each cell the mean over its group.
    The keys are looked up among the columns, under names that are not
    repeated: a key that names a level of the index, alone or beside a column
    of that name, is outside this definition, and so is a table with two
    columns of one name. *)
Definition groupby_mean (by_ : list string) (df : DataFrame) : result DataFrame :=
  key_cols ← forM by_ (λ k,
    match column k df with
    | Some c => Ok c
    | None => Raise (KeyError k)
    end);
  if negb (forallb (forallb is_hashable) key_cols)
  then Raise (TypeError "unhashable type: 'list'")
  else
    let keys := key_rows key_cols (nrows df) in
    let groups :=
      merge_sort (λ k1 k2, key_leb k1 k2)
        (remove_dups (filter (λ k, forallb (λ c, negb (is_nan c)) k = true) keys)) in
    Ok {| index_names := Some <$> by_;
          index := groups;
          columns :=
            (λ nc, (nc.1, (λ k, mean_cell (group_cells keys nc.2 k)) <$> groups))
              <$> value_columns by_ df |}.

(** *** Joining *)

(** The position of the index level called [name]. *)
Definition level_of (name : string) (df : DataFrame) : option nat :=
  fst <$> list_find (λ n, n = Some name) (index_names df).

(** The rows of [right] whose index label is the single key [v]. *)
Definition matching_rows (right : DataFrame) (v : cell) : list nat :=
  filter (λ j, (key_cell <$> default [] (index right !! j)) = [key_cell v])
         (seq 0 (nrows right)).

(** A column of integers has a cell, and all its cells are integers.  Such a
    column cannot hold [nan]: where [nan] has to go into it, its integers
    become floats. *)
Definition is_int_column (cells : list cell) : bool :=
  match cells with
  | [] => false
  | _ => forallb (λ c, match c with CInt _ => true | _ => false end) cells
  end.

Definition to_float (c : cell) : cell :=
  match c with
  | CInt z => CFloat (inject_Z z)
  | _ => c
  end.

Definition upcast (missed : bool) (cells : list cell) : list cell :=
  if missed && is_int_column cells then to_float <$> cells else cells.

(** [left.join(right, on=name)], a left join of the column or index level
    [name] of [left] against the index of [right]: a left row is repeated
    once per matching row of [right] and kept, with [NaN] in the columns of
    [right], when there is none; the integer columns of [right] are then
    columns of floats.  The message of the error on columns of one name on
    both sides stops short of the list of these columns. *)
Definition join (left right : DataFrame) (on : string) : result DataFrame :=
  keys ←
    match column on left with
    | Some c => Ok c
    | None =>
      match level_of on left with
      | Some k => Ok (index_level k left)
      | None => Raise (KeyError on)
      end
    end;
  if bool_decide (Exists (λ n, n ∈ column_names right) (column_names left))
  then Raise (ValueError "columns overlap but no suffix specified")
  else
    let pairs : list (nat * option nat) :=
      imap (λ i v, match matching_rows right v with
                   | [] => [(i, None)]
                   | js => (λ j, (i, Some j)) <$> js
                   end) keys ≫= id in
    let missed :=
      bool_decide (Exists (λ p : nat * option nat, p.2 = None) pairs) in
    Ok {| index_names := index_names left;
          index := (λ p, default [] (index left !! p.1)) <$> pairs;
          columns :=
            ((λ nc, (nc.1, (λ p, default CNaN (nc.2 !! p.1)) <$> pairs))
               <$> columns left)
            ++ ((λ nc, (nc.1, (λ p, default CNaN
                                      (p.2 ≫= (upcast missed nc.2 !!.))) <$> pairs))
                  <$> columns right) |}.

(** ** [reduce_sweep_results] *)

Definition reduce_sweep_results (normal_df patched_df rich_prompts_df : DataFrame)
  : result (DataFrame * DataFrame) :=
  reduced_df ← groupby_mean ["prompts"; "rich_prompt_index"]%string patched_df;
  reduced_joined_df ←
    join reduced_df rich_prompts_df "rich_prompt_index" ≫= reset_index None;
  reduced_normal_df ← groupby_mean ["prompts"%string] normal_df;
  Ok (reduced_normal_df, reduced_joined_df).

(** ** The world the sweeps run in

    A sweep shares two mutable objects with its caller: the model, whose hook
    mapping [sweep_over_metrics] installs and clears, and the [rich_prompts]
    argument, an iterable of descriptor sets that is either re-iterable (a
    list or a [Series]) or a single-pass iterator (a generator). *)

Inductive Iterable : Type :=
| Sequence (items : list (list RichPrompt))
| Iterator (items : list (list RichPrompt)) (pos : nat).

(** The descriptor-set objects behind the iterable. *)
Definition items (it : Iterable) : list (list RichPrompt) :=
  match it with
  | Sequence l => l
  | Iterator l _ => l
  end.

(** Where [iter(it)] starts reading: a sequence afresh, an iterator where it
    was left. *)
Definition iter_start (it : Iterable) : nat :=
  match it with
  | Sequence _ => 0%nat
  | Iterator _ pos => pos
  end.

(** The iterable once the item at [cursor] has been handed out. *)
Definition advance (cursor : nat) (it : Iterable) : Iterable :=
  match it with
  | Sequence l => Sequence l
  | Iterator l _ => Iterator l (S cursor)
  end.

(** The collaborators of the sweeps, none of which is among the sources: text
    generation ([completion_utils]), the hook compiler ([hook_utils]) and the
    metric columns ([metrics]).  Generation depends on the state of the random
    generator, given here as the number of generation calls made so far; the
    hook compiler and the metrics read the hooks that are live on the model.
    [cols_to_use] and [metric_args] are [None] when the call leaves them out. *)
Class Collaborators (HookFn MetricsDict Kwargs : Type) : Type := {
  gen_using_hooks :
    list string → list (ActName * HookFn) → nat → option Z → Kwargs →
    nat → result DataFrame;
  gen_using_rich_prompts :
    list RichPrompt → list string → nat → option Z → Kwargs →
    nat → result DataFrame;
  hook_fns_from_rich_prompts :
    list RichPrompt → list (ActName * HookFn) → result (list (ActName * HookFn));
  add_metric_cols :
    DataFrame → MetricsDict → option string → option Kwargs →
    list (ActName * HookFn) → result DataFrame
}.

Section sweeps.
Context {HookFn MetricsDict Kwargs : Type}.
Context `{!Collaborators HookFn MetricsDict Kwargs}.

Record World : Type := {
  model_hooks : list (ActName * HookFn);
  rich_prompts : Iterable;
  gen_calls : nat
}.

(** State and exceptions: an exception leaves the world as it was when it
    was raised. *)
Definition M (A : Type) : Type := World → World * result A.

#[global] Instance M_ret : MRet M := λ _ a w, (w, Ok a).
#[global] Instance M_bind : MBind M := λ _ _ f m w,
  match m w with
  | (w', Ok a) => f a w'
  | (w', Raise e) => (w', Raise e)
  end.

(** A computation that does not touch the world. *)
Definition lift {A : Type} (r : result A) : M A := λ w, (w, r).

(** [for x in l: ys.append(f x)] in [M]. *)
Fixpoint for_append {A B : Type} (l : list A) (f : A → M B) : M (list B) :=
  match l with
  | [] => mret []
  | x :: l' => y ← f x; ys ← for_append l' f; mret (y :: ys)
  end.

(** [for x in l: f x] in [M]. *)
Fixpoint for_each {A : Type} (l : list A) (f : A → M unit) : M unit :=
  match l with
  | [] => mret tt
  | x :: l' => f x;; for_each l' f
  end.

(** *** The model's hooks *)

Definition remove_all_hook_fns : M unit := λ w,
  ({| model_hooks := []; rich_prompts := rich_prompts w; gen_calls := gen_calls w |},
   Ok tt).

Definition add_hook (act_name : ActName) (hook_fn : HookFn) : M unit := λ w,
  ({| model_hooks := model_hooks w ++ [(act_name, hook_fn)];
      rich_prompts := rich_prompts w;
      gen_calls := gen_calls w |},
   Ok tt).

(** *** Calls to the collaborators *)

Definition call_gen_using_hooks (prompt_batch : list string)
    (hook_fns : list (ActName * HookFn)) (tokens_to_generate : nat)
    (seed : option Z) (sampling_kwargs : Kwargs) : M DataFrame := λ w,
  ({| model_hooks := model_hooks w; rich_prompts := rich_prompts w;
      gen_calls := S (gen_calls w) |},
   gen_using_hooks prompt_batch hook_fns tokens_to_generate seed sampling_kwargs
     (gen_calls w)).

Definition call_gen_using_rich_prompts (rich_prompts_this : list RichPrompt)
    (prompt_batch : list string) (tokens_to_generate : nat)
    (seed : option Z) (sampling_kwargs : Kwargs) : M DataFrame := λ w,
  ({| model_hooks := model_hooks w; rich_prompts := rich_prompts w;
      gen_calls := S (gen_calls w) |},
   gen_using_rich_prompts rich_prompts_this prompt_batch tokens_to_generate seed
     sampling_kwargs (gen_calls w)).

Definition call_hook_fns_from_rich_prompts (rich_prompts_this : list RichPrompt)
  : M (list (ActName * HookFn)) := λ w,
  (w, hook_fns_from_rich_prompts rich_prompts_this (model_hooks w)).

Definition call_add_metric_cols (data : DataFrame) (metrics_dict : MetricsDict)
    (cols_to_use : option string) (metric_args : option Kwargs) : M DataFrame := λ w,
  (w, add_metric_cols data metrics_dict cols_to_use metric_args (model_hooks w)).

(** *** [for index, rich_prompts_this in enumerate(tqdm(rich_prompts))]

    The loop reads the item under the cursor, which uses it up when the
    iterable is an iterator, and runs the body on it.  No body below
    changes the items, so the number of rounds is known when the loop
    starts. *)
Fixpoint enumerate_from {A : Type} (rounds index cursor : nat)
    (body : nat → list RichPrompt → M A) : M (list A) :=
  match rounds with
  | O => mret []
  | S rounds' => λ w,
    match items (rich_prompts w) !! cursor with
    | None => (w, Ok [])
    | Some rich_prompts_this =>
      (y ← body index rich_prompts_this;
       ys ← enumerate_from rounds' (S index) (S cursor) body;
       mret (y :: ys))
        {| model_hooks := model_hooks w;
           rich_prompts := advance cursor (rich_prompts w);
           gen_calls := gen_calls w |}
    end
  end.

Definition for_enumerate {A : Type} (body : nat → list RichPrompt → M A)
  : M (list A) := λ w,
  let start := iter_start (rich_prompts w) in
  enumerate_from (length (items (rich_prompts w)) - start) 0 start body w.

(** ** [sweep_over_prompts] *)

(** The loop over the prompts: per prompt the table of normal completions
    and the tables of patched completions, one per descriptor set. *)
Definition completion_lists (prompts : list string)
    (num_normal_completions num_patched_completions tokens_to_generate : nat)
    (seed : option Z) (sampling_kwargs : Kwargs)
  : M (list (DataFrame * list DataFrame)) :=
  for_append prompts (λ prompt,
    normal_df ←
      call_gen_using_hooks (replicate num_normal_completions prompt) []
        tokens_to_generate seed sampling_kwargs;
    patched ← for_enumerate (λ index rich_prompts_this,
      patched_df ←
        call_gen_using_rich_prompts rich_prompts_this
          (replicate num_patched_completions prompt)
          tokens_to_generate seed sampling_kwargs;
      mret (setitem "rich_prompt_index" (CInt (Z.of_nat index)) patched_df));
    mret (normal_df, patched)).

Definition sweep_over_prompts (prompts : list string)
    (num_normal_completions num_patched_completions tokens_to_generate : nat)
    (seed : option Z) (metrics_dict : option MetricsDict)
    (sampling_kwargs : Kwargs) : M (DataFrame * DataFrame) :=
  lists ← completion_lists prompts num_normal_completions
            num_patched_completions tokens_to_generate seed sampling_kwargs;
  let normal_list := lists.*1 in
  let patched_list := mjoin lists.*2 in
  normal_all ←
    lift (pd_concat normal_list ≫= reset_index (Some ["completion_index"%string]));
  patched_all ←
    lift (pd_concat patched_list ≫= reset_index (Some ["completion_index"%string]));
  match metrics_dict with
  | None => mret (normal_all, patched_all)
  | Some metrics_dict =>
    normal_all ← call_add_metric_cols normal_all metrics_dict None None;
    patched_all ← call_add_metric_cols patched_all metrics_dict None None;
    mret (normal_all, patched_all)
  end.

(** ** [sweep_over_metrics] *)

(** One round of the loop over the descriptor sets.  Over values, what
    scoring returns is a table of its own, and tagging it leaves the table of
    the texts as it was; scoring that hands back the table it was given is
    the matter of [Objects.metrics_round]. *)
Definition metrics_round (texts_df : DataFrame) (metrics_dict : MetricsDict)
    (metric_args : Kwargs) (index : nat) (rich_prompts_this : list RichPrompt)
  : M DataFrame :=
  hook_fns ← call_hook_fns_from_rich_prompts rich_prompts_this;
  remove_all_hook_fns;;
  for_each hook_fns (λ '(act_name, hook_fn), add_hook act_name hook_fn);;
  patched_df ←
    call_add_metric_cols texts_df metrics_dict (Some "text"%string) (Some metric_args);
  let patched_df := setitem "rich_prompt_index" (CInt (Z.of_nat index)) patched_df in
  remove_all_hook_fns;;
  mret patched_df.

Definition sweep_over_metrics (texts : Texts) (metrics_dict : MetricsDict)
    (metric_args : Kwargs) : M DataFrame :=
  let texts_df := pd_DataFrame_text texts in
  patched_list ← for_enumerate (metrics_round texts_df metrics_dict metric_args);
  lift (pd_concat patched_list ≫= reset_index (Some ["text_index"%string])).
End sweeps.

Arguments World HookFn : clear implicits.
Arguments M HookFn A : clear implicits.

(** ** The sweeps over objects

    The embedding above takes a table, and a descriptor set, for its value.
    Python hands both around as objects: [patched_df["rich_prompt_index"] =
    index] writes into the table a collaborator returned, which may be the
    table it was handed or one it returned before, and a collaborator that
    is handed a descriptor set is handed the list itself.  This second
    embedding of the two sweeps keeps the objects apart from what they hold:
    the tables live in a store and are known by their addresses, and a
    collaborator returns, beside its result, what it leaves in the objects
    it can reach. *)
Module Objects.

(** The address of a table in the store. *)
Definition ref : Type := nat.

(** The collaborators over objects, none of which is among the sources.
    Each of them finds the tables of the store and leaves them as it likes,
    new ones included; the two that are handed a descriptor set also leave
    that list, and the descriptors in it, as they like.  A table is handed
    over and returned by its address.  What the collaborators keep to is
    said where it is needed: see [ReadOnlyContract], [HeapContract],
    [scores_afresh] and [scores_in_place]. *)
Class Collaborators (HookFn MetricsDict Kwargs : Type) : Type := {
  gen_using_hooks :
    list string → list (ActName * HookFn) → nat → option Z → Kwargs → nat →
    list DataFrame → list DataFrame * result ref;
  gen_using_rich_prompts :
    list RichPrompt → list string → nat → option Z → Kwargs → nat →
    list DataFrame → list RichPrompt * list DataFrame * result ref;
  hook_fns_from_rich_prompts :
    list RichPrompt → list (ActName * HookFn) →
    list RichPrompt * result (list (ActName * HookFn));
  add_metric_cols :
    ref → MetricsDict → option string → option Kwargs →
    list (ActName * HookFn) → list DataFrame → list DataFrame * result ref
}.

Section sweeps.
Context {HookFn MetricsDict Kwargs : Type}.
Context `{!Collaborators HookFn MetricsDict Kwargs}.

(** The world of the sweeps and the tables there are. *)
Record Store : Type := {
  world : World HookFn;
  tables : list DataFrame
}.

Definition M (A : Type) : Type := Store → Store * result A.

#[export] Instance M_ret : MRet M := λ _ a s, (s, Ok a).
#[export] Instance M_bind : MBind M := λ _ _ f m s,
  match m s with
  | (s', Ok a) => f a s'
  | (s', Raise e) => (s', Raise e)
  end.

Definition lift {A : Type} (r : result A) : M A := λ s, (s, r).

Fixpoint for_append {A B : Type} (l : list A) (f : A → M B) : M (list B) :=
  match l with
  | [] => mret []
  | x :: l' => y ← f x; ys ← for_append l' f; mret (y :: ys)
  end.

Fixpoint for_each {A : Type} (l : list A) (f : A → M unit) : M unit :=
  match l with
  | [] => mret tt
  | x :: l' => f x;; for_each l' f
  end.

(** *** Tables as objects *)

(** A table that was not there before: what [pd.DataFrame], [pd.concat] and
    [reset_index] return. *)
Definition new_table (df : DataFrame) : M ref := λ s,
  ({| world := world s; tables := tables s ++ [df] |}, Ok (length (tables s))).

(** The table at an address.  Python has no reference to an object that does
    not exist, so the error below is never seen when the collaborators
    return addresses of tables that exist. *)
Definition read_table (r : ref) : M DataFrame := λ s,
  (s, match tables s !! r with
      | Some df => Ok df
      | None => Raise (ExternalError "no such object")
      end).

(** [df[name] = value] with a scalar: the table at the address is written
    to, and whoever holds the address sees the column. *)
Definition setitem_at (name : string) (value : cell) (r : ref) : M unit := λ s,
  match tables s !! r with
  | Some df =>
    ({| world := world s; tables := <[r := setitem name value df]> (tables s) |},
     Ok tt)
  | None => (s, Raise (ExternalError "no such object"))
  end.

(** [pd.concat(refs).reset_index(names=names)]: the tables are read as they
    are when [pd.concat] is called; the table [pd.concat] makes is given up
    as soon as [reset_index] has made its own from it. *)
Definition concat_reset_index (refs : list ref) (names : list string) : M ref :=
  dfs ← for_append refs read_table;
  df ← lift (pd_concat dfs ≫= reset_index (Some names));
  new_table df.

(** *** The model's hooks *)

Definition remove_all_hook_fns : M unit := λ s,
  ({| world := {| model_hooks := [];
                  rich_prompts := rich_prompts (world s);
                  gen_calls := gen_calls (world s) |};
      tables := tables s |}, Ok tt).

Definition add_hook (act_name : ActName) (hook_fn : HookFn) : M unit := λ s,
  ({| world := {| model_hooks := model_hooks (world s) ++ [(act_name, hook_fn)];
                  rich_prompts := rich_prompts (world s);
                  gen_calls := gen_calls (world s) |};
      tables := tables s |}, Ok tt).

(** *** Calls to the collaborators *)

(** The iterable once the descriptor set at [cursor] holds
    [rich_prompts_this]. *)
Definition write_back (cursor : nat) (rich_prompts_this : list RichPrompt)
    (it : Iterable) : Iterable :=
  match it with
  | Sequence l => Sequence (<[cursor := rich_prompts_this]> l)
  | Iterator l pos => Iterator (<[cursor := rich_prompts_this]> l) pos
  end.

Definition call_gen_using_hooks (prompt_batch : list string)
    (hook_fns : list (ActName * HookFn)) (tokens_to_generate : nat)
    (seed : option Z) (sampling_kwargs : Kwargs) : M ref := λ s,
  let out :=
    gen_using_hooks prompt_batch hook_fns tokens_to_generate seed
      sampling_kwargs (gen_calls (world s)) (tables s) in
  ({| world := {| model_hooks := model_hooks (world s);
                  rich_prompts := rich_prompts (world s);
                  gen_calls := S (gen_calls (world s)) |};
      tables := out.1 |}, out.2).

(** A call that is handed the descriptor set at [cursor], which holds
    [rich_prompts_this] when the call is made. *)
Definition call_gen_using_rich_prompts (cursor : nat)
    (rich_prompts_this : list RichPrompt) (prompt_batch : list string)
    (tokens_to_generate : nat) (seed : option Z) (sampling_kwargs : Kwargs)
  : M ref := λ s,
  let out :=
    gen_using_rich_prompts rich_prompts_this prompt_batch tokens_to_generate
      seed sampling_kwargs (gen_calls (world s)) (tables s) in
  ({| world := {| model_hooks := model_hooks (world s);
                  rich_prompts := write_back cursor out.1.1 (rich_prompts (world s));
                  gen_calls := S (gen_calls (world s)) |};
      tables := out.1.2 |}, out.2).

Definition call_hook_fns_from_rich_prompts (cursor : nat)
    (rich_prompts_this : list RichPrompt) : M (list (ActName * HookFn)) := λ s,
  let out :=
    hook_fns_from_rich_prompts rich_prompts_this (model_hooks (world s)) in
  ({| world := {| model_hooks := model_hooks (world s);
                  rich_prompts := write_back cursor out.1 (rich_prompts (world s));
                  gen_calls := gen_calls (world s) |};
      tables := tables s |}, out.2).

Definition call_add_metric_cols (data : ref) (metrics_dict : MetricsDict)
    (cols_to_use : option string) (metric_args : option Kwargs) : M ref := λ s,
  let out :=
    add_metric_cols data metrics_dict cols_to_use metric_args
      (model_hooks (world s)) (tables s) in
  ({| world := world s; tables := out.1 |}, out.2).

(** *** [for index, rich_prompts_this in enumerate(tqdm(rich_prompts))]

    The body is handed the number of the round, the place of the descriptor
    set in the iterable and what the set holds.  A collaborator changes at
    most what a set holds, never how many sets there are, so the number of
    rounds is known when the loop starts. *)
Fixpoint enumerate_from {A : Type} (rounds index cursor : nat)
    (body : nat → nat → list RichPrompt → M A) : M (list A) :=
  match rounds with
  | O => mret []
  | S rounds' => λ s,
    match items (rich_prompts (world s)) !! cursor with
    | None => (s, Ok [])
    | Some rich_prompts_this =>
      (y ← body index cursor rich_prompts_this;
       ys ← enumerate_from rounds' (S index) (S cursor) body;
       mret (y :: ys))
        {| world := {| model_hooks := model_hooks (world s);
                       rich_prompts := advance cursor (rich_prompts (world s));
                       gen_calls := gen_calls (world s) |};
           tables := tables s |}
    end
  end.

Definition for_enumerate {A : Type} (body : nat → nat → list RichPrompt → M A)
  : M (list A) := λ s,
  let start := iter_start (rich_prompts (world s)) in
  enumerate_from (length (items (rich_prompts (world s))) - start) 0 start body s.

(** *** [sweep_over_prompts] *)

Definition completion_lists (prompts : list string)
    (num_normal_completions num_patched_completions tokens_to_generate : nat)
    (seed : option Z) (sampling_kwargs : Kwargs)
  : M (list (ref * list ref)) :=
  for_append prompts (λ prompt,
    normal_df ←
      call_gen_using_hooks (replicate num_normal_completions prompt) []
        tokens_to_generate seed sampling_kwargs;
    patched ← for_enumerate (λ index cursor rich_prompts_this,
      patched_df ←
        call_gen_using_rich_prompts cursor rich_prompts_this
          (replicate num_patched_completions prompt)
          tokens_to_generate seed sampling_kwargs;
      setitem_at "rich_prompt_index" (CInt (Z.of_nat index)) patched_df;;
      mret patched_df);
    mret (normal_df, patched)).

Definition sweep_over_prompts (prompts : list string)
    (num_normal_completions num_patched_completions tokens_to_generate : nat)
    (seed : option Z) (metrics_dict : option MetricsDict)
    (sampling_kwargs : Kwargs) : M (ref * ref) :=
  lists ← completion_lists prompts num_normal_completions
            num_patched_completions tokens_to_generate seed sampling_kwargs;
  let normal_list := lists.*1 in
  let patched_list := mjoin lists.*2 in
  normal_all ← concat_reset_index normal_list ["completion_index"%string];
  patched_all ← concat_reset_index patched_list ["completion_index"%string];
  match metrics_dict with
  | None => mret (normal_all, patched_all)
  | Some metrics_dict =>
    normal_all ← call_add_metric_cols normal_all metrics_dict None None;
    patched_all ← call_add_metric_cols patched_all metrics_dict None None;
    mret (normal_all, patched_all)
  end.

(** *** [sweep_over_metrics] *)

Definition metrics_round (texts_df : ref) (metrics_dict : MetricsDict)
    (metric_args : Kwargs) (index cursor : nat)
    (rich_prompts_this : list RichPrompt) : M ref :=
  hook_fns ← call_hook_fns_from_rich_prompts cursor rich_prompts_this;
  remove_all_hook_fns;;
  for_each hook_fns (λ '(act_name, hook_fn), add_hook act_name hook_fn);;
  patched_df ←
    call_add_metric_cols texts_df metrics_dict (Some "text"%string)
      (Some metric_args);
  setitem_at "rich_prompt_index" (CInt (Z.of_nat index)) patched_df;;
  remove_all_hook_fns;;
  mret patched_df.

Definition sweep_over_metrics (texts : Texts) (metrics_dict : MetricsDict)
    (metric_args : Kwargs) : M ref :=
  texts_df ← new_table (pd_DataFrame_text texts);
  patched_list ← for_enumerate (metrics_round texts_df metrics_dict metric_args);
  concat_reset_index patched_list ["text_index"%string].
End sweeps.

Arguments Store HookFn : clear implicits.
Arguments M HookFn A : clear implicits.
End Objects.

(** ** Vocabulary of the statements *)

(** The cross product the builder walks, in loop order. *)
Definition cross_product (phrases : list (list (string * Q)))
    (act_names : list ActName) (coeffs : list Q)
  : list (list (string * Q) * ActName * Q) :=
  phrases_this ← phrases; act_name ← act_names; coeff ← coeffs;
  [(phrases_this, act_name, coeff)].

(** The provenance of a row: the element of the cross product it was built
    from. *)
Definition provenance (row : Row) : list (string * Q) * ActName * Q :=
  (row_phrases row, row_act_name row, row_coeff row).

(** A descriptor built from [(phrase, init_coeff)] at a site and an outer
    coefficient: its coefficient is the product and its site is the site. *)
Definition scaled_at (act_name : ActName) (coeff : Q)
    (rp : RichPrompt) (phrase_init : string * Q) : Prop :=
  prompt_utils.coeff rp = (phrase_init.2 * coeff)%Q
  ∧ prompt_utils.act_name rp = act_name.

(** A row built from an element of the cross product: it records the
    element, and its descriptors are those of the innermost loop body. *)
Definition built_from (pad : bool) (model : option HookedTransformer)
    (element : list (string * Q) * ActName * Q) (row : Row) : Prop :=
  provenance row = element
  ∧ rich_prompts_for pad model element.1.1 element.1.2 element.2
    = Ok (row_rich_prompts row).

(** A descriptor whose content is the token sequence of [phrase_init],
    extended on the right with the filler up to [max_len] tokens. *)
Definition padded_to (model : HookedTransformer) (max_len : Z)
    (rp : RichPrompt) (phrase_init : string * Q) : Prop :=
  let tokens := to_tokens model phrase_init.1 in
  let padded :=
    tokens ++ replicate (Z.to_nat (max_len - shape_last tokens))
                        (to_single_token model " ") in
  shape_last padded = max_len ∧ content rp = Tokens (squeeze padded).

(** The maximum token count over one phrase group. *)
Definition group_max_len (model : HookedTransformer)
    (phrases_this : list (string * Q)) (max_len : Z) : Prop :=
  (∃ phrase_init, phrase_init ∈ phrases_this
     ∧ shape_last (to_tokens model phrase_init.1) = max_len)
  ∧ ∀ phrase_init, phrase_init ∈ phrases_this →
      shape_last (to_tokens model phrase_init.1) ≤ max_len.

(** [rich_prompts_df["rich_prompts"]]: the descriptor sets of a table the
    builder returned. *)
Definition rich_prompts_column (df : DataFrame) : list (list RichPrompt) :=
  default [] (column "rich_prompts" df) ≫= (λ c,
    match c with
    | CRichPrompts l => [l]
    | _ => []
    end).

(** Modelled from the spec: the table a generation call returns, the
    functions [gen_using_hooks] and [gen_using_rich_prompts] not being among
    the sources.  A call generates one completion per prompt of its batch: the
    table has one row per prompt under a fresh [RangeIndex], the prompts in
    its column ["prompts"], and neither of the two columns the sweep adds. *)
Definition completion_frame (prompt_batch : list string) (df : DataFrame) : Prop :=
  index_names df = [None]
  ∧ index df = RangeIndex (length prompt_batch)
  ∧ column "prompts" df = Some (CStr <$> prompt_batch)
  ∧ ("completion_index"%string ∉ column_names df)
  ∧ ("rich_prompt_index"%string ∉ column_names df).

(** Modelled from the spec: generation returns, and returns such a table,
    whatever the hooks, the seed and the state of the random generator. *)
Class GenerationContract {HookFn MetricsDict Kwargs : Type}
    (collaborators : Collaborators HookFn MetricsDict Kwargs) : Prop := {
  gen_using_hooks_frame :
    ∀ prompt_batch hook_fns tokens_to_generate seed sampling_kwargs calls,
      ∃ df, gen_using_hooks prompt_batch hook_fns tokens_to_generate seed
              sampling_kwargs calls = Ok df
        ∧ completion_frame prompt_batch df;
  gen_using_rich_prompts_frame :
    ∀ rich_prompts_this prompt_batch tokens_to_generate seed sampling_kwargs calls,
      ∃ df, gen_using_rich_prompts rich_prompts_this prompt_batch
              tokens_to_generate seed sampling_kwargs calls = Ok df
        ∧ completion_frame prompt_batch df
}.

(** The iterable after a [for] loop has run over it to the end. *)
Definition after_loop (it : Iterable) : Iterable :=
  match it with
  | Sequence l => Sequence l
  | Iterator l pos => Iterator l (pos `max` length l)
  end.

(** What a [for] loop started now would be handed. *)
Definition remaining (it : Iterable) : list (list RichPrompt) :=
  drop (iter_start it) (items it).

(** Two states of an iterable over the same descriptor sets: at most the
    position of an iterator differs. *)
Definition same_sets (it it' : Iterable) : Prop :=
  match it, it' with
  | Sequence l, Sequence l' => l = l'
  | Iterator l _, Iterator l' _ => l = l'
  | _, _ => False
  end.

Section frames.
Context {HookFn MetricsDict Kwargs : Type}.
Context `{!Collaborators HookFn MetricsDict Kwargs}.

(** The world with another hook mapping on the model. *)
Definition with_hooks (hooks : list (ActName * HookFn)) (w : World HookFn)
  : World HookFn :=
  {| model_hooks := hooks; rich_prompts := rich_prompts w; gen_calls := gen_calls w |}.

(** The table of normal completions of one prompt: what [gen_using_hooks]
    returned for the batch of [n] copies of the prompt and no hook. *)
Definition normal_frame (n tokens_to_generate : nat) (seed : option Z)
    (sampling_kwargs : Kwargs) (prompt : string) (df : DataFrame) : Prop :=
  ∃ calls,
    gen_using_hooks (replicate n prompt) [] tokens_to_generate seed
      sampling_kwargs calls = Ok df
    ∧ completion_frame (replicate n prompt) df.

(** The table of patched completions of one prompt under one descriptor
    set: what [gen_using_rich_prompts] returned for the set and the batch of
    [n] copies of the prompt, tagged with the index of the set. *)
Definition patched_frame (n tokens_to_generate : nat) (seed : option Z)
    (sampling_kwargs : Kwargs) (prompt : string) (index : nat)
    (rich_prompts_this : list RichPrompt) (df : DataFrame) : Prop :=
  ∃ calls df0,
    gen_using_rich_prompts rich_prompts_this (replicate n prompt)
      tokens_to_generate seed sampling_kwargs calls = Ok df0
    ∧ completion_frame (replicate n prompt) df0
    ∧ df = setitem "rich_prompt_index" (CInt (Z.of_nat index)) df0.

(** One patched table per descriptor set, tagged [index], [index + 1], ... *)
Fixpoint patched_frames (n tokens_to_generate : nat) (seed : option Z)
    (sampling_kwargs : Kwargs) (prompt : string) (index : nat)
    (sets : list (list RichPrompt)) (frames : list DataFrame) : Prop :=
  match sets, frames with
  | [], [] => True
  | rich_prompts_this :: sets', df :: frames' =>
    patched_frame n tokens_to_generate seed sampling_kwargs prompt index
      rich_prompts_this df
    ∧ patched_frames n tokens_to_generate seed sampling_kwargs prompt (S index)
        sets' frames'
  | _, _ => False
  end.

(** What one round of the loop over the prompts appends when the loop over
    the descriptor sets is handed [sets]. *)
Definition prompt_round (num_normal_completions num_patched_completions
    tokens_to_generate : nat) (seed : option Z) (sampling_kwargs : Kwargs)
    (sets : list (list RichPrompt)) (prompt : string)
    (tables : DataFrame * list DataFrame) : Prop :=
  normal_frame num_normal_completions tokens_to_generate seed sampling_kwargs
    prompt tables.1
  ∧ patched_frames num_patched_completions tokens_to_generate seed
      sampling_kwargs prompt 0 sets tables.2.
End frames.

(** The (prompt, descriptor-set index) pairs of a sweep, in loop order. *)
Definition sweep_pairs (prompts : list string) (sets : list (list RichPrompt))
  : list (string * nat) :=
  prompt ← prompts; index ← seq 0 (length sets); [(prompt, index)].

(** A column made of one block of [n] equal cells per element of [xs]. *)
Definition blocks {A : Type} (n : nat) (f : A → cell) (xs : list A) : list cell :=
  x ← xs; replicate n (f x).

(** A table of [n] rows that can go into [pd.concat(...).reset_index(names=
    "completion_index")] and whose rows all belong to [prompt]. *)
Definition rows_of_prompt (n : nat) (prompt : string) (df : DataFrame) : Prop :=
  index_names df = [None]
  ∧ ("completion_index"%string ∉ column_names df)
  ∧ nrows df = n
  ∧ column "prompts" df = Some (replicate n (CStr prompt)).

(** Such a table with all its rows tagged with one descriptor-set index. *)
Definition rows_of_pair (n : nat) (pair : string * nat) (df : DataFrame) : Prop :=
  rows_of_prompt n pair.1 df
  ∧ column "rich_prompt_index" df = Some (replicate n (CInt (Z.of_nat pair.2))).

(** The row of the provenance table that a descriptor-set index points to. *)
Definition provenance_row (rows : list Row) (index : Z) : option Row :=
  if 0 <=? index then rows !! Z.to_nat index else None.

(** The site of a provenance row as a cell of the joined table.  A site
    that is an integer is written as a float when the column has to hold
    [NaN] beside it. *)
Definition site_cell (as_float : bool) (a : ActName) : cell :=
  match a with
  | ActStr s => CStr s
  | ActInt n => if as_float then CFloat (inject_Z n) else CInt n
  end.

(** Whether the sites of the joined table are floats: every site of the
    provenance table is an integer, and some index points to no row. *)
Definition sites_as_floats (rows : list Row) (indices : list Z) : bool :=
  forallb (λ r, match row_act_name r with ActInt _ => true | ActStr _ => false end)
          rows
  && bool_decide (Exists (λ index, provenance_row rows index = None) indices).

(** The provenance columns of the joined table, one cell per group: the
    descriptors, phrases, site and coefficient of the row the group's index
    points to, and [NaN] where it points to none.  A provenance table without
    rows has no column to contribute. *)
Definition provenance_columns (rows : list Row) (indices : list Z)
  : list (string * list cell) :=
  match rows with
  | [] => []
  | _ =>
    let cell_of (f : Row → cell) (index : Z) : cell :=
      from_option f CNaN (provenance_row rows index) in
    [ ("rich_prompts"%string, cell_of (λ r, CRichPrompts (row_rich_prompts r)) <$> indices);
      ("phrases"%string, cell_of (λ r, CPhrases (row_phrases r)) <$> indices);
      ("act_name"%string,
       cell_of (λ r, site_cell (sites_as_floats rows indices) (row_act_name r))
         <$> indices);
      ("coeff"%string, cell_of (λ r, CFloat (row_coeff r)) <$> indices) ]
  end.

(** The mean columns of a reduced table: for every group, the mean of each
    value column over the rows of the group. *)
Definition mean_columns {K : Type} `{EqDecision K} (by_ : list string)
    (df : DataFrame) (keys : list K) (groups : list K)
  : list (string * list cell) :=
  (λ nc, (nc.1, (λ g, mean_cell (group_cells keys nc.2 g)) <$> groups))
    <$> value_columns by_ df.

(** ** The reducer in the words of its specification

    The definitions of this section are written from the contract of the
    Result Reducer/Joiner, not from the code: the rows of a group, the
    numbers a column holds in them, their arithmetic mean, and the columns
    that count as numeric.  [reduce_sweep_results_means] compares the tables
    the code returns with the tables these definitions describe. *)

(** The rows of a group: the positions whose key is the group's, in order. *)
Definition spec_group_rows {K : Type} `{EqDecision K} (keys : list K) (g : K)
  : list nat :=
  filter (λ i, keys !! i = Some g) (seq 0 (length keys)).

(** The numbers a column holds in the given rows, in the order of the rows; a
    missing value is not a number. *)
Definition spec_numbers (cells : list cell) (positions : list nat) : list Q :=
  positions ≫= (λ i, match cells !! i with
                     | Some (CInt z) => [inject_Z z]
                     | Some (CFloat q) => [q]
                     | _ => []
                     end).

(** The arithmetic mean: the sum of the numbers divided by their count, as a
    fraction in lowest terms.  No number, no mean. *)
Definition spec_mean (qs : list Q) : cell :=
  match qs with
  | [] => CNaN
  | _ => CFloat (Qred (foldr Qplus 0%Q qs / inject_Z (Z.of_nat (length qs))))
  end.

(** A numeric column: it has a cell, and none of its cells is a text, a list
    or [None]. *)
Definition spec_numeric (cells : list cell) : bool :=
  negb (bool_decide (cells = []))
  && negb (existsb (λ c, match c with
                         | CStr _ | CNone | CRichPrompts _ | CPhrases _ => true
                         | _ => false
                         end) cells).

(** The averaged columns: for each numeric column that is not a key, in the
    order of the table, the mean over each group. *)
Definition spec_means {K : Type} `{EqDecision K} (key_names : list string)
    (df : DataFrame) (keys groups : list K) : list (string * list cell) :=
  (λ nc, (nc.1, (λ g, spec_mean (spec_numbers nc.2 (spec_group_rows keys g)))
                  <$> groups))
    <$> filter (λ nc, (nc.1 ∉ key_names) ∧ spec_numeric nc.2 = true) (columns df).

(** A table the reducer is specified on: it has rows, its columns have
    different names and one cell per row, and no level of its index goes by
    the name of a key. *)
Definition table_of_rows (key_names : list string) (df : DataFrame) : Prop :=
  nrows df ≠ 0%nat
  ∧ NoDup (column_names df)
  ∧ Forall (λ nc, length nc.2 = nrows df) (columns df)
  ∧ Forall (λ key, Some key ∉ index_names df) key_names.

(** The position in the provenance table that an index matches. *)
Definition matched_row (rows : list Row) (z : Z) : option nat :=
  if decide (0 ≤ z < Z.of_nat (length rows)) then Some (Z.to_nat z) else None.

(** ** Concrete inputs of the examples *)

Module Examples.
Local Open Scope string_scope.

(** A tokenizer that starts every sequence with 50256 and spends one token
    per character. *)
Definition toy_model : HookedTransformer :=
  {| to_tokens := λ s, 50256 :: ((λ a, Z.of_nat (Ascii.nat_of_ascii a))
                                   <$> String.list_ascii_of_string s);
     to_single_token := λ _, 220 |}.

Definition anger_calm : list (list (string * Q)) :=
  [[("Anger", 1%Q); ("Calm", (-1)%Q)]].

(** The sweep specification of the end-to-end scenario. *)
Definition scenario_phrases : list (list (string * Q)) :=
  [[("A", 1%Q); ("B", (-1)%Q)]].
Definition scenario_act_names : list ActName := [ActInt 0; ActInt 5].
Definition scenario_coeffs : list Q := [1%Q; 10%Q].

(** The four descriptor sets the builder makes of it. *)
Definition scenario_sets : list (list RichPrompt) :=
  [ [ {| coeff := 1; act_name := ActInt 0; content := Prompt "A" |};
      {| coeff := -1; act_name := ActInt 0; content := Prompt "B" |} ];
    [ {| coeff := 10; act_name := ActInt 0; content := Prompt "A" |};
      {| coeff := -10; act_name := ActInt 0; content := Prompt "B" |} ];
    [ {| coeff := 1; act_name := ActInt 5; content := Prompt "A" |};
      {| coeff := -1; act_name := ActInt 5; content := Prompt "B" |} ];
    [ {| coeff := 10; act_name := ActInt 5; content := Prompt "A" |};
      {| coeff := -10; act_name := ActInt 5; content := Prompt "B" |} ] ].

(** Collaborators that always answer: a completion repeats its prompt, a
    hook is named after the phrase or the token count it was compiled from,
    and the only metric is the number of live hooks. *)
Definition toy_frame (prompt_batch : list string) (suffix : string) (calls : nat)
  : DataFrame :=
  {| index_names := [None];
     index := RangeIndex (length prompt_batch);
     columns :=
       [ ("prompts", CStr <$> prompt_batch);
         ("completions", (λ p, CStr (p +:+ suffix)) <$> prompt_batch);
         ("loss", (λ _, CFloat (inject_Z (Z.of_nat calls))) <$> prompt_batch) ] |}.

Definition toy_hook (rp : RichPrompt) : ActName * string :=
  (act_name rp,
   match content rp with
   | Prompt phrase => phrase
   | Tokens _ => "tokens"
   end).

Definition toy_collaborators : Collaborators string (list string) unit :=
  {| gen_using_hooks := λ prompt_batch _ _ _ _ calls,
       Ok (toy_frame prompt_batch " ..." calls);
     gen_using_rich_prompts := λ _ prompt_batch _ _ _ calls,
       Ok (toy_frame prompt_batch " !!!" calls);
     hook_fns_from_rich_prompts := λ rich_prompts_this _,
       Ok (toy_hook <$> rich_prompts_this);
     add_metric_cols := λ data _ _ _ hooks,
       Ok (setitem "n_hooks" (CInt (Z.of_nat (length hooks))) data) |}.

(** The same collaborators with a metric that fails. *)
Definition failing_metric : Collaborators string (list string) unit :=
  {| gen_using_hooks := gen_using_hooks (Collaborators := toy_collaborators);
     gen_using_rich_prompts :=
       gen_using_rich_prompts (Collaborators := toy_collaborators);
     hook_fns_from_rich_prompts :=
       hook_fns_from_rich_prompts (Collaborators := toy_collaborators);
     add_metric_cols := λ _ _ _ _ _, Raise (ExternalError "CUDA out of memory") |}.

(** A model without hooks and the scenario's descriptor sets as a list. *)
Definition scenario_world : World string :=
  {| model_hooks := []; rich_prompts := Sequence scenario_sets; gen_calls := 0 |}.

(** Results of a small sweep: two prompts, the descriptor sets 0 and 1, a
    text column and a numeric metric. *)
Definition normal_results : DataFrame :=
  {| index_names := [None];
     index := RangeIndex 3;
     columns :=
       [ ("completion_index", CInt <$> [0; 1; 0]);
         ("prompts", CStr <$> ["p"; "p"; "a"]);
         ("completions", CStr <$> ["x"; "y"; "z"]);
         ("loss", CFloat <$> [1 # 2; 3 # 2; 1%Q]) ] |}.

Definition patched_results : DataFrame :=
  {| index_names := [None];
     index := RangeIndex 6;
     columns :=
       [ ("completion_index", CInt <$> [0; 1; 2; 0; 1; 2]);
         ("prompts", CStr <$> ["p"; "p"; "p"; "a"; "a"; "a"]);
         ("completions", CStr <$> ["x"; "y"; "z"; "x"; "y"; "z"]);
         ("loss", CFloat <$> [1 # 2; 3 # 2; 1%Q; 2%Q; 2%Q; 5%Q]);
         ("rich_prompt_index", CInt <$> [1; 1; 0; 0; 1; 1]) ] |}.

(** The provenance rows of the scenario's four descriptor sets. *)
Definition scenario_rows : list Row :=
  (λ '(rps, (act_name, coeff)),
     {| row_rich_prompts := rps; row_phrases := [("A", 1%Q); ("B", (-1)%Q)];
        row_act_name := act_name; row_coeff := coeff |})
    <$> zip scenario_sets
          [(ActInt 0, 1%Q); (ActInt 0, 10%Q); (ActInt 5, 1%Q); (ActInt 5, 10%Q)].

(** The same sets behind a generator. *)
Definition generator_world : World string :=
  {| model_hooks := []; rich_prompts := Iterator scenario_sets 0; gen_calls := 0 |}.
End Examples.


(** ** Further vocabulary *)

(** [tensor.shape]: empty for a scalar, the length for a rank-1 tensor. *)
Definition tensor_shape (t : Tensor) : list Z :=
  match t with
  | Tensor0 _ => []
  | Tensor1 ts => [shape_last ts]
  end.

(** The position of the row of the element [(gi, si, ci)] of the cross
    product in the builder's table. *)
Definition row_position (n_sites n_coeffs gi si ci : nat) : nat :=
  ((gi * n_sites + si) * n_coeffs + ci)%nat.

(** The labels of a fresh [RangeIndex] as cells: 0, 1, ..., [n - 1]. *)
Definition trial_numbers (n : nat) : list cell :=
  (λ i : nat, CInt (Z.of_nat i)) <$> seq 0 n.

Section metric_rounds.
Context {HookFn MetricsDict Kwargs : Type}.
Context `{!Collaborators HookFn MetricsDict Kwargs}.

(** The tables the rounds of [sweep_over_metrics] append for the descriptor
    sets [sets], numbered from [index], when the model carries [hooks] as the
    first round starts: every set is compiled to hook functions, the texts
    are scored under exactly these, and the scored table is tagged with the
    number of the set.  The compiler sees the model as the round finds it:
    with [hooks] in the first round and without any hook in the later
    ones. *)
Fixpoint metric_frames (texts_df : DataFrame) (metrics_dict : MetricsDict)
    (metric_args : Kwargs) (hooks : list (ActName * HookFn)) (index : nat)
    (sets : list (list RichPrompt)) (frames : list DataFrame) : Prop :=
  match sets, frames with
  | [], [] => True
  | rich_prompts_this :: sets', df :: frames' =>
    (∃ hook_fns patched_df,
       hook_fns_from_rich_prompts rich_prompts_this hooks = Ok hook_fns
       ∧ add_metric_cols texts_df metrics_dict (Some "text"%string)
           (Some metric_args) hook_fns = Ok patched_df
       ∧ df = setitem "rich_prompt_index" (CInt (Z.of_nat index)) patched_df)
    ∧ metric_frames texts_df metrics_dict metric_args [] (S index) sets' frames'
  | _, _ => False
  end.

End metric_rounds.

(** Modelled from the spec: the metric capability returns one scored row per
    input.  The scored table has the rows of the input table under the same
    labels and keeps the column that was scored. *)
Definition scored_frame (data : DataFrame) (col : string) (df : DataFrame) : Prop :=
  index_names df = index_names data
  ∧ index df = index data
  ∧ column col df = column col data.

(** The order of the rows of the joined table: by prompt, and by descriptor
    set index within a prompt. *)
Definition pair_leb (g1 g2 : string * Z) : bool :=
  if decide (g1.1 = g2.1) then g1.2 <=? g2.2 else String.leb g1.1 g2.1.

(** ** [plot_sweep_results]

    The figure is an object of [plotly], which is not among the sources: its
    type is left open, [px_func] is the argument of the function that makes
    the figure, and [add_hline] is the one method the function calls on it,
    which may raise.  The figure is mutated in place; here it is passed
    along. *)

(** The keyword arguments [px_func] is called with. *)
Record PxArgs : Type := {
  px_data : DataFrame;
  px_title : string;
  px_color : option string;
  px_y : string;
  px_x : option string;
  px_facet_col : option string;
  px_facet_row : option string
}.

(** What [baseline_data.loc[prompt][col_to_plot]] evaluates to: a scalar when
    one row carries the label, a [Series] when several do. *)
Inductive YValue : Type :=
| YScalar (c : cell)
| YSeries (cells : list cell).

(** The keyword arguments of one [fig.add_hline] call. *)
Record HLine : Type := {
  hline_y : YValue;
  hline_row : Z;
  hline_col : Z;
  hline_annotation_text : string;
  hline_annotation_position : string
}.

Class Plotly (Figure : Type) : Type := {
  add_hline : HLine → Figure → result Figure
}.

(** [df.loc[label]]: the positions of the rows that carry the label. *)
Definition loc (df : DataFrame) (label : list cell) : list nat :=
  filter (λ j, index df !! j = Some label) (seq 0 (nrows df)).

(** [df.loc[label][name]]. *)
Definition loc_getitem (df : DataFrame) (label : list cell) (name : string)
  : result YValue :=
  match loc df label with
  | [] => Raise (KeyError "label not found in the index")
  | js =>
    match column name df with
    | None => Raise (KeyError name)
    | Some cells =>
      match js with
      | [j] => Ok (YScalar (default CNaN (cells !! j)))
      | _ => Ok (YSeries ((λ j, default CNaN (cells !! j)) <$> js))
      end
    end
  end.

Section plots.
Context {Figure : Type} `{!Plotly Figure}.

(** [for index, prompt in enumerate(baseline_data.index): fig.add_hline(...)],
    from position [index] on. *)
Fixpoint add_baselines (baseline_data : DataFrame) (col_to_plot : string)
    (index : nat) (labels : list (list cell)) (fig : Figure) : result Figure :=
  match labels with
  | [] => Ok fig
  | prompt :: labels' =>
    y ← loc_getitem baseline_data prompt col_to_plot;
    fig ← add_hline {| hline_y := y;
                       hline_row := 1;
                       hline_col := Z.of_nat index + 1;
                       hline_annotation_text := "normal";
                       hline_annotation_position := "bottom left" |} fig;
    add_baselines baseline_data col_to_plot (S index) labels' fig
  end.

Definition plot_sweep_results (data : DataFrame) (col_to_plot title : string)
    (col_x col_color col_facet_col col_facet_row : option string)
    (baseline_data : option DataFrame) (px_func : PxArgs → result Figure)
  : result Figure :=
  fig ← px_func {| px_data := data; px_title := title; px_color := col_color;
                   px_y := col_to_plot; px_x := col_x;
                   px_facet_col := col_facet_col;
                   px_facet_row := col_facet_row |};
  match baseline_data with
  | Some baseline_data =>
    if bool_decide (col_to_plot ∈ column_names baseline_data)
       && bool_decide (col_facet_col = Some "prompts"%string)
       && bool_decide (col_facet_row = None)
    then add_baselines baseline_data col_to_plot 0 (index baseline_data) fig
    else Ok fig
  | None => Ok fig
  end.

(** The horizontal lines [lines] added to a figure one after the other. *)
Fixpoint add_hlines (lines : list HLine) (fig : Figure) : result Figure :=
  match lines with
  | [] => Ok fig
  | line :: lines' => fig ← add_hline line fig; add_hlines lines' fig
  end.
End plots.

(** The line that marks the baseline value [c] in the facet at column
    [position + 1] of the first row. *)
Definition baseline_line (position : nat) (c : cell) : HLine :=
  {| hline_y := YScalar c;
     hline_row := 1;
     hline_col := Z.of_nat position + 1;
     hline_annotation_text := "normal";
     hline_annotation_position := "bottom left" |}.

(** A figure that records the lines added to it, and a baseline aggregate of
    two prompts. *)
Module PlotExamples.
Local Open Scope string_scope.

Definition recording_figure : Plotly (list HLine) :=
  {| add_hline := λ line fig, Ok (fig ++ [line])%list |}.

Definition empty_figure (args : PxArgs) : result (list HLine) := Ok [].

Definition reduced_normal_results : DataFrame :=
  {| index_names := [Some "prompts"];
     index := [[CStr "a"]; [CStr "p"]];
     columns :=
       [ ("completion_index", [CFloat 0; CFloat (1 # 2)]);
         ("loss", [CFloat 1; CFloat (3 # 4)]) ] |}.
End PlotExamples.

(** ** Vocabulary of the statements about objects *)

Section object_contracts.
Context {HookFn MetricsDict Kwargs : Type}.
Context (collaborators : Objects.Collaborators HookFn MetricsDict Kwargs).
Local Open Scope nat_scope.

(** Modelled from the spec: a descriptor set is consumed read-only and never
    mutated after construction.  The two collaborators that are handed a
    descriptor set leave in the list what they found there, whether they
    return or raise. *)
Class ReadOnlyContract : Prop := {
  gen_using_rich_prompts_read_only :
    ∀ rich_prompts_this prompt_batch tokens_to_generate seed sampling_kwargs
      calls tables,
      (Objects.gen_using_rich_prompts rich_prompts_this prompt_batch
         tokens_to_generate seed sampling_kwargs calls tables).1.1
      = rich_prompts_this;
  hook_fns_from_rich_prompts_read_only :
    ∀ rich_prompts_this hooks,
      (Objects.hook_fns_from_rich_prompts rich_prompts_this hooks).1
      = rich_prompts_this
}.

(** What Python grants of any call that returns a table: the tables that
    were there are still there, as objects, and the table returned is one of
    the tables there are when the call is over. *)
Definition keeps_objects (tables : list DataFrame)
    (out : list DataFrame * result Objects.ref) : Prop :=
  length tables ≤ length out.1
  ∧ ∀ r, out.2 = Ok r → r < length out.1.

Class HeapContract : Prop := {
  gen_using_hooks_objects :
    ∀ prompt_batch hook_fns tokens_to_generate seed sampling_kwargs calls tables,
      keeps_objects tables
        (Objects.gen_using_hooks prompt_batch hook_fns tokens_to_generate seed
           sampling_kwargs calls tables);
  gen_using_rich_prompts_objects :
    ∀ rich_prompts_this prompt_batch tokens_to_generate seed sampling_kwargs
      calls tables,
      let out :=
        Objects.gen_using_rich_prompts rich_prompts_this prompt_batch
          tokens_to_generate seed sampling_kwargs calls tables in
      keeps_objects tables (out.1.2, out.2);
  add_metric_cols_objects :
    ∀ data metrics_dict cols_to_use metric_args hooks tables,
      keeps_objects tables
        (Objects.add_metric_cols data metrics_dict cols_to_use metric_args
           hooks tables)
}.

(** Scoring that returns the table it was handed, or a table that was not
    there when it was called. *)
Definition scores_own_table : Prop :=
  ∀ data metrics_dict cols_to_use metric_args hooks tables r,
    (Objects.add_metric_cols data metrics_dict cols_to_use metric_args hooks
       tables).2 = Ok r →
    r = data ∨ length tables ≤ r.
End object_contracts.

(** A table that exists in [s'] and did not when the store was [s]. *)
Definition made_since {HookFn : Type} (s s' : Objects.Store HookFn)
    (r : Objects.ref) : Prop :=
  (length (Objects.tables s) ≤ r < length (Objects.tables s'))%nat.

(** Two stores with the same descriptor sets, the later with all the table
    objects of the earlier. *)
Definition keeps_sets {HookFn : Type} (s s' : Objects.Store HookFn) : Prop :=
  same_sets (rich_prompts (Objects.world s)) (rich_prompts (Objects.world s'))
  ∧ (length (Objects.tables s) ≤ length (Objects.tables s'))%nat.

(** A computation that keeps the descriptor sets and the table objects,
    whether it returns or raises. *)
Definition steady {HookFn A : Type} (m : Objects.M HookFn A) : Prop :=
  ∀ s, keeps_sets s (m s).1.

(** A computation that does so when the descriptor set at [cursor] holds
    [rich_prompts_this] as it starts. *)
Definition steady_at {HookFn A : Type} (cursor : nat)
    (rich_prompts_this : list RichPrompt) (m : Objects.M HookFn A) : Prop :=
  ∀ s, items (rich_prompts (Objects.world s)) !! cursor = Some rich_prompts_this →
       keeps_sets s (m s).1.

Section object_rounds.
Context {HookFn MetricsDict Kwargs : Type}.
Context {collaborators : Objects.Collaborators HookFn MetricsDict Kwargs}.

(** The rounds of [Objects.sweep_over_metrics] for the descriptor sets
    [sets], numbered from [index], from the tables [tables] to the tables
    [tables'], with [patched_list] the addresses the rounds append: every
    set is compiled to hook functions, the table at [texts_df] is scored
    under exactly these, which leaves the tables [scored] and returns an
    address among them, and the table at that address is tagged, where it
    is, with the number of the set.  The compiler sees the model as the
    round finds it: with [hooks] in the first round and without any hook in
    the later ones. *)
Fixpoint metric_rounds (texts_df : Objects.ref) (metrics_dict : MetricsDict)
    (metric_args : Kwargs) (hooks : list (ActName * HookFn)) (index : nat)
    (sets : list (list RichPrompt)) (tables : list DataFrame)
    (patched_list : list Objects.ref) (tables' : list DataFrame) : Prop :=
  match sets, patched_list with
  | [], [] => tables' = tables
  | rich_prompts_this :: sets', patched_df :: patched_list' =>
    ∃ hook_fns scored df,
      (Objects.hook_fns_from_rich_prompts rich_prompts_this hooks).2 = Ok hook_fns
      ∧ Objects.add_metric_cols texts_df metrics_dict (Some "text"%string)
          (Some metric_args) hook_fns tables = (scored, Ok patched_df)
      ∧ scored !! patched_df = Some df
      ∧ metric_rounds texts_df metrics_dict metric_args [] (S index) sets'
          (<[patched_df := setitem "rich_prompt_index" (CInt (Z.of_nat index)) df]>
             scored)
          patched_list' tables'
  | _, _ => False
  end.
End object_rounds.

Section object_scoring.
Context {HookFn MetricsDict Kwargs : Type}.
Context (collaborators : Objects.Collaborators HookFn MetricsDict Kwargs).
Local Open Scope nat_scope.

(** Modelled from the spec: the metric capability returns one scored row per
    input.  Scoring under [cols_to_use="text"] that makes a table of its
    own: it returns a table that was not there, which has the rows of the
    table it was handed under the same labels and the column that was
    scored, and leaves the tables that were there as they were. *)
Definition scores_afresh : Prop :=
  ∀ data metrics_dict metric_args hooks tables tables' r df0,
    tables !! data = Some df0 →
    Objects.add_metric_cols data metrics_dict (Some "text"%string) metric_args
      hooks tables = (tables', Ok r) →
    length tables ≤ r
    ∧ (∀ a, a < length tables → tables' !! a = tables !! a)
    ∧ ∃ df, tables' !! r = Some df ∧ scored_frame df0 "text" df.

(** Modelled from the spec: scoring that returns the table it was handed,
    whatever it has written into it: the table still has its rows under
    their labels and the column that was scored. *)
Definition scores_in_place : Prop :=
  ∀ data metrics_dict metric_args hooks tables tables' r df0,
    tables !! data = Some df0 →
    Objects.add_metric_cols data metrics_dict (Some "text"%string) metric_args
      hooks tables = (tables', Ok r) →
    r = data ∧ ∃ df, tables' !! data = Some df ∧ scored_frame df0 "text" df.
End object_scoring.

(** A table with the rows of [data] under their labels and its text, every
    row tagged with [tag]. *)
Definition tagged_copy (data : DataFrame) (tag : nat) (df : DataFrame) : Prop :=
  index_names df = index_names data
  ∧ index df = index data
  ∧ column "text" df = column "text" data
  ∧ column "rich_prompt_index" df
    = Some (replicate (nrows data) (CInt (Z.of_nat tag))).

(** ** Collaborators over objects from collaborators over values *)

Section as_objects.
Context {HookFn MetricsDict Kwargs : Type}.
Context (collaborators : Collaborators HookFn MetricsDict Kwargs).

(** A call that returns a table of its own: the table goes to the end of the
    store. *)
Definition returns_new_table (made : result DataFrame) (tables : list DataFrame)
  : list DataFrame * result Objects.ref :=
  match made with
  | Ok df => (tables ++ [df], Ok (length tables))
  | Raise e => (tables, Raise e)
  end.

(** Collaborators that make a new table with every call, write to no table
    that is there, and leave the descriptor set as they are handed it. *)
Definition as_objects : Objects.Collaborators HookFn MetricsDict Kwargs :=
  {| Objects.gen_using_hooks :=
       λ prompt_batch hook_fns tokens_to_generate seed sampling_kwargs calls,
         returns_new_table
           (gen_using_hooks prompt_batch hook_fns tokens_to_generate seed
              sampling_kwargs calls);
     Objects.gen_using_rich_prompts :=
       λ rich_prompts_this prompt_batch tokens_to_generate seed sampling_kwargs
         calls tables,
         let out :=
           returns_new_table
             (gen_using_rich_prompts rich_prompts_this prompt_batch
                tokens_to_generate seed sampling_kwargs calls) tables in
         (rich_prompts_this, out.1, out.2);
     Objects.hook_fns_from_rich_prompts := λ rich_prompts_this hooks,
       (rich_prompts_this, hook_fns_from_rich_prompts rich_prompts_this hooks);
     Objects.add_metric_cols :=
       λ data metrics_dict cols_to_use metric_args hooks tables,
         match tables !! data with
         | Some df =>
           returns_new_table
             (add_metric_cols df metrics_dict cols_to_use metric_args hooks)
             tables
         | None => (tables, Raise (ExternalError "no such object"))
         end |}.

(** The same collaborators with metrics that write their columns into the
    table they are handed, and return that table. *)
Definition scoring_in_place : Objects.Collaborators HookFn MetricsDict Kwargs :=
  {| Objects.gen_using_hooks :=
       Objects.gen_using_hooks (Collaborators := as_objects);
     Objects.gen_using_rich_prompts :=
       Objects.gen_using_rich_prompts (Collaborators := as_objects);
     Objects.hook_fns_from_rich_prompts :=
       Objects.hook_fns_from_rich_prompts (Collaborators := as_objects);
     Objects.add_metric_cols :=
       λ data metrics_dict cols_to_use metric_args hooks tables,
         match tables !! data with
         | Some df =>
           match add_metric_cols df metrics_dict cols_to_use metric_args hooks with
           | Ok df' => (<[data := df']> tables, Ok data)
           | Raise e => (tables, Raise e)
           end
         | None => (tables, Raise (ExternalError "no such object"))
         end |}.

(** The same collaborators with a hook compiler that sorts the list it is
    handed, here by turning it round. *)
Definition reversing_compiler : Objects.Collaborators HookFn MetricsDict Kwargs :=
  {| Objects.gen_using_hooks :=
       Objects.gen_using_hooks (Collaborators := as_objects);
     Objects.gen_using_rich_prompts :=
       Objects.gen_using_rich_prompts (Collaborators := as_objects);
     Objects.hook_fns_from_rich_prompts := λ rich_prompts_this hooks,
       (reverse rich_prompts_this,
        hook_fns_from_rich_prompts rich_prompts_this hooks);
     Objects.add_metric_cols :=
       Objects.add_metric_cols (Collaborators := as_objects) |}.
End as_objects.

Module ObjectExamples.
Local Open Scope string_scope.

(** The scenario's world and no table yet. *)
Definition scenario_store : Objects.Store string :=
  {| Objects.world := Examples.scenario_world; Objects.tables := [] |}.

(** Two texts in a series with labels of its own. *)
Definition labelled_texts : Texts :=
  TextSeries (Some "id") [(CInt 7, "I think you're"); (CInt 9, "Shrek starts off")].
End ObjectExamples.

(** ** The two embeddings side by side *)

(** A table and an address at which the store holds it. *)
Definition held_at (tables : list DataFrame) (df : DataFrame) (r : Objects.ref)
  : Prop :=
  tables !! r = Some df.

(** A computation over values and a computation over objects that agree
    from the store [s]: they leave the same world, the second leaves the
    tables it found and maybe more, they raise the same exception or return
    results that correspond under [R]. *)
Definition agrees {HookFn A B : Type} (R : list DataFrame → A → B → Prop)
    (m : M HookFn A) (om : Objects.M HookFn B) (s : Objects.Store HookFn) : Prop :=
  ∃ made,
    (om s).1 = {| Objects.world := (m (Objects.world s)).1;
                  Objects.tables := Objects.tables s ++ made |}
    ∧ match (m (Objects.world s)).2 with
      | Ok a => ∃ b, (om s).2 = Ok b ∧ R (Objects.tables s ++ made) a b
      | Raise e => (om s).2 = Raise e
      end.

(** A correspondence that more tables do not undo. *)
Definition lasting {A B : Type} (R : list DataFrame → A → B → Prop) : Prop :=
  ∀ tables made a b, R tables a b → R (tables ++ made) a b.

(** * Properties *)

(** ** The error monad and its loops *)

Lemma for_extend_Forall2 {A B C : Type} (R : B → C → Prop) (h : A → list B)
    (f : A → result (list C)) (l : list A) (zs : list C) :
  (∀ x ys, f x = Ok ys → Forall2 R (h x) ys) →
  for_extend l f = Ok zs → Forall2 R (l ≫= h) zs.
Proof.
  intros Hf. revert zs.
  induction l as [|x l IH]; intros zs; simpl.
  - intros [= <-]. constructor.
  - destruct (f x) as [ys|e] eqn:Hx; [|discriminate]. simpl.
    destruct (for_extend l f) as [zs'|e]; [|discriminate]. simpl.
    intros [= <-]. apply Forall2_app; eauto.
Qed.

Lemma for_extend_ext {A C : Type} (f g : A → result (list C)) (l : list A) :
  (∀ x, f x = g x) → for_extend l f = for_extend l g.
Proof. intros Hfg. induction l as [|x l IH]; simpl; [done|]. by rewrite Hfg, IH. Qed.

Lemma for_extend_total {A C : Type} (f : A → result (list C)) (l : list A) :
  (∀ x, x ∈ l → ∃ ys, f x = Ok ys) → ∃ zs, for_extend l f = Ok zs.
Proof.
  induction l as [|x l IH]; intros Hf; simpl; [eauto|].
  destruct (Hf x) as [ys ->]; [left|].
  destruct IH as [zs ->]; [intros; apply Hf; by right|].
  simpl. eauto.
Qed.

(** A loop whose rounds either succeed or raise [e], and one of which raises,
    raises [e]. *)
Lemma for_extend_raises {A C : Type} (f : A → result (list C)) (l : list A) e :
  (∀ x, x ∈ l → f x = Raise e ∨ ∃ ys, f x = Ok ys) →
  (∃ x, x ∈ l ∧ f x = Raise e) →
  for_extend l f = Raise e.
Proof.
  induction l as [|x l IH]; intros Hall (y & Hy & Hraise).
  - by apply elem_of_nil in Hy.
  - simpl. destruct (Hall x) as [->|[ys Hys]]; [left|done|].
    rewrite Hys. simpl.
    apply elem_of_cons in Hy as [->|Hy]; [congruence|].
    rewrite IH; [done| |eauto]. intros; apply Hall; by right.
Qed.

(** ** [max] and padding *)

Lemma foldl_max_ge (l : list Z) (x : Z) : x ≤ foldl Z.max x l.
Proof.
  revert x. induction l as [|y l IH]; intros x; simpl; [lia|].
  specialize (IH (Z.max x y)). lia.
Qed.

Lemma foldl_max_bound (l : list Z) (x y : Z) : y ∈ l → y ≤ foldl Z.max x l.
Proof.
  revert x. induction l as [|z l IH]; intros x Hy; simpl.
  - by apply elem_of_nil in Hy.
  - apply elem_of_cons in Hy as [->|Hy]; [|by apply IH].
    pose proof (foldl_max_ge l (Z.max x z)). lia.
Qed.

Lemma foldl_max_elem (l : list Z) (x : Z) : foldl Z.max x l ∈ x :: l.
Proof.
  revert x. induction l as [|z l IH]; intros x; simpl; [left|].
  specialize (IH (Z.max x z)).
  apply elem_of_cons in IH as [Heq|Hin]; [|right; by right].
  rewrite Heq. destruct (Z.max_spec x z) as [[_ ->]|[_ ->]]; [right; left|left].
Qed.

Lemma py_max_spec (l : list Z) (m : Z) :
  py_max l = Ok m → m ∈ l ∧ ∀ x, x ∈ l → x ≤ m.
Proof.
  destruct l as [|x l]; simpl; [discriminate|]. intros [= <-]. split.
  - apply foldl_max_elem.
  - intros y [->|Hy]%elem_of_cons; [apply foldl_max_ge|by apply foldl_max_bound].
Qed.

Lemma py_max_total (l : list Z) : l ≠ [] → ∃ m, py_max l = Ok m.
Proof. destruct l; [done|]. simpl. eauto. Qed.

Lemma py_max_const (l : list Z) (m : Z) :
  l ≠ [] → (∀ x, x ∈ l → x = m) → py_max l = Ok m.
Proof.
  intros Hne Hall. destruct (py_max_total l Hne) as [m' Hm'].
  rewrite Hm'. f_equal. apply py_max_spec in Hm' as [Hin _]. auto.
Qed.

Lemma F_pad_right (tokens : list token) (right : Z) (value : token) :
  0 ≤ right → F_pad tokens right value = tokens ++ replicate (Z.to_nat right) value.
Proof. intros H. unfold F_pad. by rewrite (proj2 (Z.leb_le 0 right) H). Qed.

Lemma F_pad_length (tokens : list token) (max_len : Z) (value : token) :
  shape_last tokens ≤ max_len →
  shape_last (F_pad tokens (max_len - shape_last tokens) value) = max_len.
Proof.
  intros H. rewrite F_pad_right by lia. unfold shape_last in *.
  rewrite length_app, length_replicate. lia.
Qed.

Lemma F_pad_zero (tokens : list token) (value : token) :
  F_pad tokens 0 value = tokens.
Proof. rewrite F_pad_right by lia. simpl. apply app_nil_r. Qed.

(** What the padding step returns: every sequence extended on the right
    with the filler up to the maximum length of the list it is in. *)
Lemma pad_tokens_list_spec (pad_token : token) (tokens_list padded : list (list token)) :
  pad_tokens_list pad_token tokens_list = Ok padded →
  ∃ max_len,
    py_max (shape_last <$> tokens_list) = Ok max_len
    ∧ Forall2 (λ tokens tokens',
        tokens' = tokens ++ replicate (Z.to_nat (max_len - shape_last tokens)) pad_token
        ∧ shape_last tokens' = max_len) tokens_list padded.
Proof.
  unfold pad_tokens_list.
  destruct (py_max (shape_last <$> tokens_list)) as [max_len|e] eqn:Hmax;
    [|discriminate].
  simpl. intros [= <-]. exists max_len. split; [done|].
  apply py_max_spec in Hmax as [_ Hle].
  apply Forall2_fmap_r, Forall_Forall2_diag, Forall_forall. intros tokens Hin.
  assert (shape_last tokens ≤ max_len) as Hlen.
  { apply Hle, list_elem_of_fmap. eauto. }
  split; [apply F_pad_right; lia|by apply F_pad_length].
Qed.

(** ** [make_rich_prompts] *)

Lemma Forall2_fmap_zip {A B C : Type} (Q' : A → B → Prop) (P : C → A → Prop)
    (f : A * B → C) (l : list A) (k : list B) :
  Forall2 Q' l k → (∀ x y, Q' x y → P (f (x, y)) x) →
  Forall2 P (f <$> zip l k) l.
Proof. induction 1; intros HP; simpl; constructor; auto. Qed.

Lemma rich_prompts_for_scaled pad model phrases_this act_name coeff rps :
  rich_prompts_for pad model phrases_this act_name coeff = Ok rps →
  Forall2 (scaled_at act_name coeff) rps phrases_this.
Proof.
  unfold rich_prompts_for. destruct pad.
  - destruct model as [model|]; [|discriminate].
    destruct (pad_tokens_list _ _) as [padded|e] eqn:Hpad; [|discriminate].
    simpl. intros [= <-].
    apply pad_tokens_list_spec in Hpad as (max_len & _ & Hall).
    apply Forall2_fmap_l in Hall.
    eapply Forall2_fmap_zip; [exact Hall|].
    by intros [phrase init_coeff] tokens _.
  - intros [= <-]. apply Forall2_fmap_l, Forall_Forall2_diag, Forall_forall.
    by intros [phrase init_coeff] _.
Qed.

Lemma rich_prompts_for_padded model phrases_this act_name coeff rps :
  rich_prompts_for true (Some model) phrases_this act_name coeff = Ok rps →
  ∃ max_len, group_max_len model phrases_this max_len
    ∧ Forall2 (padded_to model max_len) rps phrases_this.
Proof.
  unfold rich_prompts_for.
  destruct (pad_tokens_list _ _) as [padded|e] eqn:Hpad; [|discriminate].
  simpl. intros [= <-].
  apply pad_tokens_list_spec in Hpad as (max_len & Hmax & Hall).
  exists max_len. split.
  - apply py_max_spec in Hmax as [Hin Hle]. split.
    + apply list_elem_of_fmap in Hin as (tokens & -> & Hin').
      apply list_elem_of_fmap in Hin' as ([phrase init_coeff] & -> & Hin''). eauto.
    + intros [phrase init_coeff] Hpi. apply Hle.
      apply list_elem_of_fmap. eexists; split; [done|].
      apply list_elem_of_fmap. by exists (phrase, init_coeff).
  - apply Forall2_fmap_l in Hall.
    eapply Forall2_fmap_zip; [exact Hall|].
    intros [phrase init_coeff] tokens [-> Hlen]. by split.
Qed.

Lemma rich_prompts_for_total_unpadded model phrases_this act_name coeff :
  ∃ rps, rich_prompts_for false model phrases_this act_name coeff = Ok rps.
Proof. unfold rich_prompts_for. eauto. Qed.

Lemma rich_prompts_for_total_padded model phrases_this act_name coeff :
  phrases_this ≠ [] →
  ∃ rps, rich_prompts_for true (Some model) phrases_this act_name coeff = Ok rps.
Proof.
  intros Hne. unfold rich_prompts_for, pad_tokens_list.
  destruct (py_max_total
    (shape_last <$> ((λ '(phrase, _), to_tokens model phrase) <$> phrases_this)))
    as [max_len ->]; [by destruct phrases_this|].
  simpl. eauto.
Qed.

Lemma rich_prompts_for_empty_group model act_name coeff :
  rich_prompts_for true (Some model) [] act_name coeff
  = Raise (ValueError "max() arg is an empty sequence").
Proof. reflexivity. Qed.

(** The only exceptions the innermost loop body can raise. *)
Lemma rich_prompts_for_raises pad model phrases_this act_name coeff e :
  rich_prompts_for pad model phrases_this act_name coeff = Raise e →
  (pad = true ∧ model = None ∧ ∃ msg, e = AttributeError msg)
  ∨ (pad = true ∧ phrases_this = [] ∧ e = ValueError "max() arg is an empty sequence").
Proof.
  unfold rich_prompts_for. destruct pad; [|discriminate].
  destruct model as [model|]; [|intros [= <-]; left; eauto].
  destruct phrases_this as [|pi l]; [intros [= <-]; by right|discriminate].
Qed.

Lemma make_rows_spec phrases act_names coeffs pad model rows :
  make_rows phrases act_names coeffs pad model = Ok rows →
  Forall2 (built_from pad model) (cross_product phrases act_names coeffs) rows.
Proof.
  unfold make_rows, cross_product.
  apply for_extend_Forall2. intros phrases_this rows1.
  apply for_extend_Forall2. intros act_name rows2.
  apply for_extend_Forall2. intros coeff rows3.
  destruct (rich_prompts_for _ _ _ _ _) as [rps|e] eqn:Hrps; [|discriminate].
  simpl. intros [= <-]. by repeat constructor.
Qed.

Lemma length_bind_const {A B : Type} (f : A → list B) (l : list A) (n : nat) :
  (∀ x, length (f x) = n) → length (l ≫= f) = (length l * n)%nat.
Proof.
  intros Hf. induction l as [|x l IH]; [done|].
  rewrite bind_cons, length_app, Hf, IH. simpl. lia.
Qed.

Lemma bind_singleton_fmap {A B : Type} (f : A → B) (l : list A) :
  l ≫= (λ x, [f x]) = f <$> l.
Proof. induction l as [|x l IH]; [done|]. by rewrite bind_cons, IH. Qed.

Lemma cross_product_length phrases act_names coeffs :
  length (cross_product phrases act_names coeffs)
  = (length phrases * length act_names * length coeffs)%nat.
Proof.
  unfold cross_product.
  rewrite (length_bind_const _ phrases (length act_names * length coeffs));
    [lia|].
  intros phrases_this. apply length_bind_const.
  intros act_name. rewrite (length_bind_const _ coeffs 1); [lia|done].
Qed.

Lemma nrows_RangeIndex (n : nat) : length (RangeIndex n) = n.
Proof. unfold RangeIndex. by rewrite length_fmap, length_seq. Qed.

Lemma nrows_pd_DataFrame (rows : list Row) : nrows (pd_DataFrame rows) = length rows.
Proof. destruct rows; [done|]. unfold nrows. simpl index. apply nrows_RangeIndex. Qed.

Lemma make_rich_prompts_rows phrases act_names coeffs pad model df :
  make_rich_prompts phrases act_names coeffs pad model = Ok df →
  ∃ rows, make_rows phrases act_names coeffs pad model = Ok rows
    ∧ df = pd_DataFrame rows.
Proof.
  unfold make_rich_prompts.
  destruct (py_assert _ _); [|discriminate]. simpl.
  destruct (make_rows _ _ _ _ _) as [rows|e]; [|discriminate].
  simpl. intros [= <-]. eauto.
Qed.

Lemma make_rows_total phrases act_names coeffs pad model :
  (∀ phrases_this act_name coeff,
     phrases_this ∈ phrases → act_name ∈ act_names → coeff ∈ coeffs →
     ∃ rps, rich_prompts_for pad model phrases_this act_name coeff = Ok rps) →
  ∃ rows, make_rows phrases act_names coeffs pad model = Ok rows.
Proof.
  intros Hbody. unfold make_rows.
  apply for_extend_total. intros phrases_this Hg.
  apply for_extend_total. intros act_name Hs.
  apply for_extend_total. intros coeff Hc.
  destruct (Hbody phrases_this act_name coeff) as [rps ->]; auto.
  simpl. eauto.
Qed.

Lemma Forall2_elem_r {A B : Type} (P : A → B → Prop) (l : list A) (k : list B) y :
  Forall2 P l k → y ∈ k → ∃ x, x ∈ l ∧ P x y.
Proof.
  induction 1 as [|x y' l k Hxy _ IH]; intros Hy.
  - by apply elem_of_nil in Hy.
  - apply elem_of_cons in Hy as [->|Hy].
    + exists x. split; [left|done].
    + destruct (IH Hy) as (x' & Hx' & HP). exists x'. split; [by right|done].
Qed.

Lemma for_extend_raise_inv {A C : Type} (f : A → result (list C)) (l : list A) e :
  for_extend l f = Raise e → ∃ x, x ∈ l ∧ f x = Raise e.
Proof.
  induction l as [|x l IH]; simpl; [discriminate|].
  destruct (f x) as [ys|e'] eqn:Hx; simpl.
  - destruct (for_extend l f) as [zs|e'']; simpl; [discriminate|].
    intros [= ->]. destruct IH as (y & Hy & Hraise); [done|].
    exists y. split; [by right|done].
  - intros [= ->]. exists x. split; [left|done].
Qed.

Lemma make_rows_raises phrases act_names coeffs pad model e :
  make_rows phrases act_names coeffs pad model = Raise e →
  ∃ phrases_this act_name coeff,
    phrases_this ∈ phrases
    ∧ rich_prompts_for pad model phrases_this act_name coeff = Raise e.
Proof.
  unfold make_rows. intros H.
  apply for_extend_raise_inv in H as (phrases_this & Hg & H).
  apply for_extend_raise_inv in H as (act_name & _ & H).
  apply for_extend_raise_inv in H as (coeff & _ & H).
  exists phrases_this, act_name, coeff. split; [done|].
  revert H. destruct (rich_prompts_for _ _ _ _ _); simpl;
    [discriminate|by intros [= ->]].
Qed.

Lemma make_rows_one_group phrases_this act_names coeffs pad model :
  make_rows [phrases_this] act_names coeffs pad model
  = for_extend act_names (λ act_name,
      for_extend coeffs (λ coeff,
        rich_prompts_this ← rich_prompts_for pad model phrases_this act_name coeff;
        Ok [ {| row_rich_prompts := rich_prompts_this;
                row_phrases := phrases_this;
                row_act_name := act_name;
                row_coeff := coeff |} ])).
Proof.
  unfold make_rows. simpl.
  destruct (for_extend act_names _) as [rows|e]; simpl; [|done].
  by rewrite app_nil_r.
Qed.

(** C1.  Without padding the builder returns for every list of phrase
    groups, sites and outer coefficients; and whenever it returns, with or
    without padding, its table has exactly |groups| x |sites| x |coefficients|
    rows, one per element of the cross product in loop order, and in each row
    every descriptor has the coefficient [base * outer] and the site of that
    element. *)
Theorem make_rich_prompts_cross_product
    (phrases : list (list (string * Q))) (act_names : list ActName) (coeffs : list Q) :
  (∀ model, ∃ df, make_rich_prompts phrases act_names coeffs false model = Ok df)
  ∧ ∀ pad model df,
      make_rich_prompts phrases act_names coeffs pad model = Ok df →
      ∃ rows,
        df = pd_DataFrame rows
        ∧ nrows df = (length phrases * length act_names * length coeffs)%nat
        ∧ length rows = (length phrases * length act_names * length coeffs)%nat
        ∧ provenance <$> rows = cross_product phrases act_names coeffs
        ∧ Forall (λ row,
            Forall2 (scaled_at (row_act_name row) (row_coeff row))
                    (row_rich_prompts row) (row_phrases row)) rows.
Proof.
  split.
  - intros model. unfold make_rich_prompts. simpl.
    destruct (make_rows_total phrases act_names coeffs false model) as [rows ->].
    + intros. apply rich_prompts_for_total_unpadded.
    + simpl. eauto.
  - intros pad model df Hdf.
    apply make_rich_prompts_rows in Hdf as (rows & Hrows & ->).
    apply make_rows_spec in Hrows.
    assert (length rows = (length phrases * length act_names * length coeffs)%nat)
      as Hlen.
    { rewrite <- (Forall2_length _ _ _ Hrows). apply cross_product_length. }
    exists rows. split_and!; [done|by rewrite nrows_pd_DataFrame|done| |].
    + symmetry. apply list_eq_Forall2, Forall2_fmap_r.
      eapply Forall2_impl; [exact Hrows|]. by intros element row [<- _].
    + apply Forall_forall. intros row Hrow.
      destruct (Forall2_elem_r _ _ _ _ Hrows Hrow) as (element & _ & Hprov & Hrps).
      apply rich_prompts_for_scaled in Hrps.
      by rewrite <- Hprov in Hrps.
Qed.

Lemma make_rich_prompts_cross_product_witness :
  ∃ df, make_rich_prompts Examples.scenario_phrases Examples.scenario_act_names
          Examples.scenario_coeffs false None = Ok df
    ∧ ∃ rows,
        df = pd_DataFrame rows
        ∧ nrows df = (1 * 2 * 2)%nat
        ∧ length rows = (1 * 2 * 2)%nat
        ∧ provenance <$> rows
          = cross_product Examples.scenario_phrases Examples.scenario_act_names
              Examples.scenario_coeffs
        ∧ Forall (λ row,
            Forall2 (scaled_at (row_act_name row) (row_coeff row))
                    (row_rich_prompts row) (row_phrases row)) rows.
Proof.
  eexists. split; [reflexivity|].
  apply (proj2 (make_rich_prompts_cross_product Examples.scenario_phrases
                  Examples.scenario_act_names Examples.scenario_coeffs) false None).
  reflexivity.
Defined.

(** C5.  With padding, whenever the builder returns, every row comes from one
    element of the cross product, and the descriptors of the row hold the
    token sequences of the phrases of that row's own group, each extended on
    the right with the filler token to exactly the maximum token count over
    that group.  The rows of a group are those the builder makes for the group
    alone, so no length crosses from one group to another. *)
Theorem make_rich_prompts_pads_each_group (model : HookedTransformer)
    (phrases : list (list (string * Q))) (act_names : list ActName) (coeffs : list Q) :
  (∀ df,
     make_rich_prompts phrases act_names coeffs true (Some model) = Ok df →
     ∃ rows,
       df = pd_DataFrame rows
       ∧ provenance <$> rows = cross_product phrases act_names coeffs
       ∧ Forall (λ row, ∃ max_len,
           group_max_len model (row_phrases row) max_len
           ∧ Forall2 (padded_to model max_len)
                     (row_rich_prompts row) (row_phrases row)) rows)
  ∧ make_rows phrases act_names coeffs true (Some model)
    = for_extend phrases (λ phrases_this,
        make_rows [phrases_this] act_names coeffs true (Some model)).
Proof.
  split.
  - intros df Hdf.
    apply make_rich_prompts_rows in Hdf as (rows & Hrows & ->).
    apply make_rows_spec in Hrows.
    exists rows. split_and!; [done| |].
    + symmetry. apply list_eq_Forall2, Forall2_fmap_r.
      eapply Forall2_impl; [exact Hrows|]. by intros element row [<- _].
    + apply Forall_forall. intros row Hrow.
      destruct (Forall2_elem_r _ _ _ _ Hrows Hrow) as (element & _ & Hprov & Hrps).
      apply rich_prompts_for_padded in Hrps.
      by rewrite <- Hprov in Hrps.
  - unfold make_rows at 1. apply for_extend_ext.
    intros phrases_this. symmetry. apply make_rows_one_group.
Qed.

Lemma make_rich_prompts_pads_each_group_witness :
  ∃ df, make_rich_prompts Examples.anger_calm [ActInt 6] [10%Q] true
          (Some Examples.toy_model) = Ok df
    ∧ ∃ rows,
       df = pd_DataFrame rows
       ∧ provenance <$> rows = cross_product Examples.anger_calm [ActInt 6] [10%Q]
       ∧ Forall (λ row, ∃ max_len,
           group_max_len Examples.toy_model (row_phrases row) max_len
           ∧ Forall2 (padded_to Examples.toy_model max_len)
                     (row_rich_prompts row) (row_phrases row)) rows.
Proof.
  eexists. split; [reflexivity|].
  apply (proj1 (make_rich_prompts_pads_each_group Examples.toy_model
                  Examples.anger_calm [ActInt 6] [10%Q])).
  reflexivity.
Defined.

(** C6.  Padding requested without a model: the builder raises the
    configuration error whatever the phrase groups, sites and coefficients
    are, and this assertion is the only place that raises it, so no part of
    the expansion has run and no table is produced. *)
Theorem make_rich_prompts_pad_requires_model
    (phrases : list (list (string * Q))) (act_names : list ActName) (coeffs : list Q) :
  make_rich_prompts phrases act_names coeffs true None
  = Raise (AssertionError "model must be provided if pad==True")
  ∧ ∀ pad model msg,
      make_rich_prompts phrases act_names coeffs pad model
      = Raise (AssertionError msg) →
      pad = true ∧ model = None.
Proof.
  split; [done|]. intros pad model msg.
  unfold make_rich_prompts.
  destruct pad, model as [model|]; simpl; try done;
    (destruct (make_rows _ _ _ _ _) as [rows|e] eqn:Hrows; simpl; [done|];
     intros [= ->];
     apply make_rows_raises in Hrows as (g & a & c & _ & Hraise);
     apply rich_prompts_for_raises in Hraise
       as [(_ & _ & msg' & [=])|(_ & _ & [=])]).
Qed.

Lemma make_rich_prompts_pad_requires_model_witness :
  make_rich_prompts [[]] [ActInt 0] [1%Q] true None
  = Raise (AssertionError "model must be provided if pad==True")
  ∧ true = true ∧ @None HookedTransformer = None.
Proof.
  split; [reflexivity|].
  apply (proj2 (make_rich_prompts_pad_requires_model [[]] [ActInt 0] [1%Q])
           true None "model must be provided if pad==True").
  reflexivity.
Defined.

(** C7.  The padding step is idempotent: applied to what it returned, it
    returns the same token sequences. *)
Theorem pad_tokens_list_idempotent (pad_token : token)
    (tokens_list padded : list (list token)) :
  pad_tokens_list pad_token tokens_list = Ok padded →
  pad_tokens_list pad_token padded = Ok padded.
Proof.
  intros Hpad.
  apply pad_tokens_list_spec in Hpad as (max_len & Hmax & Hall).
  assert (Forall (λ tokens, shape_last tokens = max_len) padded) as Hlen.
  { apply Forall_forall. intros tokens' Hin.
    by destruct (Forall2_elem_r _ _ _ _ Hall Hin) as (tokens & _ & _ & H). }
  assert (padded ≠ []) as Hne.
  { intros ->. apply Forall2_nil_inv_r in Hall as ->. discriminate. }
  unfold pad_tokens_list.
  rewrite (py_max_const (shape_last <$> padded) max_len).
  - simpl. f_equal. rewrite <- (list_fmap_id padded) at 2.
    apply Forall_fmap_ext.
    eapply Forall_impl; [exact Hlen|]. intros tokens ->.
    rewrite Z.sub_diag. apply F_pad_zero.
  - by destruct padded.
  - intros x (tokens & -> & Hin)%list_elem_of_fmap.
    by apply (proj1 (Forall_forall _ _) Hlen).
Qed.

Lemma pad_tokens_list_idempotent_witness :
  pad_tokens_list 220 [[50256; 7; 220; 220]; [50256; 7; 8; 9]]
  = Ok [[50256; 7; 220; 220]; [50256; 7; 8; 9]].
Proof.
  apply (pad_tokens_list_idempotent 220 [[50256; 7]; [50256; 7; 8; 9]]).
  reflexivity.
Defined.

Lemma make_rich_prompts_padded_assert phrases act_names coeffs model :
  make_rich_prompts phrases act_names coeffs true (Some model)
  = rows ← make_rows phrases act_names coeffs true (Some model);
    Ok (pd_DataFrame rows).
Proof. reflexivity. Qed.

(** C10, as the code has it.  With padding and a model: when some phrase
    group is empty and neither the site list nor the coefficient list is,
    the maximum over that group fails and the builder raises instead of
    returning a table; when every group is non-empty, or there is no site or
    no coefficient, the builder returns a table. *)
Theorem make_rich_prompts_pad_empty_group (model : HookedTransformer)
    (phrases : list (list (string * Q))) (act_names : list ActName) (coeffs : list Q) :
  ([] ∈ phrases → act_names ≠ [] → coeffs ≠ [] →
   make_rich_prompts phrases act_names coeffs true (Some model)
   = Raise (ValueError "max() arg is an empty sequence"))
  ∧ (Forall (λ phrases_this, phrases_this ≠ []) phrases
     ∨ act_names = [] ∨ coeffs = [] →
     ∃ df, make_rich_prompts phrases act_names coeffs true (Some model) = Ok df).
Proof.
  split.
  - intros Hin Hsites Hcoeffs. rewrite make_rich_prompts_padded_assert.
    unfold make_rows.
    rewrite (for_extend_raises _ phrases (ValueError "max() arg is an empty sequence"));
      [done| |].
    + intros phrases_this _. destruct phrases_this as [|pi l].
      * left. destruct act_names as [|a sites]; [done|].
        destruct coeffs as [|c cs]; [done|]. reflexivity.
      * right. apply for_extend_total. intros act_name _.
        apply for_extend_total. intros coeff _.
        destruct (rich_prompts_for_total_padded model (pi :: l) act_name coeff)
          as [rps ->]; [done|]. simpl. eauto.
    + exists []. split; [done|].
      destruct act_names as [|a sites]; [done|].
      destruct coeffs as [|c cs]; [done|]. reflexivity.
  - intros Hcase. rewrite make_rich_prompts_padded_assert.
    destruct (make_rows_total phrases act_names coeffs true (Some model))
      as [rows ->]; [|simpl; eauto].
    intros phrases_this act_name coeff Hg Hs Hc.
    destruct Hcase as [Hne|[->| ->]].
    + apply rich_prompts_for_total_padded.
      by apply (proj1 (Forall_forall _ _) Hne).
    + by apply elem_of_nil in Hs.
    + by apply elem_of_nil in Hc.
Qed.

Lemma make_rich_prompts_pad_empty_group_witness :
  make_rich_prompts [[("A"%string, 1%Q)]; []] [ActInt 0] [1%Q] true
    (Some Examples.toy_model)
  = Raise (ValueError "max() arg is an empty sequence")
  ∧ ∃ df, make_rich_prompts Examples.anger_calm [ActInt 0] [1%Q] true
            (Some Examples.toy_model) = Ok df.
Proof.
  split.
  - apply (proj1 (make_rich_prompts_pad_empty_group Examples.toy_model
                    [[("A"%string, 1%Q)]; []] [ActInt 0] [1%Q])).
    + right. left.
    + discriminate.
    + discriminate.
  - apply (proj2 (make_rich_prompts_pad_empty_group Examples.toy_model
                    Examples.anger_calm [ActInt 0] [1%Q])).
    left. repeat constructor; discriminate.
Defined.

(** An input with an empty phrase group and padding requested for which the
    builder does return a table: there is no site to expand over, so the
    maximum is never computed. *)
Lemma make_rich_prompts_pad_empty_group_counterexample :
  [] ∈ [[] : list (string * Q)]
  ∧ make_rich_prompts [[]] [] [1%Q] true (Some Examples.toy_model)
    = Ok {| index_names := [None]; index := []; columns := [] |}.
Proof. split; [left|reflexivity]. Qed.

(** ** Columns of tables *)

Lemma elem_of_first_appearance (name : string) (names : list string) :
  name ∈ first_appearance names ↔ name ∈ names.
Proof.
  induction names as [|n names IH]; [done|]. simpl.
  rewrite !elem_of_cons, list_elem_of_filter, IH. split.
  - intros [->|[_ Hin]]; [by left|by right].
  - intros [->|Hin]; [by left|].
    destruct (decide (name = n)) as [->|Hne]; [by left|by right].
Qed.

Lemma assoc_set_assoc_eq {A : Type} (name : string) (c : A) cols :
  assoc name (set_assoc name c cols) = Some c.
Proof.
  induction cols as [|[n c'] cols IH]; simpl.
  - by rewrite String.eqb_refl.
  - destruct (String.eqb n name) eqn:Hn; simpl; by rewrite Hn.
Qed.

Lemma assoc_set_assoc_ne {A : Type} (name name' : string) (c : A) cols :
  name' ≠ name → assoc name' (set_assoc name c cols) = assoc name' cols.
Proof.
  intros Hne. induction cols as [|[n c'] cols IH]; simpl.
  - by rewrite (proj2 (String.eqb_neq name name')).
  - destruct (String.eqb n name) eqn:Hn; simpl.
    + apply String.eqb_eq in Hn as ->.
      by rewrite (proj2 (String.eqb_neq name name')).
    + by rewrite IH.
Qed.

Lemma set_assoc_names {A : Type} (name name' : string) (c : A) cols :
  name' ∈ (set_assoc name c cols).*1 ↔ name' = name ∨ name' ∈ cols.*1.
Proof.
  induction cols as [|[n c'] cols IH]; simpl.
  - rewrite list_elem_of_singleton. rewrite elem_of_nil. tauto.
  - destruct (String.eqb n name) eqn:Hn; simpl.
    + apply String.eqb_eq in Hn as ->. rewrite !elem_of_cons. tauto.
    + rewrite !elem_of_cons, IH. tauto.
Qed.

Lemma assoc_None {A : Type} (name : string) (cols : list (string * A)) :
  assoc name cols = None ↔ name ∉ cols.*1.
Proof.
  induction cols as [|[n c] cols IH]; simpl.
  - split; [intros _; apply not_elem_of_nil|done].
  - rewrite not_elem_of_cons. destruct (String.eqb n name) eqn:Hn.
    + apply String.eqb_eq in Hn as ->. split; [done|]. by intros [? _].
    + apply String.eqb_neq in Hn. rewrite IH. split; [|tauto].
      intros H. split; [congruence|done].
Qed.

Lemma assoc_Some_elem {A : Type} (name : string) (cols : list (string * A)) c :
  assoc name cols = Some c → name ∈ cols.*1.
Proof.
  intros H. destruct (decide (name ∈ cols.*1)) as [|Hn]; [done|].
  apply assoc_None in Hn. congruence.
Qed.

Lemma assoc_fmap_names {A : Type} (f : string → A) (names : list string) name :
  assoc name ((λ n, (n, f n)) <$> names)
  = if decide (name ∈ names) then Some (f name) else None.
Proof.
  induction names as [|n names IH]; [reflexivity|]. cbn [fmap list_fmap assoc].
  destruct (String.eqb n name) eqn:Hn.
  - apply String.eqb_eq in Hn as ->. by rewrite decide_True by left.
  - apply String.eqb_neq in Hn. rewrite IH.
    destruct (decide (name ∈ names)) as [Hin|Hin].
    + by rewrite decide_True by by right.
    + rewrite decide_False; [done|]. rewrite not_elem_of_cons. split; congruence.
Qed.

Lemma column_setitem_eq name value df :
  column name (setitem name value df) = Some (replicate (nrows df) value).
Proof. apply assoc_set_assoc_eq. Qed.

Lemma column_setitem_ne name name' value df :
  name' ≠ name → column name' (setitem name value df) = column name' df.
Proof. apply assoc_set_assoc_ne. Qed.

Lemma column_names_setitem name name' value df :
  name' ∈ column_names (setitem name value df)
  ↔ name' = name ∨ name' ∈ column_names df.
Proof. apply set_assoc_names. Qed.

Lemma column_Some_elem name df cells :
  column name df = Some cells → name ∈ column_names df.
Proof. apply assoc_Some_elem. Qed.

Lemma fmap_fst_names {A : Type} (f : string → A) (names : list string) :
  ((λ n, (n, f n)) <$> names).*1 = names.
Proof.
  rewrite <- list_fmap_compose. rewrite <- (list_fmap_id names) at 2.
  by apply list_fmap_ext.
Qed.

Lemma concat_column_cons df dfs name :
  concat_column (df :: dfs) name
  = default (replicate (nrows df) CNaN) (column name df) ++ concat_column dfs name.
Proof. reflexivity. Qed.

Lemma concat_column_app dfs1 dfs2 name :
  concat_column (dfs1 ++ dfs2) name
  = concat_column dfs1 name ++ concat_column dfs2 name.
Proof. unfold concat_column. apply bind_app. Qed.

(** [reset_index(names=name)] on a table with a single-level index and no
    column [name]. *)
Lemma reset_index_single (name : string) (df : DataFrame) :
  length (index_names df) = 1%nat → name ∉ column_names df →
  reset_index (Some [name]) df
  = Ok {| index_names := [None];
          index := RangeIndex (nrows df);
          columns := (name, index_level 0 df) :: columns df |}.
Proof.
  intros Hlevels Hfresh. unfold reset_index. rewrite Hlevels. simpl.
  unfold column_names in Hfresh. by rewrite bool_decide_false.
Qed.

Lemma pd_concat_cons (df0 : DataFrame) (frames : list DataFrame) :
  ∃ names,
    length names = length (index_names df0)
    ∧ pd_concat (df0 :: frames)
      = Ok {| index_names := names;
              index := (df0 :: frames) ≫= index;
              columns :=
                (λ name, (name, concat_column (df0 :: frames) name))
                  <$> first_appearance ((df0 :: frames) ≫= column_names) |}.
Proof.
  eexists. split; [|reflexivity].
  destruct (forallb _ _); [done|apply length_replicate].
Qed.

(** [pd.concat(frames).reset_index(names=name)] on tables that have a
    single-level index and no column [name]: the rows are those of the
    tables one after the other, [name] holds their former labels, and every
    other column is the concatenation of that column of the tables. *)
Lemma concat_reset_index (name : string) (frames : list DataFrame) :
  frames ≠ [] →
  Forall (λ df, index_names df = [None] ∧ name ∉ column_names df) frames →
  ∃ all,
    pd_concat frames ≫= reset_index (Some [name]) = Ok all
    ∧ nrows all = length (frames ≫= index)
    ∧ column_names all = name :: first_appearance (frames ≫= column_names)
    ∧ ∀ name', name' ≠ name →
        column name' all
        = if decide (name' ∈ frames ≫= column_names)
          then Some (concat_column frames name') else None.
Proof.
  intros Hne Hall. destruct frames as [|df0 frames]; [done|]. clear Hne.
  assert (name ∉ first_appearance ((df0 :: frames) ≫= column_names)) as Hfresh.
  { rewrite elem_of_first_appearance, list_elem_of_bind.
    intros (df & Hdf & Hin).
    by apply (proj1 (Forall_forall _ _) Hall df) in Hin as [_ Hno]. }
  assert (index_names df0 = [None]) as Hnames.
  { by apply Forall_cons in Hall as [[? _] _]. }
  destruct (pd_concat_cons df0 frames) as (names & Hlen & ->).
  rewrite Hnames in Hlen.
  eexists. split_and!.
  - unfold mbind at 1, result_bind. apply reset_index_single; [done|].
    unfold column_names. simpl columns. by rewrite fmap_fst_names.
  - unfold nrows. simpl. by rewrite nrows_RangeIndex.
  - unfold column_names. simpl. by rewrite fmap_fst_names.
  - intros name' Hne. unfold column. simpl.
    rewrite (proj2 (String.eqb_neq name name')) by done.
    rewrite assoc_fmap_names.
    destruct (decide (name' ∈ first_appearance _)) as [Hin|Hin];
      rewrite elem_of_first_appearance in Hin.
    + by rewrite decide_True.
    + by rewrite decide_False.
Qed.

Lemma nrows_concat (n : nat) (frames : list DataFrame) :
  Forall (λ df, nrows df = n) frames →
  length (frames ≫= index) = (length frames * n)%nat.
Proof.
  induction 1 as [|df frames Hdf _ IH]; [done|].
  rewrite bind_cons, length_app, IH. unfold nrows in Hdf. simpl. lia.
Qed.

(** ** The state monad and its loops *)

Section sweep_properties.
Context {HookFn MetricsDict Kwargs : Type}.
Context `{!Collaborators HookFn MetricsDict Kwargs}.

Implicit Types w : World HookFn.

Lemma bind_run {A B : Type} (m : M HookFn A) (f : A → M HookFn B) w :
  (m ≫= f) w
  = match m w with
    | (w', Ok a) => f a w'
    | (w', Raise e) => (w', Raise e)
    end.
Proof. reflexivity. Qed.

Lemma same_sets_refl (it : Iterable) : same_sets it it.
Proof. by destruct it. Qed.

Lemma same_sets_trans (it1 it2 it3 : Iterable) :
  same_sets it1 it2 → same_sets it2 it3 → same_sets it1 it3.
Proof. destruct it1, it2, it3; simpl; (congruence || tauto). Qed.

Lemma same_sets_advance (cursor : nat) (it : Iterable) :
  same_sets it (advance cursor it).
Proof. by destruct it. Qed.

Lemma same_sets_items (it it' : Iterable) : same_sets it it' → items it' = items it.
Proof. destruct it, it'; simpl; (congruence || tauto). Qed.

(** ** The hooks of the model in [sweep_over_metrics] *)

Lemma for_each_add_hook (hook_fns : list (ActName * HookFn)) w :
  for_each hook_fns (λ '(act_name, hook_fn), add_hook act_name hook_fn) w
  = (with_hooks (model_hooks w ++ hook_fns) w, Ok tt).
Proof.
  revert w. induction hook_fns as [|[a h] hook_fns IH]; intros w; simpl.
  - unfold with_hooks. rewrite app_nil_r. by destruct w.
  - rewrite bind_run. simpl. rewrite IH. unfold with_hooks. simpl.
    by rewrite <- app_assoc.
Qed.

(** One round, spelled out: the hooks are compiled first, installed on a
    cleared model, and cleared again only once the metrics have returned. *)
Lemma metrics_round_run texts_df metrics_dict metric_args index rps w :
  metrics_round texts_df metrics_dict metric_args index rps w
  = match hook_fns_from_rich_prompts rps (model_hooks w) with
    | Raise e => (w, Raise e)
    | Ok hook_fns =>
      match add_metric_cols texts_df metrics_dict (Some "text"%string)
              (Some metric_args) hook_fns with
      | Raise e => (with_hooks hook_fns w, Raise e)
      | Ok patched_df =>
        (with_hooks [] w,
         Ok (setitem "rich_prompt_index" (CInt (Z.of_nat index)) patched_df))
      end
    end.
Proof.
  unfold metrics_round. rewrite bind_run.
  unfold call_hook_fns_from_rich_prompts.
  destruct (hook_fns_from_rich_prompts rps (model_hooks w)) as [hook_fns|e]; [|done].
  rewrite bind_run. simpl. rewrite bind_run, for_each_add_hook. simpl.
  rewrite bind_run. unfold call_add_metric_cols, with_hooks. simpl.
  by destruct (add_metric_cols _ _ _ _ _).
Qed.

Lemma enumerate_from_hooks {A : Type} (rounds index cursor : nat)
    (body : nat → list RichPrompt → M HookFn A) w w' ys :
  (∀ i x w1 w2 y, body i x w1 = (w2, Ok y) → model_hooks w2 = []) →
  enumerate_from rounds index cursor body w = (w', Ok ys) →
  match ys with
  | [] => model_hooks w' = model_hooks w
  | _ :: _ => model_hooks w' = []
  end.
Proof.
  intros Hbody. revert index cursor w ys.
  induction rounds as [|rounds IH]; intros index cursor w ys; simpl.
  - by intros [= <- <-].
  - destruct (items (rich_prompts w) !! cursor) as [x|]; [|by intros [= <- <-]].
    rewrite bind_run.
    destruct (body index x _) as [w1 [y|e]] eqn:Hround; [|done].
    apply Hbody in Hround. rewrite bind_run.
    destruct (enumerate_from rounds (S index) (S cursor) body w1)
      as [w2 [ys'|e]] eqn:Hrest; [|done].
    intros [= <- <-]. apply IH in Hrest.
    destruct ys'; congruence.
Qed.

(** C2, as the code has it.  A round of [sweep_over_metrics] whose scoring
    call returns leaves the model without hooks, and so does a sweep that
    returns; an error raised by the scoring call is passed on unchanged. *)
Theorem sweep_over_metrics_clears_hooks w :
  (∀ texts_df metrics_dict metric_args index rich_prompts_this w' patched_df,
     metrics_round texts_df metrics_dict metric_args index rich_prompts_this w
     = (w', Ok patched_df) →
     model_hooks w' = [])
  ∧ (∀ texts metrics_dict metric_args w' patched_all,
     sweep_over_metrics texts metrics_dict metric_args w = (w', Ok patched_all) →
     model_hooks w' = [])
  ∧ (∀ texts_df metrics_dict metric_args index rich_prompts_this hook_fns e,
     hook_fns_from_rich_prompts rich_prompts_this (model_hooks w) = Ok hook_fns →
     add_metric_cols texts_df metrics_dict (Some "text"%string) (Some metric_args)
       hook_fns = Raise e →
     (metrics_round texts_df metrics_dict metric_args index rich_prompts_this w).2
     = Raise e).
Proof.
  assert (∀ texts_df metrics_dict metric_args index rps w1 w2 df,
            metrics_round texts_df metrics_dict metric_args index rps w1
            = (w2, Ok df) → model_hooks w2 = []) as Hround.
  { intros texts_df metrics_dict metric_args index rps w1 w2 df.
    rewrite metrics_round_run.
    destruct (hook_fns_from_rich_prompts _ _); [|done].
    destruct (add_metric_cols _ _ _ _ _); [|done].
    by intros [= <- _]. }
  split_and!.
  - intros texts_df metrics_dict metric_args index rps w' df. apply Hround.
  - intros texts metrics_dict metric_args w' patched_all.
    unfold sweep_over_metrics. rewrite bind_run.
    destruct (for_enumerate _ w) as [w1 [frames|e]] eqn:Hloop; [|done].
    unfold lift. intros [= <- Hconcat].
    apply enumerate_from_hooks in Hloop; [|intros i x; apply Hround].
    destruct frames; [discriminate Hconcat|done].
  - intros texts_df metrics_dict metric_args index rps hook_fns e Hhooks Hmetric.
    by rewrite metrics_round_run, Hhooks, Hmetric.
Qed.
End sweep_properties.

Lemma sweep_over_metrics_clears_hooks_witness :
  let run :=
    sweep_over_metrics (Collaborators0 := Examples.toy_collaborators)
      (TextList ["some text"%string]) ["n_hooks"%string] tt Examples.scenario_world in
  (∃ patched_all, run.2 = Ok patched_all) ∧ model_hooks run.1 = [].
Proof.
  intros run. split; [eexists; vm_compute; reflexivity|].
  eapply (proj1 (proj2 (sweep_over_metrics_clears_hooks
                          (Collaborators0 := Examples.toy_collaborators)
                          Examples.scenario_world))
            (TextList ["some text"%string]) ["n_hooks"%string] tt).
  vm_compute. reflexivity.
Defined.

(** A sweep whose metric raises: the error reaches the caller while the
    hooks of the first descriptor set are still on the model. *)
Lemma sweep_over_metrics_clears_hooks_counterexample :
  let run :=
    sweep_over_metrics (Collaborators0 := Examples.failing_metric)
      (TextList ["some text"%string]) ["n_hooks"%string] tt Examples.scenario_world in
  run.2 = Raise (ExternalError "CUDA out of memory")
  ∧ model_hooks run.1 = [(ActInt 0, "A"%string); (ActInt 0, "B"%string)]
  ∧ model_hooks run.1 ≠ [].
Proof. intros run. split_and!; vm_compute; (reflexivity || discriminate). Qed.

(** ** The loops of [sweep_over_prompts] when generation keeps its contract *)

Section completion_sweep.
Context {HookFn MetricsDict Kwargs : Type}.
Context `{!Collaborators HookFn MetricsDict Kwargs}.
Context `{!GenerationContract Collaborators0}.
Variables num_normal_completions num_patched_completions tokens_to_generate : nat.
Variable seed : option Z.
Variable sampling_kwargs : Kwargs.

Implicit Types w : World HookFn.

Local Abbreviation patched_body prompt :=
  (λ (index : nat) (rich_prompts_this : list RichPrompt),
     patched_df ←
       call_gen_using_rich_prompts rich_prompts_this
         (replicate num_patched_completions prompt)
         tokens_to_generate seed sampling_kwargs;
     mret (setitem "rich_prompt_index" (CInt (Z.of_nat index)) patched_df)).

Lemma patched_body_run prompt index rich_prompts_this w :
  ∃ df,
    (patched_df ←
       call_gen_using_rich_prompts rich_prompts_this
         (replicate num_patched_completions prompt)
         tokens_to_generate seed sampling_kwargs;
     mret (setitem "rich_prompt_index" (CInt (Z.of_nat index)) patched_df)) w
    = ({| model_hooks := model_hooks w; rich_prompts := rich_prompts w;
          gen_calls := S (gen_calls w) |}, Ok df)
    ∧ patched_frame num_patched_completions tokens_to_generate seed
        sampling_kwargs prompt index rich_prompts_this df.
Proof.
  destruct (gen_using_rich_prompts_frame rich_prompts_this
              (replicate num_patched_completions prompt) tokens_to_generate seed
              sampling_kwargs (gen_calls w)) as (df0 & Hgen & Hframe).
  eexists. split.
  - rewrite bind_run. unfold call_gen_using_rich_prompts. rewrite Hgen. reflexivity.
  - exists (gen_calls w), df0. done.
Qed.

Lemma enumerate_from_contract prompt sets rounds index cursor w :
  rich_prompts w = Sequence sets ∨ rich_prompts w = Iterator sets cursor →
  rounds = (length sets - cursor)%nat →
  ∃ w' frames,
    enumerate_from rounds index cursor (patched_body prompt) w = (w', Ok frames)
    ∧ patched_frames num_patched_completions tokens_to_generate seed
        sampling_kwargs prompt index (drop cursor sets) frames
    ∧ model_hooks w' = model_hooks w
    ∧ rich_prompts w'
      = match rich_prompts w with
        | Sequence _ => Sequence sets
        | Iterator _ _ => Iterator sets (cursor + rounds)
        end.
Proof.
  revert index cursor w.
  induction rounds as [|rounds IH]; intros index cursor w Hrp Hrounds.
  - exists w, []. rewrite drop_ge by lia. split_and!; [done..|].
    destruct Hrp as [-> | ->]; [done|]. by rewrite Nat.add_0_r.
  - assert (items (rich_prompts w) = sets) as Hitems.
    { by destruct Hrp as [-> | ->]. }
    destruct (lookup_lt_is_Some_2 sets cursor) as [x Hx]; [lia|].
    cbn [enumerate_from]. rewrite Hitems, Hx.
    set (w1 := {| model_hooks := model_hooks w;
                  rich_prompts := advance cursor (rich_prompts w);
                  gen_calls := gen_calls w |}).
    rewrite bind_run.
    destruct (patched_body_run prompt index x w1) as (df & -> & Hdf).
    rewrite bind_run.
    match goal with
    | |- context [enumerate_from rounds (S index) (S cursor) _ ?w2] =>
      destruct (IH (S index) (S cursor) w2) as (w' & frames & -> & Hframes & Hhooks & Hrp')
    end.
    { subst w1. cbn [rich_prompts]. destruct Hrp as [-> | ->]; [by left|by right]. }
    { lia. }
    exists w', (df :: frames). subst w1. cbn [model_hooks rich_prompts] in *.
    split_and!.
    + done.
    + rewrite (drop_S _ _ _ Hx). by split.
    + done.
    + rewrite Hrp'.
      destruct Hrp as [-> | ->]; simpl; [done|]. f_equal. lia.
Qed.

Lemma for_enumerate_contract prompt w :
  ∃ w' frames,
    for_enumerate (patched_body prompt) w = (w', Ok frames)
    ∧ patched_frames num_patched_completions tokens_to_generate seed
        sampling_kwargs prompt 0 (remaining (rich_prompts w)) frames
    ∧ model_hooks w' = model_hooks w
    ∧ rich_prompts w' = after_loop (rich_prompts w).
Proof.
  unfold for_enumerate, remaining.
  destruct (enumerate_from_contract prompt (items (rich_prompts w))
              (length (items (rich_prompts w)) - iter_start (rich_prompts w)) 0
              (iter_start (rich_prompts w)) w)
    as (w' & frames & Hrun & Hframes & Hhooks & Hrp); [|done|].
  { destruct (rich_prompts w); [by left|by right]. }
  exists w', frames. split_and!; [done..|].
  rewrite Hrp. destruct (rich_prompts w) as [l|l pos]; simpl; [done|].
  f_equal. lia.
Qed.

Lemma after_loop_idemp (it : Iterable) : after_loop (after_loop it) = after_loop it.
Proof. destruct it as [l|l pos]; simpl; [done|]. f_equal. lia. Qed.

Lemma remaining_after_loop_Iterator l pos : remaining (after_loop (Iterator l pos)) = [].
Proof. unfold remaining. simpl. apply drop_ge. lia. Qed.

Lemma remaining_fresh_Iterator l : remaining (Iterator l 0) = l.
Proof. reflexivity. Qed.

Lemma remaining_Sequence l : remaining (Sequence l) = l.
Proof. reflexivity. Qed.

(** One round of the loop over the prompts. *)
Lemma prompt_round_run prompt w :
  ∃ w' tables,
    (normal_df ←
       call_gen_using_hooks (replicate num_normal_completions prompt) []
         tokens_to_generate seed sampling_kwargs;
     patched ← for_enumerate (patched_body prompt);
     mret (normal_df, patched)) w = (w', Ok tables)
    ∧ prompt_round num_normal_completions num_patched_completions
        tokens_to_generate seed sampling_kwargs (remaining (rich_prompts w))
        prompt tables
    ∧ model_hooks w' = model_hooks w
    ∧ rich_prompts w' = after_loop (rich_prompts w).
Proof.
  destruct (gen_using_hooks_frame (replicate num_normal_completions prompt) []
              tokens_to_generate seed sampling_kwargs (gen_calls w))
    as (normal_df & Hgen & Hframe).
  rewrite bind_run. unfold call_gen_using_hooks. rewrite Hgen.
  rewrite bind_run.
  match goal with
  | |- context [for_enumerate _ ?w1] =>
    destruct (for_enumerate_contract prompt w1)
      as (w' & frames & -> & Hframes & Hhooks & Hrp)
  end.
  exists w', (normal_df, frames). split_and!; [done| |done..].
  split; [|done]. exists (gen_calls w). done.
Qed.

(** The loop over the prompts on an iterable that a loop leaves as it is: a
    sequence, or an iterator that is used up. *)
Lemma completion_lists_stable prompts w :
  after_loop (rich_prompts w) = rich_prompts w →
  ∃ w' lists,
    completion_lists prompts num_normal_completions num_patched_completions
      tokens_to_generate seed sampling_kwargs w = (w', Ok lists)
    ∧ Forall2 (prompt_round num_normal_completions num_patched_completions
                 tokens_to_generate seed sampling_kwargs
                 (remaining (rich_prompts w))) prompts lists
    ∧ model_hooks w' = model_hooks w
    ∧ rich_prompts w' = rich_prompts w.
Proof.
  revert w. induction prompts as [|prompt prompts IH]; intros w Hstable.
  - exists w, []. by split_and!.
  - unfold completion_lists. cbn [for_append]. rewrite bind_run.
    destruct (prompt_round_run prompt w) as (w1 & tables & -> & Hround & Hhooks & Hrp).
    rewrite Hstable in Hrp.
    destruct (IH w1) as (w' & lists & Hrun & Hrounds & Hhooks' & Hrp');
      [by rewrite Hrp|].
    unfold completion_lists in Hrun. rewrite bind_run, Hrun.
    exists w', (tables :: lists). split_and!; [done| |congruence..].
    constructor; [done|]. by rewrite Hrp in Hrounds.
Qed.

(** The loop over the prompts on any iterable: the first prompt is handed
    what the iterable has left, every later prompt what it has left after a
    full loop. *)
Lemma completion_lists_first prompt prompts w :
  ∃ w' first rest,
    completion_lists (prompt :: prompts) num_normal_completions
      num_patched_completions tokens_to_generate seed sampling_kwargs w
    = (w', Ok (first :: rest))
    ∧ prompt_round num_normal_completions num_patched_completions
        tokens_to_generate seed sampling_kwargs
        (remaining (rich_prompts w)) prompt first
    ∧ Forall2 (prompt_round num_normal_completions num_patched_completions
                 tokens_to_generate seed sampling_kwargs
                 (remaining (after_loop (rich_prompts w)))) prompts rest
    ∧ model_hooks w' = model_hooks w
    ∧ rich_prompts w' = after_loop (rich_prompts w).
Proof.
  unfold completion_lists. cbn [for_append]. rewrite bind_run.
  destruct (prompt_round_run prompt w) as (w1 & tables & -> & Hround & Hhooks & Hrp).
  destruct (completion_lists_stable prompts w1) as (w' & lists & Hrun & Hrounds & Hhooks' & Hrp').
  { rewrite Hrp. apply after_loop_idemp. }
  unfold completion_lists in Hrun. rewrite bind_run, Hrun.
  exists w', tables, lists. split_and!; [done..| |congruence|congruence].
  by rewrite Hrp in Hrounds.
Qed.
End completion_sweep.

(** ** The tables a completion sweep returns *)

Lemma concat_column_Forall2 {A : Type} (f : A → list cell) (name : string)
    (xs : list A) (frames : list DataFrame) :
  Forall2 (λ x df, column name df = Some (f x)) xs frames →
  concat_column frames name = xs ≫= f.
Proof.
  induction 1 as [|x df xs frames Hdf _ IH]; [done|].
  by rewrite concat_column_cons, Hdf, IH, bind_cons.
Qed.

Lemma column_in_frames (name : string) (frames : list DataFrame) :
  frames ≠ [] →
  Forall (λ df, is_Some (column name df)) frames →
  name ∈ frames ≫= column_names.
Proof.
  destruct frames as [|df frames]; [done|]. intros _ Hall.
  apply Forall_cons in Hall as [[cells Hcells] _].
  rewrite bind_cons, elem_of_app. left. by eapply column_Some_elem.
Qed.

Lemma rows_of_prompt_concat (n : nat) (prompts : list string)
    (frames : list DataFrame) :
  prompts ≠ [] →
  Forall2 (rows_of_prompt n) prompts frames →
  ∃ all,
    pd_concat frames ≫= reset_index (Some ["completion_index"%string]) = Ok all
    ∧ nrows all = (length prompts * n)%nat
    ∧ column "prompts" all = Some (blocks n CStr prompts)
    ∧ ∀ name, name ≠ "completion_index"%string →
        column name all
        = if decide (name ∈ frames ≫= column_names)
          then Some (concat_column frames name) else None.
Proof.
  intros Hne Hall.
  assert (frames ≠ []) as Hframes.
  { intros ->. by apply Forall2_nil_inv_r in Hall. }
  destruct (concat_reset_index "completion_index" frames Hframes)
    as (all & Hrun & Hrows & Hnames & Hcols).
  { apply Forall_forall. intros df Hdf.
    destruct (Forall2_elem_r _ _ _ _ Hall Hdf) as (p & _ & H1 & H2 & _). done. }
  exists all. split_and!; [done| | |done].
  - rewrite Hrows, (nrows_concat n).
    + by rewrite (Forall2_length _ _ _ Hall).
    + apply Forall_forall. intros df Hdf.
      by destruct (Forall2_elem_r _ _ _ _ Hall Hdf) as (p & _ & _ & _ & H3 & _).
  - rewrite Hcols by done. rewrite decide_True.
    + f_equal. apply concat_column_Forall2.
      eapply Forall2_impl; [exact Hall|]. by intros p df (_ & _ & _ & H4).
    + apply column_in_frames; [done|]. apply Forall_forall. intros df Hdf.
      destruct (Forall2_elem_r _ _ _ _ Hall Hdf) as (p & _ & _ & _ & _ & H4).
      by rewrite H4.
Qed.

Lemma rows_of_pair_concat (n : nat) (pairs : list (string * nat))
    (frames : list DataFrame) :
  pairs ≠ [] →
  Forall2 (rows_of_pair n) pairs frames →
  ∃ all,
    pd_concat frames ≫= reset_index (Some ["completion_index"%string]) = Ok all
    ∧ nrows all = (length pairs * n)%nat
    ∧ column "prompts" all = Some (blocks n (λ pair, CStr pair.1) pairs)
    ∧ column "rich_prompt_index" all
      = Some (blocks n (λ pair, CInt (Z.of_nat pair.2)) pairs).
Proof.
  intros Hne Hall.
  assert (frames ≠ []) as Hframes.
  { intros ->. by apply Forall2_nil_inv_r in Hall. }
  destruct (rows_of_prompt_concat n pairs.*1 frames)
    as (all & Hrun & Hrows & Hprompts & Hcols).
  { by destruct pairs. }
  { apply Forall2_fmap_l. eapply Forall2_impl; [exact Hall|]. by intros pair df [H _]. }
  exists all. split_and!; [done| | |].
  - by rewrite Hrows, length_fmap.
  - rewrite Hprompts. f_equal. unfold blocks.
    clear. induction pairs as [|pair pairs IH]; [done|].
    by rewrite fmap_cons, !bind_cons, IH.
  - rewrite Hcols by done. rewrite decide_True.
    + f_equal. unfold blocks. apply concat_column_Forall2.
      eapply Forall2_impl; [exact Hall|]. by intros pair df [_ H].
    + apply column_in_frames; [done|]. apply Forall_forall. intros df Hdf.
      destruct (Forall2_elem_r _ _ _ _ Hall Hdf) as (pair & _ & _ & H).
      by rewrite H.
Qed.

Lemma completion_frame_nrows prompt_batch df :
  completion_frame prompt_batch df → nrows df = length prompt_batch.
Proof. intros (_ & Hindex & _). unfold nrows. by rewrite Hindex, nrows_RangeIndex. Qed.

Section frame_facts.
Context {HookFn MetricsDict Kwargs : Type}.
Context `{!Collaborators HookFn MetricsDict Kwargs}.
Variables tokens_to_generate : nat.
Variable seed : option Z.
Variable sampling_kwargs : Kwargs.

Lemma normal_frame_rows n prompt df :
  normal_frame n tokens_to_generate seed sampling_kwargs prompt df →
  rows_of_prompt n prompt df ∧ ("rich_prompt_index"%string ∉ column_names df).
Proof.
  intros (calls & _ & Hframe).
  pose proof (completion_frame_nrows _ _ Hframe) as Hrows.
  destruct Hframe as (Hnames & _ & Hprompts & Hfresh & Hfresh').
  rewrite length_replicate in Hrows. rewrite fmap_replicate in Hprompts.
  unfold rows_of_prompt. by split_and!.
Qed.

Lemma patched_frame_rows n prompt index rich_prompts_this df :
  patched_frame n tokens_to_generate seed sampling_kwargs prompt index
    rich_prompts_this df →
  rows_of_pair n (prompt, index) df.
Proof.
  intros (calls & df0 & _ & Hframe & ->).
  pose proof (completion_frame_nrows _ _ Hframe) as Hrows.
  destruct Hframe as (Hnames & _ & Hprompts & Hfresh & Hfresh').
  rewrite length_replicate in Hrows. rewrite fmap_replicate in Hprompts.
  unfold rows_of_pair, rows_of_prompt. split_and!; simpl.
  - done.
  - rewrite column_names_setitem. by intros [?|?].
  - done.
  - by rewrite column_setitem_ne.
  - by rewrite column_setitem_eq, Hrows.
Qed.

Lemma patched_frames_rows n prompt index sets frames :
  patched_frames n tokens_to_generate seed sampling_kwargs prompt index sets frames →
  Forall2 (rows_of_pair n) ((λ i, (prompt, i)) <$> seq index (length sets)) frames.
Proof.
  revert index frames.
  induction sets as [|x sets IH]; intros index [|df frames] H; simpl in *;
    [constructor|done|done|].
  destruct H as [Hdf Hrest].
  constructor; [by eapply patched_frame_rows|by apply IH].
Qed.

Lemma prompt_rounds_rows n m sets prompts lists :
  Forall2 (prompt_round n m tokens_to_generate seed sampling_kwargs sets)
          prompts lists →
  Forall2 (rows_of_prompt n) prompts lists.*1
  ∧ Forall (λ df, "rich_prompt_index"%string ∉ column_names df) lists.*1
  ∧ Forall2 (rows_of_pair m) (sweep_pairs prompts sets) (mjoin lists.*2).
Proof.
  induction 1 as [|prompt tables prompts lists [Hnormal Hpatched] _ (IH1 & IH2 & IH3)].
  - by split_and!; constructor.
  - apply normal_frame_rows in Hnormal as [Hrows Hfresh].
    apply patched_frames_rows in Hpatched.
    split_and!; [by constructor|by constructor|].
    unfold sweep_pairs. rewrite bind_cons. simpl. apply Forall2_app; [|done].
    by rewrite bind_singleton_fmap.
Qed.
End frame_facts.

Lemma sweep_pairs_length prompts sets :
  length (sweep_pairs prompts sets) = (length prompts * length sets)%nat.
Proof.
  unfold sweep_pairs. apply length_bind_const. intros prompt.
  by rewrite bind_singleton_fmap, length_fmap, length_seq.
Qed.

Lemma sweep_pairs_nonempty prompts sets :
  prompts ≠ [] → sets ≠ [] → sweep_pairs prompts sets ≠ [].
Proof.
  intros Hp Hs Hnil. apply (f_equal length) in Hnil.
  rewrite sweep_pairs_length in Hnil.
  destruct prompts, sets; simpl in *; done.
Qed.

Section completion_tables.
Context {HookFn MetricsDict Kwargs : Type}.
Context `{!Collaborators HookFn MetricsDict Kwargs}.

Implicit Types w : World HookFn.

Lemma sweep_over_prompts_run prompts n m tokens seed kwargs w w' lists
    normal_all patched_all :
  completion_lists prompts n m tokens seed kwargs w = (w', Ok lists) →
  pd_concat lists.*1 ≫= reset_index (Some ["completion_index"%string])
  = Ok normal_all →
  pd_concat (mjoin lists.*2) ≫= reset_index (Some ["completion_index"%string])
  = Ok patched_all →
  sweep_over_prompts prompts n m tokens seed None kwargs w
  = (w', Ok (normal_all, patched_all)).
Proof.
  intros Hlists Hnormal Hpatched. unfold sweep_over_prompts.
  rewrite bind_run, Hlists. rewrite bind_run. unfold lift at 1. rewrite Hnormal.
  rewrite bind_run. unfold lift at 1. by rewrite Hpatched.
Qed.

(** The two tables of a sweep without metrics, from what the loops
    collected. *)
Lemma sweep_over_prompts_assemble prompts pairs n m tokens seed kwargs w w' lists :
  completion_lists prompts n m tokens seed kwargs w = (w', Ok lists) →
  prompts ≠ [] → pairs ≠ [] →
  Forall2 (rows_of_prompt n) prompts lists.*1 →
  Forall (λ df, "rich_prompt_index"%string ∉ column_names df) lists.*1 →
  Forall2 (rows_of_pair m) pairs (mjoin lists.*2) →
  ∃ normal_all patched_all,
    sweep_over_prompts prompts n m tokens seed None kwargs w
    = (w', Ok (normal_all, patched_all))
    ∧ pd_concat lists.*1 ≫= reset_index (Some ["completion_index"%string])
      = Ok normal_all
    ∧ nrows normal_all = (length prompts * n)%nat
    ∧ column "prompts" normal_all = Some (blocks n CStr prompts)
    ∧ column "rich_prompt_index" normal_all = None
    ∧ nrows patched_all = (length pairs * m)%nat
    ∧ column "prompts" patched_all = Some (blocks m (λ pair, CStr pair.1) pairs)
    ∧ column "rich_prompt_index" patched_all
      = Some (blocks m (λ pair, CInt (Z.of_nat pair.2)) pairs).
Proof.
  intros Hlists Hprompts Hpairs Hnormal Hfresh Hpatched.
  destruct (rows_of_prompt_concat n prompts lists.*1 Hprompts Hnormal)
    as (normal_all & Hrun1 & Hrows1 & Hcol1 & Hcols1).
  destruct (rows_of_pair_concat m pairs (mjoin lists.*2) Hpairs Hpatched)
    as (patched_all & Hrun2 & Hrows2 & Hcol2 & Hcol2').
  exists normal_all, patched_all. split_and!; try done.
  - by eapply sweep_over_prompts_run.
  - rewrite Hcols1 by done. rewrite decide_False; [done|].
    rewrite list_elem_of_bind. intros (df & Hin & Hdf).
    by apply (proj1 (Forall_forall _ _) Hfresh df) in Hdf.
Qed.

Lemma prompt_round_no_sets n m tokens seed kwargs prompts lists :
  Forall2 (prompt_round n m tokens seed kwargs []) prompts lists →
  Forall (λ tables, tables.2 = []) lists.
Proof.
  induction 1 as [|prompt tables prompts lists [_ Hpatched] _ IH]; constructor;
    [|done].
  simpl in Hpatched. by destruct (tables.2).
Qed.

Lemma mjoin_all_nil {A : Type} (ls : list (list A)) :
  Forall (λ l, l = []) ls → mjoin ls = [].
Proof. induction 1 as [|l ls -> _ IH]; [done|]. simpl. exact IH. Qed.
End completion_tables.

(** ** The completion sweep *)

Ltac not_a_column :=
  let H := fresh in
  intros H; repeat (apply elem_of_cons in H as [H|H]; [discriminate H|]);
  by apply elem_of_nil in H.

Lemma toy_frame_completion_frame prompt_batch suffix calls :
  completion_frame prompt_batch (Examples.toy_frame prompt_batch suffix calls).
Proof. unfold completion_frame. split_and!; [done..| |]; not_a_column. Qed.

Lemma toy_generation_contract : GenerationContract Examples.toy_collaborators.
Proof.
  split; intros; eexists; (split; [reflexivity|apply toy_frame_completion_frame]).
Qed.

Section completion_sweep_claims.
Context {HookFn MetricsDict Kwargs : Type}.
Context `{!Collaborators HookFn MetricsDict Kwargs}.
Context `{!GenerationContract Collaborators0}.

Implicit Types w : World HookFn.

(** A completion sweep without metrics over a re-iterable sequence of
    descriptor sets. *)
Lemma sweep_over_prompts_sequence w sets prompts n m tokens seed kwargs :
  rich_prompts w = Sequence sets → prompts ≠ [] → sets ≠ [] →
  ∃ w' lists normal_all patched_all,
    completion_lists prompts n m tokens seed kwargs w = (w', Ok lists)
    ∧ Forall2 (prompt_round n m tokens seed kwargs sets) prompts lists
    ∧ sweep_over_prompts prompts n m tokens seed None kwargs w
      = (w', Ok (normal_all, patched_all))
    ∧ pd_concat lists.*1 ≫= reset_index (Some ["completion_index"%string])
      = Ok normal_all
    ∧ nrows normal_all = (length prompts * n)%nat
    ∧ column "prompts" normal_all = Some (blocks n CStr prompts)
    ∧ column "rich_prompt_index" normal_all = None
    ∧ nrows patched_all = (length prompts * length sets * m)%nat
    ∧ column "prompts" patched_all
      = Some (blocks m (λ pair, CStr pair.1) (sweep_pairs prompts sets))
    ∧ column "rich_prompt_index" patched_all
      = Some (blocks m (λ pair, CInt (Z.of_nat pair.2)) (sweep_pairs prompts sets)).
Proof.
  intros Hrp Hprompts Hsets.
  destruct (completion_lists_stable n m tokens seed kwargs prompts w)
    as (w' & lists & Hlists & Hrounds & _ & _); [by rewrite Hrp|].
  rewrite Hrp, remaining_Sequence in Hrounds.
  destruct (prompt_rounds_rows _ _ _ _ _ _ _ _ Hrounds) as (H1 & H2 & H3).
  destruct (sweep_over_prompts_assemble prompts (sweep_pairs prompts sets)
              n m tokens seed kwargs w w' lists)
    as (normal_all & patched_all & Hrun & Hconcat & Hn1 & Hn2 & Hn3 & Hp1 & Hp2 & Hp3);
    [done|done|by apply sweep_pairs_nonempty|done..|].
  exists w', lists, normal_all, patched_all.
  rewrite sweep_pairs_length in Hp1. by split_and!.
Qed.

(** C3.  Over a sequence of descriptor sets, every prompt yields
    [num_normal_completions] baseline rows, generated by [gen_using_hooks]
    with no hook, and [num_patched_completions] rows per descriptor set, each
    tagged in [rich_prompt_index] with the position of its set; baseline rows
    have no such column.  In the scenario the builder yields 4 sets, and 1
    prompt with 2 baseline and 2 intervened trials gives 2 baseline rows and 8
    intervened rows, every index from 0 to 3 on exactly two of them. *)
Theorem sweep_over_prompts_rows :
  (∀ w sets prompts num_normal_completions num_patched_completions
     tokens_to_generate seed sampling_kwargs,
     rich_prompts w = Sequence sets → prompts ≠ [] → sets ≠ [] →
     ∃ w' normal_list normal_all patched_all,
       sweep_over_prompts prompts num_normal_completions num_patched_completions
         tokens_to_generate seed None sampling_kwargs w
       = (w', Ok (normal_all, patched_all))
       ∧ Forall2 (normal_frame num_normal_completions tokens_to_generate seed
                    sampling_kwargs) prompts normal_list
       ∧ pd_concat normal_list ≫= reset_index (Some ["completion_index"%string])
         = Ok normal_all
       ∧ nrows normal_all = (length prompts * num_normal_completions)%nat
       ∧ column "prompts" normal_all
         = Some (blocks num_normal_completions CStr prompts)
       ∧ column "rich_prompt_index" normal_all = None
       ∧ nrows patched_all
         = (length prompts * length sets * num_patched_completions)%nat
       ∧ column "prompts" patched_all
         = Some (blocks num_patched_completions (λ pair, CStr pair.1)
                   (sweep_pairs prompts sets))
       ∧ column "rich_prompt_index" patched_all
         = Some (blocks num_patched_completions (λ pair, CInt (Z.of_nat pair.2))
                   (sweep_pairs prompts sets)))
  ∧ ∃ df,
      make_rich_prompts Examples.scenario_phrases Examples.scenario_act_names
        Examples.scenario_coeffs false None = Ok df
      ∧ nrows df = 4%nat
      ∧ rich_prompts_column df = Examples.scenario_sets
      ∧ ∀ w prompt tokens_to_generate seed sampling_kwargs,
          rich_prompts w = Sequence (rich_prompts_column df) →
          ∃ w' normal_all patched_all cells,
            sweep_over_prompts [prompt] 2 2 tokens_to_generate seed None
              sampling_kwargs w = (w', Ok (normal_all, patched_all))
            ∧ nrows normal_all = 2%nat
            ∧ column "rich_prompt_index" normal_all = None
            ∧ nrows patched_all = 8%nat
            ∧ column "rich_prompt_index" patched_all = Some cells
            ∧ cells = CInt <$> [0; 0; 1; 1; 2; 2; 3; 3]
            ∧ Forall (λ i, length (filter (λ c, c = CInt i) cells) = 2%nat)
                     [0; 1; 2; 3].
Proof.
  split.
  - intros w sets prompts n m tokens seed kwargs Hrp Hprompts Hsets.
    destruct (sweep_over_prompts_sequence w sets prompts n m tokens seed kwargs)
      as (w' & lists & normal_all & patched_all & _ & Hrounds & Hrun & Hconcat & H);
      [done..|].
    exists w', lists.*1, normal_all, patched_all. split_and!; [done| |done|apply H..].
    apply Forall2_fmap_r. eapply Forall2_impl; [exact Hrounds|].
    by intros prompt tables [Hnormal _].
  - eexists. split_and!; [reflexivity..|].
    intros w prompt tokens seed kwargs Hrp.
    destruct (sweep_over_prompts_sequence w Examples.scenario_sets [prompt] 2 2
                tokens seed kwargs)
      as (w' & lists & normal_all & patched_all & _ & _ & Hrun & _
          & Hn1 & _ & Hn3 & Hp1 & _ & Hp3); [done..|].
    exists w', normal_all, patched_all. eexists.
    split_and!; [done|done|done|done|exact Hp3|reflexivity|].
    repeat constructor.
Qed.
End completion_sweep_claims.

Lemma sweep_over_prompts_rows_witness :
  ∃ w' normal_list normal_all patched_all,
    sweep_over_prompts (Collaborators0 := Examples.toy_collaborators)
      ["I think you're"%string; "Shrek starts off"%string] 3 2 40 (Some 1) None tt
      Examples.scenario_world
    = (w', Ok (normal_all, patched_all))
    ∧ Forall2 (normal_frame (Collaborators0 := Examples.toy_collaborators)
                 3 40 (Some 1) tt)
        ["I think you're"%string; "Shrek starts off"%string] normal_list
    ∧ pd_concat normal_list ≫= reset_index (Some ["completion_index"%string])
      = Ok normal_all
    ∧ nrows normal_all = (2 * 3)%nat
    ∧ column "prompts" normal_all
      = Some (blocks 3 CStr ["I think you're"%string; "Shrek starts off"%string])
    ∧ column "rich_prompt_index" normal_all = None
    ∧ nrows patched_all = (2 * 4 * 2)%nat
    ∧ column "prompts" patched_all
      = Some (blocks 2 (λ pair, CStr pair.1)
                (sweep_pairs ["I think you're"%string; "Shrek starts off"%string]
                   Examples.scenario_sets))
    ∧ column "rich_prompt_index" patched_all
      = Some (blocks 2 (λ pair, CInt (Z.of_nat pair.2))
                (sweep_pairs ["I think you're"%string; "Shrek starts off"%string]
                   Examples.scenario_sets)).
Proof.
  apply (proj1 (sweep_over_prompts_rows
                  (Collaborators0 := Examples.toy_collaborators)
                  (GenerationContract0 := toy_generation_contract))
           Examples.scenario_world Examples.scenario_sets
           ["I think you're"%string; "Shrek starts off"%string] 3%nat 2%nat 40%nat
           (Some 1) tt).
  - reflexivity.
  - discriminate.
  - discriminate.
Defined.

Section reiteration.
Context {HookFn MetricsDict Kwargs : Type}.
Context `{!Collaborators HookFn MetricsDict Kwargs}.
Context `{!GenerationContract Collaborators0}.

Implicit Types w : World HookFn.

(** A completion sweep without metrics over a fresh single-pass iterator. *)
Lemma sweep_over_prompts_iterator w sets prompt prompts n m tokens seed kwargs :
  rich_prompts w = Iterator sets 0 →
  ∃ w' first rest,
    completion_lists (prompt :: prompts) n m tokens seed kwargs w
    = (w', Ok (first :: rest))
    ∧ rich_prompts w' = Iterator sets (length sets)
    ∧ prompt_round n m tokens seed kwargs sets prompt first
    ∧ Forall2 (prompt_round n m tokens seed kwargs []) prompts rest
    ∧ (sets ≠ [] →
       ∃ normal_all patched_all,
         sweep_over_prompts (prompt :: prompts) n m tokens seed None kwargs w
         = (w', Ok (normal_all, patched_all))
         ∧ column "prompts" normal_all = Some (blocks n CStr (prompt :: prompts))
         ∧ nrows patched_all = (length sets * m)%nat
         ∧ column "prompts" patched_all
           = Some (blocks m (λ pair, CStr pair.1) (sweep_pairs [prompt] sets))
         ∧ column "rich_prompt_index" patched_all
           = Some (blocks m (λ pair, CInt (Z.of_nat pair.2))
                     (sweep_pairs [prompt] sets))).
Proof.
  intros Hrp.
  destruct (completion_lists_first n m tokens seed kwargs prompt prompts w)
    as (w' & first & rest & Hlists & Hfirst & Hrest & _ & Hrp').
  rewrite Hrp in Hfirst, Hrest, Hrp'.
  rewrite remaining_fresh_Iterator in Hfirst.
  rewrite remaining_after_loop_Iterator in Hrest.
  exists w', first, rest. split_and!; [done|by rewrite Hrp'|done|done|].
  intros Hsets.
  pose proof (prompt_round_no_sets _ _ _ _ _ _ _ Hrest) as Hnil.
  destruct (prompt_rounds_rows tokens seed kwargs n m sets [prompt] [first])
    as (H1 & H2 & H3); [constructor; [exact Hfirst|constructor]|].
  destruct (prompt_rounds_rows _ _ _ _ _ _ _ _ Hrest) as (H1' & H2' & _).
  destruct (sweep_over_prompts_assemble (prompt :: prompts)
              (sweep_pairs [prompt] sets) n m tokens seed kwargs w w' (first :: rest))
    as (normal_all & patched_all & Hrun & _ & _ & Hn2 & _ & Hp1 & Hp2 & Hp3).
  - done.
  - done.
  - by apply sweep_pairs_nonempty.
  - change (Forall2 (rows_of_prompt n) ([prompt] ++ prompts)
              ([first].*1 ++ rest.*1)).
    by apply Forall2_app.
  - change (Forall (λ df, "rich_prompt_index"%string ∉ column_names df)
              ([first].*1 ++ rest.*1)).
    apply Forall_app. by split.
  - change (mjoin [first].*2) with (first.2 ++ []) in H3.
    change (mjoin (first :: rest).*2) with (first.2 ++ mjoin rest.*2).
    rewrite (mjoin_all_nil rest.*2); [done|].
    by apply Forall_fmap.
  - exists normal_all, patched_all.
    rewrite sweep_pairs_length in Hp1. simpl in Hp1.
    split_and!; [done..| |done|done]. rewrite Hp1. lia.
Qed.

(** C9.  The loop over the descriptor sets is started anew for every
    prompt.  Over a sequence every prompt is handed every set, so every
    prompt has patched rows for every set; over a fresh single-pass iterator
    the first prompt uses the iterator up, and every later prompt is handed
    nothing and gets no patched table at all. *)
Theorem sweep_over_prompts_reiterates w sets :
  (rich_prompts w = Sequence sets →
   ∀ prompts num_normal_completions num_patched_completions tokens_to_generate
     seed sampling_kwargs,
   ∃ w' lists,
     completion_lists prompts num_normal_completions num_patched_completions
       tokens_to_generate seed sampling_kwargs w = (w', Ok lists)
     ∧ rich_prompts w' = Sequence sets
     ∧ Forall2 (prompt_round num_normal_completions num_patched_completions
                  tokens_to_generate seed sampling_kwargs sets) prompts lists
     ∧ Forall (λ tables, length tables.2 = length sets) lists
     ∧ (prompts ≠ [] → sets ≠ [] →
        ∃ normal_all patched_all,
          sweep_over_prompts prompts num_normal_completions
            num_patched_completions tokens_to_generate seed None
            sampling_kwargs w = (w', Ok (normal_all, patched_all))
          ∧ nrows patched_all
            = (length prompts * length sets * num_patched_completions)%nat
          ∧ column "prompts" patched_all
            = Some (blocks num_patched_completions (λ pair, CStr pair.1)
                      (sweep_pairs prompts sets))))
  ∧ (rich_prompts w = Iterator sets 0 →
     ∀ prompt prompts num_normal_completions num_patched_completions
       tokens_to_generate seed sampling_kwargs,
     ∃ w' first rest,
       completion_lists (prompt :: prompts) num_normal_completions
         num_patched_completions tokens_to_generate seed sampling_kwargs w
       = (w', Ok (first :: rest))
       ∧ rich_prompts w' = Iterator sets (length sets)
       ∧ prompt_round num_normal_completions num_patched_completions
           tokens_to_generate seed sampling_kwargs sets prompt first
       ∧ length first.2 = length sets
       ∧ length rest = length prompts
       ∧ Forall (λ tables, tables.2 = []) rest
       ∧ (sets ≠ [] →
          ∃ normal_all patched_all,
            sweep_over_prompts (prompt :: prompts) num_normal_completions
              num_patched_completions tokens_to_generate seed None
              sampling_kwargs w = (w', Ok (normal_all, patched_all))
            ∧ column "prompts" normal_all
              = Some (blocks num_normal_completions CStr (prompt :: prompts))
            ∧ nrows patched_all = (length sets * num_patched_completions)%nat
            ∧ column "prompts" patched_all
              = Some (blocks num_patched_completions (λ pair, CStr pair.1)
                        (sweep_pairs [prompt] sets)))).
Proof.
  assert (∀ n m tokens seed kwargs prompt tables,
            prompt_round n m tokens seed kwargs sets prompt tables →
            length tables.2 = length sets) as Hlen.
  { intros n m tokens seed kwargs prompt tables [_ Hpatched].
    apply (patched_frames_rows tokens seed kwargs) in Hpatched.
    apply Forall2_length in Hpatched.
    by rewrite length_fmap, length_seq in Hpatched. }
  split.
  - intros Hrp prompts n m tokens seed kwargs.
    destruct (completion_lists_stable n m tokens seed kwargs prompts w)
      as (w' & lists & Hlists & Hrounds & _ & Hrp'); [by rewrite Hrp|].
    rewrite Hrp, remaining_Sequence in Hrounds.
    exists w', lists. split_and!; [done|congruence|done| |].
    + apply Forall_forall. intros tables Hin.
      destruct (Forall2_elem_r _ _ _ _ Hrounds Hin) as (prompt & _ & Hround).
      by eapply Hlen.
    + intros Hprompts Hsets.
      destruct (sweep_over_prompts_sequence w sets prompts n m tokens seed kwargs)
        as (w'' & lists' & normal_all & patched_all & Hlists' & _ & Hrun & _
            & _ & _ & _ & Hp1 & Hp2 & _); [done..|].
      assert (w'' = w') as -> by congruence.
      by exists normal_all, patched_all.
  - intros Hrp prompt prompts n m tokens seed kwargs.
    destruct (sweep_over_prompts_iterator w sets prompt prompts n m tokens seed kwargs)
      as (w' & first & rest & Hlists & Hrp' & Hfirst & Hrest & Htables); [done|].
    exists w', first, rest. split_and!; [done|done|done| | | |].
    + by eapply Hlen.
    + symmetry. by eapply Forall2_length.
    + by eapply prompt_round_no_sets.
    + intros Hsets.
      destruct (Htables Hsets)
        as (normal_all & patched_all & Hrun & Hn & Hp1 & Hp2 & _).
      by exists normal_all, patched_all.
Qed.
End reiteration.

Lemma sweep_over_prompts_reiterates_witness :
  ∃ w' first rest,
    completion_lists (Collaborators0 := Examples.toy_collaborators)
      ["I think you're"%string; "Shrek starts off"%string] 3 2 40 (Some 1) tt
      Examples.generator_world
    = (w', Ok (first :: rest))
    ∧ rich_prompts w' = Iterator Examples.scenario_sets 4
    ∧ prompt_round (Collaborators0 := Examples.toy_collaborators)
        3 2 40 (Some 1) tt Examples.scenario_sets "I think you're" first
    ∧ length first.2 = 4%nat
    ∧ length rest = 1%nat
    ∧ Forall (λ tables, tables.2 = []) rest
    ∧ (Examples.scenario_sets ≠ [] →
       ∃ normal_all patched_all,
         sweep_over_prompts (Collaborators0 := Examples.toy_collaborators)
           ["I think you're"%string; "Shrek starts off"%string] 3 2 40 (Some 1)
           None tt Examples.generator_world
         = (w', Ok (normal_all, patched_all))
         ∧ column "prompts" normal_all
           = Some (blocks 3 CStr ["I think you're"%string; "Shrek starts off"%string])
         ∧ nrows patched_all = (4 * 2)%nat
         ∧ column "prompts" patched_all
           = Some (blocks 2 (λ pair, CStr pair.1)
                     (sweep_pairs ["I think you're"%string] Examples.scenario_sets))).
Proof.
  apply (proj2 (sweep_over_prompts_reiterates
                  (Collaborators0 := Examples.toy_collaborators)
                  (GenerationContract0 := toy_generation_contract)
                  Examples.generator_world Examples.scenario_sets)).
  reflexivity.
Defined.

(** * The reducer *)

(** ** Grouping *)

Lemma filter_all {A : Type} (P : A → Prop) `{!∀ x, Decision (P x)} (l : list A) :
  Forall P l → filter P l = l.
Proof.
  induction 1 as [|x l Hx _ IH]; [done|].
  by rewrite filter_cons, decide_True, IH.
Qed.

Lemma image_list {A B : Type} (f : A → B) (l : list B) :
  Forall (λ y, ∃ x, y = f x) l → ∃ xs, l = f <$> xs.
Proof.
  induction 1 as [|y l [x ->] _ [xs ->]]; [by exists []|]. by exists (x :: xs).
Qed.

Lemma group_cells_fmap {K : Type} `{EqDecision K} (keyf : K → list cell)
    `{!Inj (=) (=) keyf} (keys : list K) (cells : list cell) (k : K) :
  group_cells (keyf <$> keys) cells (keyf k) = group_cells keys cells k.
Proof.
  unfold group_cells. revert cells.
  induction keys as [|k' keys IH]; intros [|c cells]; try done.
  cbn [fmap list_fmap zip zip_with]. rewrite !filter_cons. simpl.
  destruct (decide (k' = k)) as [->|Hne].
  - rewrite decide_True by done. simpl. f_equal. apply IH.
  - rewrite decide_False by (intros ?%(inj keyf); done). apply IH.
Qed.

Lemma key_rows_lookup (key_cols : list (list cell)) (n i : nat) :
  (i < n)%nat →
  key_rows key_cols n !! i
  = Some ((λ col : list cell, key_cell (default CNaN (col !! i))) <$> key_cols).
Proof.
  intros Hi. unfold key_rows. rewrite list_lookup_fmap, lookup_seq_lt by done.
  reflexivity.
Qed.

Lemma key_rows_length (key_cols : list (list cell)) (n : nat) :
  length (key_rows key_cols n) = n.
Proof. unfold key_rows. by rewrite length_fmap, length_seq. Qed.

Lemma key_rows_prompts (ps : list string) :
  key_rows [CStr <$> ps] (length ps) = (λ p, [CStr p]) <$> ps.
Proof.
  apply list_eq. intros i. rewrite list_lookup_fmap.
  destruct (decide (i < length ps)%nat) as [Hi|Hi].
  - rewrite key_rows_lookup by done.
    destruct (lookup_lt_is_Some_2 ps i Hi) as [p Hp].
    simpl. by rewrite list_lookup_fmap, Hp.
  - rewrite (lookup_ge_None_2 ps) by lia.
    apply lookup_ge_None_2. rewrite key_rows_length. lia.
Qed.

Lemma key_rows_prompts_indices (ps : list string) (zs : list Z) :
  length zs = length ps →
  key_rows [CStr <$> ps; CInt <$> zs] (length ps)
  = (λ pz, [CStr pz.1; CInt pz.2]) <$> zip ps zs.
Proof.
  intros Hlen. apply list_eq. intros i. rewrite list_lookup_fmap.
  destruct (decide (i < length ps)%nat) as [Hi|Hi].
  - rewrite key_rows_lookup by done.
    destruct (lookup_lt_is_Some_2 ps i Hi) as [p Hp].
    destruct (lookup_lt_is_Some_2 zs i) as [z Hz]; [lia|].
    rewrite (proj2 (lookup_zip_Some ps zs i p z)) by done.
    simpl. by rewrite !list_lookup_fmap, Hp, Hz.
  - rewrite (proj2 (lookup_zip_None ps zs i)) by (left; apply lookup_ge_None_2; lia).
    apply lookup_ge_None_2. rewrite key_rows_length. lia.
Qed.

(** [groupby(by).mean(numeric_only=True)] when the key tuples of the rows are
    the images of typed keys, none of them [NaN]. *)
Lemma groupby_mean_typed {K : Type} `{EqDecision K} (keyf : K → list cell)
    `{!Inj (=) (=) keyf} (by_ : list string) (df : DataFrame)
    (key_cols : list (list cell)) (keys : list K) :
  forM by_ (λ k, match column k df with
                 | Some c => Ok c
                 | None => Raise (KeyError k)
                 end) = Ok key_cols →
  forallb (forallb is_hashable) key_cols = true →
  key_rows key_cols (nrows df) = keyf <$> keys →
  (∀ k, forallb (λ c, negb (is_nan c)) (keyf k) = true) →
  ∃ groups,
    NoDup groups
    ∧ (∀ g, g ∈ groups ↔ g ∈ keys)
    ∧ groupby_mean by_ df
      = Ok {| index_names := Some <$> by_;
              index := keyf <$> groups;
              columns := mean_columns by_ df keys groups |}.
Proof.
  intros Hcols Hhash Hkeys Hnan. unfold groupby_mean.
  rewrite Hcols. simpl. rewrite Hhash. simpl. rewrite Hkeys.
  rewrite (filter_all _ (keyf <$> keys))
    by (apply Forall_fmap, Forall_forall; intros k _; apply Hnan).
  set (sorted := merge_sort _ _).
  assert (sorted ≡ₚ remove_dups (keyf <$> keys)) as Hperm
    by apply merge_sort_Permutation.
  destruct (image_list keyf sorted) as [groups Hgroups].
  { apply Forall_forall. intros k Hk. rewrite Hperm, elem_of_remove_dups in Hk.
    apply list_elem_of_fmap in Hk as (g & -> & _). eauto. }
  exists groups. split_and!.
  - apply (NoDup_fmap_1 keyf). rewrite <- Hgroups, Hperm. apply NoDup_remove_dups.
  - intros g. rewrite <- (list_elem_of_fmap_inj keyf), <- Hgroups, Hperm.
    by rewrite elem_of_remove_dups, (list_elem_of_fmap_inj keyf).
  - rewrite Hgroups. f_equal. f_equal. unfold mean_columns.
    apply list_fmap_ext. intros i [name cells] _. simpl. f_equal.
    rewrite <- list_fmap_compose. apply list_fmap_ext. intros j g _. simpl.
    by rewrite group_cells_fmap.
Qed.

(** ** Joining against a provenance table *)

Lemma filter_seq_unique (P : nat → Prop) `{!∀ j, Decision (P j)} (n : nat) (z : Z) :
  (∀ j, (j < n)%nat → P j ↔ Z.of_nat j = z) →
  filter P (seq 0 n)
  = if decide (0 ≤ z < Z.of_nat n) then [Z.to_nat z] else [].
Proof.
  induction n as [|n IH]; intros HP.
  - rewrite decide_False by lia. done.
  - rewrite seq_S, filter_app, IH by (intros; apply HP; lia). simpl.
    rewrite filter_cons, filter_nil.
    destruct (decide (P n)) as [Hn|Hn].
    + apply HP in Hn; [|lia]. subst z.
      rewrite decide_False by lia. rewrite decide_True by lia.
      by rewrite Nat2Z.id.
    + assert (Z.of_nat n ≠ z) by (intros ?; apply Hn, HP; [lia|done]).
      rewrite app_nil_r.
      destruct (decide (0 ≤ z < Z.of_nat n)).
      * by rewrite decide_True by lia.
      * by rewrite decide_False by lia.
Qed.

Lemma RangeIndex_lookup (n j : nat) :
  (j < n)%nat → RangeIndex n !! j = Some [CInt (Z.of_nat j)].
Proof.
  intros Hj. unfold RangeIndex. by rewrite list_lookup_fmap, lookup_seq_lt.
Qed.

Lemma index_pd_DataFrame (rows : list Row) :
  index (pd_DataFrame rows) = RangeIndex (length rows).
Proof. by destruct rows. Qed.

(** The rows of a provenance table that an index matches: the row at that
    position, if there is one. *)
Lemma matching_rows_provenance (rows : list Row) (z : Z) :
  matching_rows (pd_DataFrame rows) (CInt z)
  = if decide (0 ≤ z < Z.of_nat (length rows)) then [Z.to_nat z] else [].
Proof.
  unfold matching_rows. rewrite nrows_pd_DataFrame.
  apply filter_seq_unique. intros j Hj.
  rewrite index_pd_DataFrame, RangeIndex_lookup by done. simpl.
  split; [by intros [= ->]|by intros ->].
Qed.

Lemma imap_singleton_join {A B : Type} (g : nat → A → B) (l : list A) :
  imap (λ i x, [g i x]) l ≫= id = imap g l.
Proof.
  revert g. induction l as [|x l IH]; intros g; [done|].
  rewrite !imap_cons, bind_cons. simpl. f_equal. apply (IH (g ∘ S)).
Qed.

Lemma imap_lookup_self {A B : Type} (d : A) (l : list A) (zs : list B) :
  length zs = length l → imap (λ i _, default d (l !! i)) zs = l.
Proof.
  intros Hlen. apply list_eq. intros i. rewrite list_lookup_imap.
  destruct (l !! i) as [x|] eqn:Hx.
  - destruct (lookup_lt_is_Some_2 zs i) as [z ->]; [|done].
    rewrite Hlen. by eapply lookup_lt_Some.
  - rewrite (lookup_ge_None_2 zs); [done|]. rewrite Hlen. by apply lookup_ge_None.
Qed.

Lemma Exists_imap_pairs {A B : Type} (f : A → option B) (l : list A) :
  Exists (λ p : nat * option B, p.2 = None) (imap (λ i x, (i, f x)) l)
  ↔ Exists (λ x, f x = None) l.
Proof.
  rewrite !Exists_exists. split.
  - intros ([i o] & Hin & Ho). apply elem_of_lookup_imap in Hin as (j & x & [= -> ->] & Hx).
    exists x. split; [by eapply list_elem_of_lookup_2|done].
  - intros (x & Hin & Hx). apply list_elem_of_lookup_1 in Hin as [i Hi].
    exists (i, f x). split; [|done]. apply elem_of_lookup_imap. by exists i, x.
Qed.

Lemma join_provenance (left : DataFrame) (rows : list Row) (on : string)
    (k : nat) (zs : list Z) :
  column on left = None →
  level_of on left = Some k →
  index_level k left = CInt <$> zs →
  Forall (λ n, n ∉ column_names (pd_DataFrame rows)) (column_names left) →
  Forall (λ nc, length nc.2 = nrows left) (columns left) →
  join left (pd_DataFrame rows) on
  = Ok {| index_names := index_names left;
          index := index left;
          columns :=
            columns left
            ++ ((λ nc,
                   (nc.1,
                    (λ z, default CNaN
                            (matched_row rows z
                               ≫= (upcast
                                     (bool_decide
                                        (Exists (λ z, matched_row rows z = None) zs))
                                     nc.2 !!.))) <$> zs))
                  <$> columns (pd_DataFrame rows)) |}.
Proof.
  intros Hcol Hlevel Hkeys Hfresh Hwf. unfold join.
  rewrite Hcol, Hlevel. simpl. rewrite bool_decide_false.
  2:{ rewrite Exists_exists. intros (n & Hn & Hin).
      by apply (proj1 (Forall_forall _ _) Hfresh n). }
  assert (length zs = nrows left) as Hlen.
  { apply (f_equal length) in Hkeys. unfold index_level in Hkeys.
    rewrite !length_fmap in Hkeys. done. }
  rewrite Hkeys, imap_fmap.
  rewrite (imap_ext _ (λ i z, [(i, matched_row rows z)])).
  2:{ intros i z _. simpl. rewrite matching_rows_provenance. unfold matched_row.
      by destruct (decide _). }
  rewrite imap_singleton_join.
  rewrite (bool_decide_ext _ _ (Exists_imap_pairs (matched_row rows) zs)).
  f_equal. f_equal.
  - rewrite fmap_imap. by apply imap_lookup_self.
  - f_equal.
    + rewrite <- (list_fmap_id (columns left)) at 2.
      apply Forall_fmap_ext. eapply Forall_impl; [exact Hwf|].
      intros [name cells] Hcells. simpl in *. f_equal.
      rewrite fmap_imap. apply imap_lookup_self. congruence.
    + apply list_fmap_ext. intros i [name cells] _. simpl. f_equal.
      rewrite fmap_imap.
      apply (imap_const (λ z, default CNaN (matched_row rows z ≫= (_ !!.)))).
Qed.

(** [reset_index()] on a table indexed by two named levels. *)
Lemma reset_index_two_levels (df : DataFrame) (a b : string) :
  index_names df = [Some a; Some b] →
  b ∉ column_names df → a ≠ b → a ∉ column_names df →
  reset_index None df
  = Ok {| index_names := [None];
          index := RangeIndex (nrows df);
          columns := (a, index_level 0 df) :: (b, index_level 1 df) :: columns df |}.
Proof.
  intros Hnames Hb Hab Ha. unfold reset_index. rewrite Hnames. simpl.
  unfold column_names in *. rewrite bool_decide_false by done. simpl.
  rewrite bool_decide_false; [done|]. rewrite not_elem_of_cons. done.
Qed.

Lemma matched_row_provenance {A : Type} (f : Row → A) (rows : list Row) (z : Z) :
  matched_row rows z ≫= ((f <$> rows) !!.) = f <$> provenance_row rows z.
Proof.
  unfold matched_row, provenance_row.
  destruct (decide (0 ≤ z < Z.of_nat (length rows))) as [Hz|Hz]; simpl.
  - rewrite (proj2 (Z.leb_le 0 z)) by lia. apply list_lookup_fmap.
  - destruct (0 <=? z) eqn:Hle; [|done]. apply Z.leb_le in Hle.
    rewrite (lookup_ge_None_2 rows); [done|]. lia.
Qed.

Lemma columns_pd_DataFrame (rows : list Row) :
  rows ≠ [] →
  columns (pd_DataFrame rows)
  = [ ("rich_prompts"%string, (λ r, CRichPrompts (row_rich_prompts r)) <$> rows);
      ("phrases"%string, (λ r, CPhrases (row_phrases r)) <$> rows);
      ("act_name"%string, (λ r, act_name_cell (row_act_name r)) <$> rows);
      ("coeff"%string, (λ r, CFloat (row_coeff r)) <$> rows) ].
Proof. by destruct rows. Qed.

Lemma provenance_columns_rows (rows : list Row) (zs : list Z) :
  rows ≠ [] →
  provenance_columns rows zs
  = [ ("rich_prompts"%string,
       (λ z, from_option (λ r, CRichPrompts (row_rich_prompts r)) CNaN
               (provenance_row rows z)) <$> zs);
      ("phrases"%string,
       (λ z, from_option (λ r, CPhrases (row_phrases r)) CNaN
               (provenance_row rows z)) <$> zs);
      ("act_name"%string,
       (λ z, from_option
               (λ r, site_cell (sites_as_floats rows zs) (row_act_name r)) CNaN
               (provenance_row rows z)) <$> zs);
      ("coeff"%string,
       (λ z, from_option (λ r, CFloat (row_coeff r)) CNaN
               (provenance_row rows z)) <$> zs) ].
Proof. by destruct rows. Qed.

Lemma provenance_cells (f : Row → cell) (rows : list Row) (zs : list Z) :
  (λ z, default CNaN (matched_row rows z ≫= ((f <$> rows) !!.))) <$> zs
  = (λ z, from_option f CNaN (provenance_row rows z)) <$> zs.
Proof.
  apply list_fmap_ext. intros i z _.
  rewrite matched_row_provenance. by destruct (provenance_row rows z).
Qed.

Lemma matched_row_None (rows : list Row) (z : Z) :
  matched_row rows z = None ↔ provenance_row rows z = None.
Proof.
  unfold matched_row, provenance_row.
  destruct (decide (0 ≤ z < Z.of_nat (length rows))) as [Hz|Hz].
  - rewrite (proj2 (Z.leb_le 0 z)) by lia. split; [done|].
    intros Hnone%lookup_ge_None. lia.
  - split; [|done]. intros _. destruct (0 <=? z) eqn:Hle; [|done].
    apply Z.leb_le in Hle. apply lookup_ge_None_2. lia.
Qed.

(** No column of a provenance table but the sites can be a column of
    integers. *)
Lemma upcast_not_int (missed : bool) (cells : list cell) :
  is_int_column cells = false → upcast missed cells = cells.
Proof. unfold upcast. intros ->. by rewrite andb_false_r. Qed.

Lemma is_int_column_fmap {A : Type} (f : A → cell) (l : list A) :
  l ≠ [] → (∀ x, match f x with CInt _ => False | _ => True end) →
  is_int_column (f <$> l) = false.
Proof.
  destruct l as [|x l]; [done|]. intros _ Hf. simpl.
  specialize (Hf x). by destruct (f x).
Qed.

Lemma is_int_column_sites (rows : list Row) :
  rows ≠ [] →
  is_int_column ((λ r, act_name_cell (row_act_name r)) <$> rows)
  = forallb (λ r, match row_act_name r with ActInt _ => true | ActStr _ => false end)
      rows.
Proof.
  assert (∀ l : list Row,
            forallb (λ c, match c with CInt _ => true | _ => false end)
              ((λ r, act_name_cell (row_act_name r)) <$> l)
            = forallb (λ r, match row_act_name r with
                            | ActInt _ => true | ActStr _ => false end) l) as Hall.
  { induction l as [|r l IH]; [done|]. rewrite fmap_cons. simpl.
    rewrite IH. by destruct (row_act_name r). }
  destruct rows as [|r rows]; [done|]. intros _. apply (Hall (r :: rows)).
Qed.

Lemma site_cells (rows : list Row) (as_float : bool) :
  (if as_float then to_float <$> ((λ r, act_name_cell (row_act_name r)) <$> rows)
   else (λ r, act_name_cell (row_act_name r)) <$> rows)
  = (λ r, if as_float then to_float (act_name_cell (row_act_name r))
          else act_name_cell (row_act_name r)) <$> rows.
Proof. destruct as_float; [by rewrite <- list_fmap_compose|done]. Qed.

Lemma join_provenance_columns (rows : list Row) (zs : list Z) :
  (λ nc,
     (nc.1,
      (λ z, default CNaN
              (matched_row rows z
                 ≫= (upcast
                       (bool_decide (Exists (λ z, matched_row rows z = None) zs))
                       nc.2 !!.))) <$> zs))
    <$> columns (pd_DataFrame rows)
  = provenance_columns rows zs.
Proof.
  destruct (decide (rows = [])) as [->|Hne]; [done|].
  rewrite columns_pd_DataFrame, provenance_columns_rows by done.
  set (missed := bool_decide _).
  cbn [fmap list_fmap fst snd].
  rewrite !(upcast_not_int missed
              ((λ r, CRichPrompts (row_rich_prompts r)) <$> rows))
    by (by apply is_int_column_fmap).
  rewrite !(upcast_not_int missed ((λ r, CPhrases (row_phrases r)) <$> rows))
    by (by apply is_int_column_fmap).
  rewrite !(upcast_not_int missed ((λ r, CFloat (row_coeff r)) <$> rows))
    by (by apply is_int_column_fmap).
  rewrite !provenance_cells. do 4 f_equal.
  unfold upcast. rewrite is_int_column_sites by done.
  assert (missed && forallb (λ r, match row_act_name r with
                                  | ActInt _ => true | ActStr _ => false end) rows
          = sites_as_floats rows zs) as ->.
  { unfold sites_as_floats, missed. rewrite andb_comm. f_equal.
    apply bool_decide_ext. rewrite !Exists_exists.
    split; intros (z & ? & ?); exists z; (split; [done|]); by apply matched_row_None. }
  rewrite site_cells, provenance_cells.
  apply list_fmap_ext. intros i z _.
  destruct (provenance_row rows z) as [r|]; [|done]. simpl.
  destruct (sites_as_floats rows zs), (row_act_name r); done.
Qed.

Lemma provenance_column_names (rows : list Row) (name : string) :
  name ∈ column_names (pd_DataFrame rows) →
  name ∈ ["rich_prompts"; "phrases"; "act_name"; "coeff"]%string.
Proof. destruct rows; [by intros ?%elem_of_nil|done]. Qed.

Lemma mean_columns_names {K : Type} `{EqDecision K} by_ df (keys groups : list K) :
  (mean_columns by_ df keys groups).*1 = (value_columns by_ df).*1.
Proof. unfold mean_columns. rewrite <- list_fmap_compose. done. Qed.

Lemma value_columns_spec by_ df name cells :
  (name, cells) ∈ value_columns by_ df
  ↔ (name, cells) ∈ columns df ∧ (name ∉ by_) ∧ is_numeric cells = true.
Proof.
  unfold value_columns. rewrite list_elem_of_filter. simpl.
  rewrite andb_true_iff, bool_decide_eq_true. tauto.
Qed.

Lemma value_columns_not_key by_ df name :
  name ∈ by_ → name ∉ (value_columns by_ df).*1.
Proof.
  intros Hkey ((n & cells) & -> & Hin)%list_elem_of_fmap.
  apply value_columns_spec in Hin as (_ & Hno & _). done.
Qed.


Lemma forallb_fmap_true {A B : Type} (f : B → bool) (g : A → B) (l : list A) :
  (∀ x, f (g x) = true) → forallb f (g <$> l) = true.
Proof. intros H. induction l as [|x l IH]; [done|]. simpl. rewrite H. exact IH. Qed.

#[local] Instance prompt_key_inj : Inj (=) (=) (λ p : string, [CStr p]).
Proof. by intros p q [= ->]. Qed.

#[local] Instance pair_key_inj :
  Inj (=) (=) (λ pz : string * Z, [CStr pz.1; CInt pz.2]).
Proof. intros [p z] [q y] [= -> ->]. done. Qed.

(** The reduced tables of the example, computed. *)
Example reduce_sweep_results_example :
  reduce_sweep_results Examples.normal_results Examples.patched_results
    (pd_DataFrame Examples.scenario_rows)
  = Ok ({| index_names := [Some "prompts"%string];
           index := [[CStr "a"]; [CStr "p"]];
           columns :=
             [ ("completion_index"%string, [CFloat 0; CFloat (1 # 2)]);
               ("loss"%string, [CFloat 1; CFloat 1]) ] |},
        {| index_names := [None];
           index := RangeIndex 4;
           columns :=
             ("prompts"%string, CStr <$> ["a"; "a"; "p"; "p"]%string)
             :: ("rich_prompt_index"%string, CInt <$> [0; 1; 0; 1])
             :: ("completion_index"%string,
                 [CFloat 0; CFloat (3 # 2); CFloat 2; CFloat (1 # 2)])
             :: ("loss"%string, [CFloat 2; CFloat (7 # 2); CFloat 1; CFloat 1])
             :: provenance_columns Examples.scenario_rows [0; 1; 0; 1] |}).
Proof. vm_compute. reflexivity. Qed.

(** * Further properties of [make_rich_prompts] *)

Lemma for_extend_app {A C : Type} (f : A → result (list C)) (l1 l2 : list A) :
  for_extend (l1 ++ l2) f
  = ys ← for_extend l1 f; zs ← for_extend l2 f; Ok (ys ++ zs).
Proof.
  induction l1 as [|x l1 IH]; simpl.
  - by destruct (for_extend l2 f).
  - destruct (f x) as [xs|e]; simpl; [|done]. rewrite IH.
    destruct (for_extend l1 f) as [ys|e]; simpl; [|done].
    destruct (for_extend l2 f) as [zs|e]; simpl; [|done].
    by rewrite app_assoc.
Qed.

Lemma make_rows_raises_at phrases act_names coeffs pad model e :
  make_rows phrases act_names coeffs pad model = Raise e →
  ∃ phrases_this act_name coeff,
    phrases_this ∈ phrases ∧ act_name ∈ act_names ∧ coeff ∈ coeffs
    ∧ rich_prompts_for pad model phrases_this act_name coeff = Raise e.
Proof.
  unfold make_rows. intros H.
  apply for_extend_raise_inv in H as (phrases_this & Hg & H).
  apply for_extend_raise_inv in H as (act_name & Hs & H).
  apply for_extend_raise_inv in H as (coeff & Hc & H).
  exists phrases_this, act_name, coeff. split_and!; [done..|].
  revert H. destruct (rich_prompts_for _ _ _ _ _); simpl;
    [discriminate|by intros [= ->]].
Qed.

Lemma make_rows_empty_group model phrases act_names coeffs :
  [] ∈ phrases → act_names ≠ [] → coeffs ≠ [] →
  make_rows phrases act_names coeffs true (Some model)
  = Raise (ValueError "max() arg is an empty sequence").
Proof.
  intros Hin Hsites Hcoeffs. unfold make_rows.
  apply for_extend_raises.
  - intros phrases_this _. destruct phrases_this as [|pi l].
    + left. destruct act_names as [|a sites]; [done|].
      destruct coeffs as [|c cs]; [done|]. reflexivity.
    + right. apply for_extend_total. intros act_name _.
      apply for_extend_total. intros coeff _.
      destruct (rich_prompts_for_total_padded model (pi :: l) act_name coeff)
        as [rps ->]; [done|]. simpl. eauto.
  - exists []. split; [done|].
    destruct act_names as [|a sites]; [done|].
    destruct coeffs as [|c cs]; [done|]. reflexivity.
Qed.

(** X1.  The builder raises in exactly two situations: padding without a
    model, which is the assertion error, and padding with a model over a
    specification that has an empty phrase group, a site and a coefficient,
    which is the error of [max] on an empty list.  No other exception leaves
    it, and in every other situation it returns a table. *)
Theorem make_rich_prompts_raises_iff
    (phrases : list (list (string * Q))) (act_names : list ActName) (coeffs : list Q)
    (pad : bool) (model : option HookedTransformer) (e : exn) :
  make_rich_prompts phrases act_names coeffs pad model = Raise e
  ↔ (pad = true ∧ model = None
     ∧ e = AssertionError "model must be provided if pad==True")
    ∨ (pad = true ∧ is_Some model ∧ [] ∈ phrases ∧ act_names ≠ [] ∧ coeffs ≠ []
       ∧ e = ValueError "max() arg is an empty sequence").
Proof.
  split.
  - unfold make_rich_prompts. destruct pad, model as [model|]; simpl.
    + destruct (make_rows _ _ _ _ _) as [rows|e'] eqn:Hrows; simpl; [done|].
      intros [= ->].
      apply make_rows_raises_at in Hrows as (g & a & c & Hg & Ha & Hc & Hraise).
      apply rich_prompts_for_raises in Hraise
        as [(_ & [=] & _)|(_ & -> & ->)].
      right. split_and!; [done|by eexists|done| | |done].
      * intros ->. by apply elem_of_nil in Ha.
      * intros ->. by apply elem_of_nil in Hc.
    + intros [= <-]. by left.
    + destruct (make_rows_total phrases act_names coeffs false (Some model))
        as [rows ->]; [|done].
      intros. apply rich_prompts_for_total_unpadded.
    + destruct (make_rows_total phrases act_names coeffs false None)
        as [rows ->]; [|done].
      intros. apply rich_prompts_for_total_unpadded.
  - intros [(-> & -> & ->)|(-> & [m ->] & Hin & Hs & Hc & ->)]; [done|].
    rewrite make_rich_prompts_padded_assert.
    by rewrite make_rows_empty_group.
Qed.

Lemma pd_DataFrame_columns_length (rows : list Row) :
  Forall (λ nc, length nc.2 = nrows (pd_DataFrame rows)) (columns (pd_DataFrame rows)).
Proof.
  destruct (decide (rows = [])) as [->|Hne]; [constructor|].
  rewrite nrows_pd_DataFrame, columns_pd_DataFrame by done.
  repeat constructor; simpl; apply length_fmap.
Qed.

(** X2.  What the table of the builder looks like.  An empty specification
    (no phrase group, no site or no coefficient) gives a table with no row and
    no column at all, so that it has no ["rich_prompts"] column to sweep over;
    any other gives the four columns [rich_prompts], [phrases], [act_name] and
    [coeff] under a [RangeIndex], each with one cell per row. *)
Theorem make_rich_prompts_table
    (phrases : list (list (string * Q))) (act_names : list ActName) (coeffs : list Q)
    (pad : bool) (model : option HookedTransformer) (df : DataFrame) :
  make_rich_prompts phrases act_names coeffs pad model = Ok df →
  let n := (length phrases * length act_names * length coeffs)%nat in
  (n = 0%nat →
   df = {| index_names := [None]; index := []; columns := [] |}
   ∧ column "rich_prompts" df = None
   ∧ rich_prompts_column df = [])
  ∧ (n ≠ 0%nat →
     column_names df = ["rich_prompts"; "phrases"; "act_name"; "coeff"]%string
     ∧ index_names df = [None]
     ∧ index df = RangeIndex n
     ∧ Forall (λ nc, length nc.2 = n) (columns df)
     ∧ length (rich_prompts_column df) = n).
Proof.
  intros Hdf n.
  apply make_rich_prompts_rows in Hdf as (rows & Hrows & ->).
  apply make_rows_spec, Forall2_length in Hrows.
  rewrite cross_product_length in Hrows. fold n in Hrows.
  split; intros Hn.
  - destruct rows; [done|]. simpl in Hrows. lia.
  - assert (rows ≠ []) as Hne by (intros ->; simpl in *; lia).
    pose proof (pd_DataFrame_columns_length rows) as Hwf.
    rewrite nrows_pd_DataFrame, <- Hrows in Hwf.
    split_and!; [..|done|].
    + unfold column_names. by rewrite columns_pd_DataFrame.
    + by destruct rows.
    + by rewrite index_pd_DataFrame, Hrows.
    + unfold rich_prompts_column, column. rewrite columns_pd_DataFrame by done.
      simpl. rewrite Hrows. clear. induction rows as [|r rows IH]; [done|].
      rewrite fmap_cons, bind_cons. simpl. by rewrite IH.
Qed.

Lemma make_rich_prompts_table_witness :
  let n := (1 * 2 * 2)%nat in
  ∃ df,
    make_rich_prompts Examples.scenario_phrases Examples.scenario_act_names
      Examples.scenario_coeffs false None = Ok df
    ∧ (n = 0%nat →
       df = {| index_names := [None]; index := []; columns := [] |}
       ∧ column "rich_prompts" df = None
       ∧ rich_prompts_column df = [])
    ∧ (n ≠ 0%nat →
       column_names df = ["rich_prompts"; "phrases"; "act_name"; "coeff"]%string
       ∧ index_names df = [None]
       ∧ index df = RangeIndex n
       ∧ Forall (λ nc, length nc.2 = n) (columns df)
       ∧ length (rich_prompts_column df) = n).
Proof.
  intros n. eexists. split; [reflexivity|].
  apply (make_rich_prompts_table Examples.scenario_phrases
           Examples.scenario_act_names Examples.scenario_coeffs false None).
  reflexivity.
Defined.

Lemma rich_prompts_for_unpadded_content model phrases_this act_name coeff rps :
  rich_prompts_for false model phrases_this act_name coeff = Ok rps →
  content <$> rps = (λ phrase_init, Prompt phrase_init.1) <$> phrases_this.
Proof.
  unfold rich_prompts_for. intros [= <-]. rewrite <- list_fmap_compose.
  apply list_fmap_ext. by intros i [phrase init_coeff] _.
Qed.

(** X3.  Without padding every descriptor carries the phrase it was made
    from as a string: the descriptors of a row are the phrases of the row's
    group, one for one and in the same order. *)
Theorem make_rich_prompts_unpadded_content
    (phrases : list (list (string * Q))) (act_names : list ActName) (coeffs : list Q)
    (model : option HookedTransformer) (df : DataFrame) :
  make_rich_prompts phrases act_names coeffs false model = Ok df →
  ∃ rows,
    df = pd_DataFrame rows
    ∧ Forall (λ row,
        content <$> row_rich_prompts row
        = (λ phrase_init, Prompt phrase_init.1) <$> row_phrases row) rows.
Proof.
  intros Hdf.
  apply make_rich_prompts_rows in Hdf as (rows & Hrows & ->).
  apply make_rows_spec in Hrows. exists rows. split; [done|].
  apply Forall_forall. intros row Hrow.
  destruct (Forall2_elem_r _ _ _ _ Hrows Hrow) as (element & _ & Hprov & Hrps).
  apply rich_prompts_for_unpadded_content in Hrps.
  by rewrite <- Hprov in Hrps.
Qed.

Lemma make_rich_prompts_unpadded_content_witness :
  ∃ df,
    make_rich_prompts Examples.anger_calm [ActInt 6] [10%Q] false None = Ok df
    ∧ ∃ rows,
        df = pd_DataFrame rows
        ∧ Forall (λ row,
            content <$> row_rich_prompts row
            = (λ phrase_init, Prompt phrase_init.1) <$> row_phrases row) rows.
Proof.
  eexists. split; [reflexivity|].
  apply (make_rich_prompts_unpadded_content Examples.anger_calm [ActInt 6]
           [10%Q] None).
  reflexivity.
Defined.

Lemma bind_singleton_fmap_cell (rows : list Row) :
  ((λ r, CRichPrompts (row_rich_prompts r)) <$> rows) ≫= (λ c,
    match c with
    | CRichPrompts l => [l]
    | _ => []
    end)
  = row_rich_prompts <$> rows.
Proof.
  induction rows as [|r rows IH]; [done|].
  rewrite !fmap_cons, bind_cons. simpl. by rewrite IH.
Qed.

(** A position in a list made of blocks of equal length. *)
Lemma lookup_bind_blocks {A B : Type} (f : A → list B) (l : list A) (n i j : nat)
    (x : A) (y : B) :
  (∀ x, length (f x) = n) →
  l !! i = Some x → f x !! j = Some y →
  (l ≫= f) !! (i * n + j)%nat = Some y.
Proof.
  intros Hlen. revert i. induction l as [|x' l IH]; intros i Hx Hy; [done|].
  rewrite bind_cons. destruct i as [|i]; simpl in *.
  - injection Hx as ->. by apply lookup_app_l_Some.
  - rewrite lookup_app_r; rewrite Hlen; [|lia].
    replace (n + i * n + j - n)%nat with (i * n + j)%nat by lia. by apply IH.
Qed.

Lemma cross_product_lookup phrases act_names coeffs gi si ci g s c :
  phrases !! gi = Some g → act_names !! si = Some s → coeffs !! ci = Some c →
  cross_product phrases act_names coeffs
    !! row_position (length act_names) (length coeffs) gi si ci
  = Some (g, s, c).
Proof.
  intros Hg Hs Hc. unfold cross_product, row_position.
  replace ((gi * length act_names + si) * length coeffs + ci)%nat
    with (gi * (length act_names * length coeffs)
          + (si * length coeffs + ci))%nat by lia.
  eapply lookup_bind_blocks; [|exact Hg|].
  - intros g'. apply length_bind_const. intros s'.
    by rewrite bind_singleton_fmap, length_fmap.
  - eapply lookup_bind_blocks; [|exact Hs|].
    + intros s'. by rewrite bind_singleton_fmap, length_fmap.
    + by rewrite bind_singleton_fmap, list_lookup_fmap, Hc.
Qed.

(** X4.  Which row belongs to which element of the specification: the
    descriptor set of the [gi]-th phrase group at the [si]-th site and the
    [ci]-th coefficient is in row [(gi * |sites| + si) * |coeffs| + ci], under
    the index label of that number; this is the number the sweeps write into
    [rich_prompt_index]. *)
Theorem make_rich_prompts_row_position
    (phrases : list (list (string * Q))) (act_names : list ActName) (coeffs : list Q)
    (pad : bool) (model : option HookedTransformer) (df : DataFrame)
    (gi si ci : nat) (g : list (string * Q)) (s : ActName) (c : Q) :
  make_rich_prompts phrases act_names coeffs pad model = Ok df →
  phrases !! gi = Some g → act_names !! si = Some s → coeffs !! ci = Some c →
  let pos := row_position (length act_names) (length coeffs) gi si ci in
  ∃ rows row,
    df = pd_DataFrame rows
    ∧ rows !! pos = Some row
    ∧ provenance row = (g, s, c)
    ∧ Forall2 (scaled_at s c) (row_rich_prompts row) g
    ∧ index df !! pos = Some [CInt (Z.of_nat pos)]
    ∧ rich_prompts_column df !! pos = Some (row_rich_prompts row).
Proof.
  intros Hdf Hg Hs Hc pos.
  apply make_rich_prompts_rows in Hdf as (rows & Hrows & ->).
  apply make_rows_spec in Hrows.
  pose proof (cross_product_lookup _ _ _ _ _ _ _ _ _ Hg Hs Hc) as Hpos.
  fold pos in Hpos.
  destruct (Forall2_lookup_l _ _ _ _ _ Hrows Hpos) as (row & Hrow & Hprov & Hrps).
  simpl in Hrps. apply rich_prompts_for_scaled in Hrps.
  assert (rows ≠ []) as Hne by (intros ->; done).
  exists rows, row. split_and!; [done..| |].
  - rewrite index_pd_DataFrame. apply RangeIndex_lookup.
    by eapply lookup_lt_Some.
  - unfold rich_prompts_column, column. rewrite columns_pd_DataFrame by done.
    simpl. rewrite bind_singleton_fmap_cell. by rewrite list_lookup_fmap, Hrow.
Qed.

Lemma make_rich_prompts_row_position_witness :
  ∃ df,
    make_rich_prompts Examples.scenario_phrases Examples.scenario_act_names
      Examples.scenario_coeffs false None = Ok df
    ∧ let pos := row_position 2 2 0 1 0 in
      ∃ rows row,
        df = pd_DataFrame rows
        ∧ rows !! pos = Some row
        ∧ provenance row = ([("A"%string, 1%Q); ("B"%string, (-1)%Q)], ActInt 5, 1%Q)
        ∧ Forall2 (scaled_at (ActInt 5) 1) (row_rich_prompts row)
            [("A"%string, 1%Q); ("B"%string, (-1)%Q)]
        ∧ index df !! pos = Some [CInt (Z.of_nat pos)]
        ∧ rich_prompts_column df !! pos = Some (row_rich_prompts row).
Proof.
  eexists. split; [reflexivity|].
  apply (make_rich_prompts_row_position Examples.scenario_phrases
           Examples.scenario_act_names Examples.scenario_coeffs false None _
           0%nat 1%nat 0%nat); reflexivity.
Defined.

Lemma rich_prompts_column_pd_DataFrame (rows : list Row) :
  rich_prompts_column (pd_DataFrame rows) = row_rich_prompts <$> rows.
Proof.
  destruct (decide (rows = [])) as [->|Hne]; [done|].
  unfold rich_prompts_column, column. rewrite columns_pd_DataFrame by done.
  simpl. apply bind_singleton_fmap_cell.
Qed.

Lemma make_rows_app phrases1 phrases2 act_names coeffs pad model :
  make_rows (phrases1 ++ phrases2) act_names coeffs pad model
  = rows1 ← make_rows phrases1 act_names coeffs pad model;
    rows2 ← make_rows phrases2 act_names coeffs pad model;
    Ok (rows1 ++ rows2).
Proof. apply for_extend_app. Qed.

(** X5.  Phrase groups may be split over two calls: when the builder returns
    for two lists of phrase groups, it returns for their concatenation, and
    the descriptor sets of that table are those of the first table followed
    by those of the second. *)
Theorem make_rich_prompts_app
    (phrases1 phrases2 : list (list (string * Q))) (act_names : list ActName)
    (coeffs : list Q) (pad : bool) (model : option HookedTransformer)
    (df1 df2 : DataFrame) :
  make_rich_prompts phrases1 act_names coeffs pad model = Ok df1 →
  make_rich_prompts phrases2 act_names coeffs pad model = Ok df2 →
  ∃ df,
    make_rich_prompts (phrases1 ++ phrases2) act_names coeffs pad model = Ok df
    ∧ rich_prompts_column df = rich_prompts_column df1 ++ rich_prompts_column df2
    ∧ nrows df = (nrows df1 + nrows df2)%nat.
Proof.
  intros H1 H2. pose proof H1 as Hassert.
  apply make_rich_prompts_rows in H1 as (rows1 & Hrows1 & ->).
  apply make_rich_prompts_rows in H2 as (rows2 & Hrows2 & ->).
  exists (pd_DataFrame (rows1 ++ rows2)). split_and!.
  - unfold make_rich_prompts in *.
    destruct (py_assert _ _); [|discriminate Hassert].
    cbn [mbind result_bind]. by rewrite make_rows_app, Hrows1, Hrows2.
  - by rewrite !rich_prompts_column_pd_DataFrame, fmap_app.
  - by rewrite !nrows_pd_DataFrame, length_app.
Qed.

Lemma make_rich_prompts_app_witness :
  ∃ df1 df2,
    make_rich_prompts Examples.anger_calm [ActInt 6] [10%Q] true
      (Some Examples.toy_model) = Ok df1
    ∧ make_rich_prompts Examples.scenario_phrases [ActInt 6] [10%Q] true
        (Some Examples.toy_model) = Ok df2
    ∧ ∃ df,
        make_rich_prompts (Examples.anger_calm ++ Examples.scenario_phrases)
          [ActInt 6] [10%Q] true (Some Examples.toy_model) = Ok df
        ∧ rich_prompts_column df
          = rich_prompts_column df1 ++ rich_prompts_column df2
        ∧ nrows df = (nrows df1 + nrows df2)%nat.
Proof.
  eexists _, _. split; [reflexivity|]. split; [reflexivity|].
  apply (make_rich_prompts_app Examples.anger_calm Examples.scenario_phrases
           [ActInt 6] [10%Q] true (Some Examples.toy_model)); reflexivity.
Defined.

Lemma Forall2_elem_l {A B : Type} (P : A → B → Prop) (l : list A) (k : list B) x :
  Forall2 P l k → x ∈ l → ∃ y, y ∈ k ∧ P x y.
Proof.
  induction 1 as [|x' y l k Hxy _ IH]; intros Hx.
  - by apply elem_of_nil in Hx.
  - apply elem_of_cons in Hx as [->|Hx].
    + exists y. split; [left|done].
    + destruct (IH Hx) as (y' & Hy' & HP). exists y'. split; [by right|done].
Qed.

Lemma squeeze_shape (tokens : list token) (max_len : Z) :
  shape_last tokens = max_len →
  tensor_shape (squeeze tokens) = if decide (max_len = 1) then [] else [max_len].
Proof.
  intros <-. destruct tokens as [|t [|t' tokens]]; simpl; try done.
  rewrite decide_False; [done|]. unfold shape_last. simpl. lia.
Qed.

(** X6.  The shape of padded tokens.  With padding, all descriptors of a row
    hold token tensors of one and the same shape: rank 1 with as many tokens as
    the longest phrase of the row's group has, unless that is a single token,
    in which case [squeeze] leaves every descriptor of the row with a tensor of
    rank 0. *)
Theorem make_rich_prompts_padded_shape (model : HookedTransformer)
    (phrases : list (list (string * Q))) (act_names : list ActName) (coeffs : list Q)
    (df : DataFrame) :
  make_rich_prompts phrases act_names coeffs true (Some model) = Ok df →
  ∃ rows,
    df = pd_DataFrame rows
    ∧ Forall (λ row, ∃ max_len,
        group_max_len model (row_phrases row) max_len
        ∧ Forall (λ rp, ∃ t,
            content rp = Tokens t
            ∧ tensor_shape t = if decide (max_len = 1) then [] else [max_len])
            (row_rich_prompts row)) rows.
Proof.
  intros Hdf.
  apply make_rich_prompts_rows in Hdf as (rows & Hrows & ->).
  apply make_rows_spec in Hrows. exists rows. split; [done|].
  apply Forall_forall. intros row Hrow.
  destruct (Forall2_elem_r _ _ _ _ Hrows Hrow) as (element & _ & Hprov & Hrps).
  apply rich_prompts_for_padded in Hrps as (max_len & Hmax & Hall).
  rewrite <- Hprov in Hmax. exists max_len. split; [done|].
  apply Forall_forall. intros rp Hrp.
  destruct (Forall2_elem_l _ _ _ _ Hall Hrp) as (pi & _ & Hlen & Hcontent).
  eexists. split; [exact Hcontent|]. by apply squeeze_shape.
Qed.

Lemma make_rich_prompts_padded_shape_witness :
  ∃ df,
    make_rich_prompts [[(""%string, 1%Q); (""%string, (-1)%Q)]] [ActInt 6] [10%Q]
      true (Some Examples.toy_model) = Ok df
    ∧ ∃ rows,
        df = pd_DataFrame rows
        ∧ Forall (λ row, ∃ max_len,
            group_max_len Examples.toy_model (row_phrases row) max_len
            ∧ Forall (λ rp, ∃ t,
                content rp = Tokens t
                ∧ tensor_shape t = if decide (max_len = 1) then [] else [max_len])
                (row_rich_prompts row)) rows.
Proof.
  eexists. split; [reflexivity|].
  apply (make_rich_prompts_padded_shape Examples.toy_model
           [[(""%string, 1%Q); (""%string, (-1)%Q)]] [ActInt 6] [10%Q]).
  reflexivity.
Defined.

(** * Further properties of [sweep_over_prompts] *)

Section completion_sweep_more.
Context {HookFn MetricsDict Kwargs : Type}.
Context `{!Collaborators HookFn MetricsDict Kwargs}.

Implicit Types w : World HookFn.

Lemma sweep_over_prompts_lists prompts n m tokens seed metrics_dict kwargs w w'
    tables :
  sweep_over_prompts prompts n m tokens seed metrics_dict kwargs w
  = (w', Ok tables) →
  ∃ lists normal_all patched_all,
    completion_lists prompts n m tokens seed kwargs w = (w', Ok lists)
    ∧ pd_concat lists.*1 ≫= reset_index (Some ["completion_index"%string])
      = Ok normal_all
    ∧ pd_concat (mjoin lists.*2) ≫= reset_index (Some ["completion_index"%string])
      = Ok patched_all.
Proof.
  unfold sweep_over_prompts. rewrite bind_run.
  destruct (completion_lists _ _ _ _ _ _ w) as [w1 [lists|e]]; [|done].
  rewrite bind_run. unfold lift at 1.
  destruct (pd_concat lists.*1 ≫= _) as [normal|e] eqn:Hnormal; [|done].
  rewrite bind_run. unfold lift at 1.
  destruct (pd_concat (mjoin lists.*2) ≫= _) as [patched|e] eqn:Hpatched; [|done].
  destruct metrics_dict as [metrics_dict|].
  - rewrite bind_run. unfold call_add_metric_cols at 1.
    destruct (add_metric_cols normal _ _ _ _) as [normal'|e]; [|done].
    rewrite bind_run. unfold call_add_metric_cols at 1.
    destruct (add_metric_cols patched _ _ _ _) as [patched'|e]; [|done].
    intros [= <- <-]. by exists lists, normal, patched.
  - intros [= <- <-]. by exists lists, normal, patched.
Qed.

(** The loop over the descriptor sets, when every generation call returns:
    one table and one generation call per set that was left, and the
    iterable read to its end. *)
Lemma enumerate_from_returns prompt m tokens seed kwargs sets rounds index cursor
    w w' frames :
  rich_prompts w = Sequence sets ∨ rich_prompts w = Iterator sets cursor →
  rounds = (length sets - cursor)%nat →
  enumerate_from rounds index cursor
    (λ index rich_prompts_this,
       patched_df ←
         call_gen_using_rich_prompts rich_prompts_this (replicate m prompt)
           tokens seed kwargs;
       mret (setitem "rich_prompt_index" (CInt (Z.of_nat index)) patched_df)) w
  = (w', Ok frames) →
  length frames = rounds
  ∧ gen_calls w' = (gen_calls w + rounds)%nat
  ∧ model_hooks w' = model_hooks w
  ∧ rich_prompts w'
    = match rich_prompts w with
      | Sequence _ => Sequence sets
      | Iterator _ _ => Iterator sets (cursor + rounds)
      end.
Proof.
  revert index cursor w frames.
  induction rounds as [|rounds IH]; intros index cursor w frames Hrp Hrounds.
  - intros [= <- <-]. split_and!; [done|simpl; lia|done|].
    destruct Hrp as [-> | ->]; [done|]. by rewrite Nat.add_0_r.
  - assert (items (rich_prompts w) = sets) as Hitems.
    { by destruct Hrp as [-> | ->]. }
    destruct (lookup_lt_is_Some_2 sets cursor) as [x Hx]; [lia|].
    cbn [enumerate_from]. rewrite Hitems, Hx.
    rewrite bind_run, bind_run. unfold call_gen_using_rich_prompts at 1.
    cbn [gen_calls model_hooks rich_prompts].
    destruct (gen_using_rich_prompts x _ _ _ _ _) as [df|e]; [|done].
    cbn [mret M_ret]. rewrite bind_run.
    match goal with
    | |- context [enumerate_from rounds (S index) (S cursor) ?b ?w1] =>
      destruct (enumerate_from rounds (S index) (S cursor) b w1)
        as [w2 [ys|e]] eqn:Hrest; [|done]
    end.
    intros [= <- <-]. apply IH in Hrest as (Hlen & Hcalls & Hhooks & Hrp').
    + cbn [gen_calls model_hooks rich_prompts] in *.
      split_and!; [simpl; lia|lia|done|].
      rewrite Hrp'. destruct Hrp as [-> | ->]; simpl; [done|]. f_equal. lia.
    + cbn [rich_prompts]. destruct Hrp as [-> | ->]; [by left|by right].
    + lia.
Qed.

Lemma for_enumerate_returns prompt m tokens seed kwargs w w' frames :
  for_enumerate
    (λ index rich_prompts_this,
       patched_df ←
         call_gen_using_rich_prompts rich_prompts_this (replicate m prompt)
           tokens seed kwargs;
       mret (setitem "rich_prompt_index" (CInt (Z.of_nat index)) patched_df)) w
  = (w', Ok frames) →
  length frames = length (remaining (rich_prompts w))
  ∧ gen_calls w' = (gen_calls w + length frames)%nat
  ∧ model_hooks w' = model_hooks w
  ∧ rich_prompts w' = after_loop (rich_prompts w).
Proof.
  unfold for_enumerate, remaining. intros Hrun.
  apply (enumerate_from_returns _ _ _ _ _ (items (rich_prompts w))) in Hrun
    as (Hlen & Hcalls & Hhooks & Hrp); [| |done].
  - rewrite length_drop. split_and!; [done|lia|done|].
    rewrite Hrp. destruct (rich_prompts w) as [l|l pos]; simpl; [done|].
    f_equal. lia.
  - destruct (rich_prompts w); [by left|by right].
Qed.

(** One round of the loop over the prompts, when it returns. *)
Lemma prompt_round_returns prompt n m tokens seed kwargs w w' tables :
  (normal_df ←
     call_gen_using_hooks (replicate n prompt) [] tokens seed kwargs;
   patched ← for_enumerate (λ index rich_prompts_this,
     patched_df ←
       call_gen_using_rich_prompts rich_prompts_this (replicate m prompt)
         tokens seed kwargs;
     mret (setitem "rich_prompt_index" (CInt (Z.of_nat index)) patched_df));
   mret (normal_df, patched)) w = (w', Ok tables) →
  length tables.2 = length (remaining (rich_prompts w))
  ∧ gen_calls w' = (gen_calls w + 1 + length tables.2)%nat
  ∧ model_hooks w' = model_hooks w
  ∧ rich_prompts w' = after_loop (rich_prompts w).
Proof.
  rewrite bind_run. unfold call_gen_using_hooks at 1.
  destruct (gen_using_hooks _ _ _ _ _ _) as [normal_df|e]; [|done].
  rewrite bind_run.
  match goal with
  | |- context [for_enumerate ?b ?w1] =>
    destruct (for_enumerate b w1) as [w2 [frames|e]] eqn:Hloop; [|done]
  end.
  intros [= <- <-].
  apply for_enumerate_returns in Hloop as (Hlen & Hcalls & Hhooks & Hrp).
  cbn [gen_calls model_hooks rich_prompts fst snd] in *.
  split_and!; [done|lia|done|done].
Qed.

(** The loop over the prompts, when it returns, on an iterable that a loop
    leaves as it is. *)
Lemma completion_lists_returns_stable prompts n m tokens seed kwargs w w' lists :
  after_loop (rich_prompts w) = rich_prompts w →
  completion_lists prompts n m tokens seed kwargs w = (w', Ok lists) →
  length lists = length prompts
  ∧ Forall (λ tables, length tables.2 = length (remaining (rich_prompts w))) lists
  ∧ gen_calls w'
    = (gen_calls w + length prompts * (1 + length (remaining (rich_prompts w))))%nat
  ∧ model_hooks w' = model_hooks w
  ∧ rich_prompts w' = rich_prompts w.
Proof.
  revert w lists. induction prompts as [|prompt prompts IH]; intros w lists Hstable.
  - intros [= <- <-]. split_and!; [done|constructor|simpl; lia|done..].
  - unfold completion_lists. cbn [for_append]. rewrite bind_run.
    match goal with
    | |- context [mbind ?k ?c w] =>
      destruct (mbind k c w) as [w1 [tables|e]] eqn:Hround; [|done]
    end.
    apply prompt_round_returns in Hround as (Hlen & Hcalls & Hhooks & Hrp).
    rewrite Hstable in Hrp. rewrite bind_run.
    match goal with
    | |- context [for_append prompts ?f w1] =>
      destruct (for_append prompts f w1) as [w2 [rest|e]] eqn:Hrest; [|done]
    end.
    intros [= <- <-].
    apply IH in Hrest as (Hlen' & Hall & Hcalls' & Hhooks' & Hrp');
      [|by rewrite Hrp].
    rewrite Hrp in Hall, Hcalls'.
    split_and!; [simpl; lia|by constructor| |congruence..].
    rewrite Hcalls', Hcalls, Hlen. simpl. lia.
Qed.

(** The loop over the prompts, when it returns: the first round is handed
    what the iterable has left, the later ones what a finished loop
    leaves. *)
Lemma completion_lists_returns prompt prompts n m tokens seed kwargs w w' lists :
  completion_lists (prompt :: prompts) n m tokens seed kwargs w = (w', Ok lists) →
  ∃ first rest,
    lists = first :: rest
    ∧ length rest = length prompts
    ∧ length first.2 = length (remaining (rich_prompts w))
    ∧ Forall (λ tables,
        length tables.2 = length (remaining (after_loop (rich_prompts w)))) rest
    ∧ gen_calls w'
      = (gen_calls w + 1 + length (remaining (rich_prompts w))
         + length prompts * (1 + length (remaining (after_loop (rich_prompts w)))))%nat
    ∧ model_hooks w' = model_hooks w
    ∧ rich_prompts w' = after_loop (rich_prompts w).
Proof.
  unfold completion_lists. cbn [for_append]. rewrite bind_run.
  match goal with
  | |- context [mbind ?k ?c w] =>
    destruct (mbind k c w) as [w1 [tables|e]] eqn:Hround; [|done]
  end.
  apply prompt_round_returns in Hround as (Hlen & Hcalls & Hhooks & Hrp).
  rewrite bind_run.
  match goal with
  | |- context [for_append prompts ?f w1] =>
    destruct (for_append prompts f w1) as [w2 [rest|e]] eqn:Hrest; [|done]
  end.
  intros [= <- <-].
  apply completion_lists_returns_stable in Hrest
    as (Hlen' & Hall & Hcalls' & Hhooks' & Hrp');
    [|rewrite Hrp; apply after_loop_idemp].
  rewrite Hrp in Hall, Hcalls', Hrp'.
  exists tables, rest. split_and!; [done..| |congruence|congruence].
  rewrite Hcalls', Hcalls, Hlen. lia.
Qed.

Lemma remaining_nil_stable (it : Iterable) :
  remaining it = [] → after_loop it = it.
Proof.
  destruct it as [l|l pos]; [done|]. unfold remaining. simpl. intros Hdrop.
  apply (f_equal length) in Hdrop. rewrite length_drop in Hdrop. simpl in Hdrop.
  f_equal. lia.
Qed.

(** X7.  A completion sweep that has no descriptor set to iterate over, a
    sequence without sets or an iterator that is used up, never returns
    tables: whatever the prompts and the metrics, it raises.  Without prompts
    it raises [ValueError] at once, before any generation; when generation
    answers as specified it raises that [ValueError] after one baseline
    generation per prompt. *)
Theorem sweep_over_prompts_nothing_to_sweep :
  ∀ w prompts num_normal_completions num_patched_completions tokens_to_generate
    seed metrics_dict sampling_kwargs,
    sweep_over_prompts [] num_normal_completions num_patched_completions
      tokens_to_generate seed metrics_dict sampling_kwargs w
    = (w, Raise (ValueError "No objects to concatenate"))
    ∧ (remaining (rich_prompts w) = [] →
       ∃ w' e,
         sweep_over_prompts prompts num_normal_completions
           num_patched_completions tokens_to_generate seed metrics_dict
           sampling_kwargs w
         = (w', Raise e)
         ∧ (GenerationContract Collaborators0 →
            e = ValueError "No objects to concatenate"
            ∧ gen_calls w' = (gen_calls w + length prompts)%nat
            ∧ rich_prompts w' = rich_prompts w)).
Proof.
  intros w prompts n m tokens seed metrics_dict kwargs. split; [done|].
  intros Hnone. pose proof (remaining_nil_stable _ Hnone) as Hstable.
  unfold sweep_over_prompts. rewrite bind_run.
  destruct (completion_lists prompts n m tokens seed kwargs w)
    as [w1 [lists|e]] eqn:Hlists.
  - pose proof Hlists as Hlists'.
    apply completion_lists_returns_stable in Hlists
      as (Hlen & Hall & Hcalls & _ & Hrp); [|done].
    rewrite Hnone in Hall, Hcalls. simpl in Hcalls.
    assert (mjoin lists.*2 = []) as Hnil.
    { apply join_nil_2. apply Forall_fmap. eapply Forall_impl; [exact Hall|].
      intros [? [|??]]; done. }
    rewrite bind_run. unfold lift at 1.
    destruct (pd_concat lists.*1 ≫= _) as [normal|e] eqn:Hnormal.
    + rewrite bind_run. unfold lift at 1. rewrite Hnil.
      eexists _, _. split; [reflexivity|]. intros _. split_and!; [done|lia|done].
    + eexists _, _. split; [reflexivity|]. intros Hcontract.
      destruct prompts as [|prompt prompts].
      * destruct lists; [|done]. simpl in Hnormal. injection Hnormal as <-.
        split_and!; [done|simpl in *; lia|done].
      * destruct (completion_lists_stable n m tokens seed kwargs (prompt :: prompts) w)
          as (w2 & lists2 & Hrun & Hrounds & _ & _); [done|].
        rewrite Hrun in Hlists'. injection Hlists' as <- <-.
        destruct (prompt_rounds_rows _ _ _ _ _ _ _ _ Hrounds) as (H1 & _ & _).
        destruct (rows_of_prompt_concat n (prompt :: prompts) lists2.*1)
          as (normal_all & Hrun1 & _); [done|done|].
        congruence.
  - eexists _, _. split; [reflexivity|]. intros Hcontract.
    destruct (completion_lists_stable n m tokens seed kwargs prompts w)
      as (w2 & lists2 & Hrun & _); [done|]. congruence.
Qed.

(** X8.  A completion sweep that returns has made one baseline generation
    per prompt and one patched generation per descriptor set it was handed:
    over a sequence of sets that is every set for every prompt, over an
    iterator only what the iterator had left, once.  It leaves a sequence
    as it was and an iterator used up. *)
Theorem sweep_over_prompts_generation_calls :
  ∀ w w' prompts num_normal_completions num_patched_completions
    tokens_to_generate seed metrics_dict sampling_kwargs tables,
    sweep_over_prompts prompts num_normal_completions num_patched_completions
      tokens_to_generate seed metrics_dict sampling_kwargs w
    = (w', Ok tables) →
    (∀ sets, rich_prompts w = Sequence sets →
       gen_calls w' = (gen_calls w + length prompts * (1 + length sets))%nat
       ∧ rich_prompts w' = Sequence sets)
    ∧ (∀ sets pos, rich_prompts w = Iterator sets pos →
         gen_calls w' = (gen_calls w + length prompts + (length sets - pos))%nat
         ∧ rich_prompts w' = Iterator sets (pos `max` length sets)).
Proof.
  intros w w' prompts n m tokens seed metrics_dict kwargs tables Hrun.
  apply sweep_over_prompts_lists in Hrun as (lists & normal & patched & Hlists & Hn & _).
  destruct prompts as [|prompt prompts].
  { injection Hlists as <- <-. done. }
  apply completion_lists_returns in Hlists
    as (first & rest & -> & Hlen & Hfirst & Hrest & Hcalls & _ & Hrp).
  split.
  - intros sets Hw. rewrite Hw in Hcalls, Hrp. simpl in Hrp.
    change (remaining (after_loop (Sequence sets))) with sets in Hcalls.
    change (remaining (Sequence sets)) with sets in Hcalls. split; [|done].
    rewrite Hcalls. simpl. lia.
  - intros sets pos Hw. rewrite Hw in Hcalls, Hrp.
    rewrite remaining_after_loop_Iterator in Hcalls. split; [|done].
    rewrite Hcalls. unfold remaining. rewrite length_drop. simpl. lia.
Qed.
End completion_sweep_more.

Lemma sweep_over_prompts_nothing_to_sweep_witness :
  ∃ w' e,
    sweep_over_prompts (Collaborators0 := Examples.toy_collaborators)
      ["I think you're"%string; "Shrek starts off"%string] 3 2 40 (Some 1) None tt
      {| model_hooks := []; rich_prompts := Iterator Examples.scenario_sets 4;
         gen_calls := 0 |}
    = (w', Raise e)
    ∧ e = ValueError "No objects to concatenate"
    ∧ gen_calls w' = 2%nat
    ∧ rich_prompts w' = Iterator Examples.scenario_sets 4.
Proof.
  destruct (proj2 (sweep_over_prompts_nothing_to_sweep
                     (Collaborators0 := Examples.toy_collaborators)
                     {| model_hooks := []; rich_prompts := Iterator Examples.scenario_sets 4;
                        gen_calls := 0 |}
                     ["I think you're"%string; "Shrek starts off"%string] 3%nat 2%nat
                     40%nat (Some 1) None tt) eq_refl)
    as (w' & e & Hrun & Hcontract).
  exists w', e. split; [exact Hrun|]. exact (Hcontract toy_generation_contract).
Defined.

Lemma sweep_over_prompts_generation_calls_witness :
  ∃ w' tables,
    sweep_over_prompts (Collaborators0 := Examples.toy_collaborators)
      ["I think you're"%string; "Shrek starts off"%string] 3 2 40 (Some 1) None tt
      Examples.scenario_world
    = (w', Ok tables)
    ∧ gen_calls w' = 10%nat
    ∧ rich_prompts w' = Sequence Examples.scenario_sets.
Proof.
  assert (∃ w' tables,
            sweep_over_prompts (Collaborators0 := Examples.toy_collaborators)
              ["I think you're"%string; "Shrek starts off"%string] 3 2 40 (Some 1)
              None tt Examples.scenario_world
            = (w', Ok tables)) as (w' & tables & Hrun).
  { eexists _, _. vm_compute. reflexivity. }
  exists w', tables. split; [exact Hrun|].
  exact (proj1 (sweep_over_prompts_generation_calls
                  (Collaborators0 := Examples.toy_collaborators)
                  _ _ _ _ _ _ _ _ _ _ Hrun) Examples.scenario_sets eq_refl).
Defined.

(** ** The trial numbers of a completion sweep *)

Lemma concat_reset_index_labels (name : string) (frames : list DataFrame)
    (all : DataFrame) :
  Forall (λ df, index_names df = [None] ∧ name ∉ column_names df) frames →
  pd_concat frames ≫= reset_index (Some [name]) = Ok all →
  index_names all = [None]
  ∧ index all = RangeIndex (length (frames ≫= index))
  ∧ column name all
    = Some ((λ label, default CNaN (label !! 0%nat)) <$> (frames ≫= index)).
Proof.
  intros Hall. destruct frames as [|df0 frames]; [done|].
  assert (name ∉ first_appearance ((df0 :: frames) ≫= column_names)) as Hfresh.
  { rewrite elem_of_first_appearance, list_elem_of_bind.
    intros (df & Hdf & Hin).
    by apply (proj1 (Forall_forall _ _) Hall df) in Hin as [_ Hno]. }
  assert (index_names df0 = [None]) as Hnames.
  { by apply Forall_cons in Hall as [[? _] _]. }
  destruct (pd_concat_cons df0 frames) as (names & Hlen & ->).
  rewrite Hnames in Hlen.
  unfold mbind at 1, result_bind. rewrite reset_index_single; [|done|].
  - intros [= <-]. split_and!; [done|done|].
    unfold column. simpl. by rewrite String.eqb_refl.
  - unfold column_names. simpl columns. by rewrite fmap_fst_names.
Qed.

Lemma RangeIndex_labels (n : nat) :
  (λ label, default CNaN (label !! 0%nat)) <$> RangeIndex n = trial_numbers n.
Proof. unfold RangeIndex, trial_numbers. by rewrite <- list_fmap_compose. Qed.

Lemma labels_Forall2 {A : Type} (n : nat) (xs : list A) (frames : list DataFrame) :
  Forall2 (λ _ df, index df = RangeIndex n) xs frames →
  (λ label, default CNaN (label !! 0%nat)) <$> (frames ≫= index)
  = xs ≫= (λ _, trial_numbers n).
Proof.
  induction 1 as [|x df xs frames Hdf _ IH]; [done|].
  rewrite !bind_cons, fmap_app, IH, Hdf, RangeIndex_labels. done.
Qed.

Section trial_numbers.
Context {HookFn MetricsDict Kwargs : Type}.
Context `{!Collaborators HookFn MetricsDict Kwargs}.

Implicit Types w : World HookFn.

Lemma sweep_over_prompts_inv prompts n m tokens seed kwargs w w' normal_all
    patched_all :
  sweep_over_prompts prompts n m tokens seed None kwargs w
  = (w', Ok (normal_all, patched_all)) →
  ∃ lists,
    completion_lists prompts n m tokens seed kwargs w = (w', Ok lists)
    ∧ pd_concat lists.*1 ≫= reset_index (Some ["completion_index"%string])
      = Ok normal_all
    ∧ pd_concat (mjoin lists.*2) ≫= reset_index (Some ["completion_index"%string])
      = Ok patched_all.
Proof.
  unfold sweep_over_prompts. rewrite bind_run.
  destruct (completion_lists _ _ _ _ _ _ w) as [w1 [lists|e]]; [|done].
  rewrite bind_run. unfold lift at 1.
  destruct (pd_concat lists.*1 ≫= _) as [normal|e] eqn:Hnormal; [|done].
  rewrite bind_run. unfold lift at 1.
  destruct (pd_concat (mjoin lists.*2) ≫= _) as [patched|e] eqn:Hpatched; [|done].
  intros [= <- <- <-]. by exists lists.
Qed.

Lemma normal_frame_index n tokens seed kwargs prompt df :
  normal_frame n tokens seed kwargs prompt df → index df = RangeIndex n.
Proof.
  intros (calls & _ & _ & Hindex & _). by rewrite length_replicate in Hindex.
Qed.

Lemma patched_frames_index n tokens seed kwargs prompt index_ sets frames :
  patched_frames n tokens seed kwargs prompt index_ sets frames →
  Forall2 (λ _ df, index df = RangeIndex n)
    ((λ i, (prompt, i)) <$> seq index_ (length sets)) frames.
Proof.
  revert index_ frames.
  induction sets as [|x sets IH]; intros index_ [|df frames] H; simpl in *;
    [constructor|done|done|].
  destruct H as [(calls & df0 & _ & (_ & Hindex & _) & ->) Hrest].
  constructor; [|by apply IH].
  simpl. by rewrite length_replicate in Hindex.
Qed.

Lemma prompt_rounds_index n m tokens seed kwargs sets prompts lists :
  Forall2 (prompt_round n m tokens seed kwargs sets) prompts lists →
  Forall2 (λ _ df, index df = RangeIndex n) prompts lists.*1
  ∧ Forall2 (λ _ df, index df = RangeIndex m) (sweep_pairs prompts sets)
      (mjoin lists.*2).
Proof.
  induction 1 as [|prompt tables prompts lists [Hnormal Hpatched] _ (IH1 & IH2)].
  - by split; constructor.
  - apply normal_frame_index in Hnormal. apply patched_frames_index in Hpatched.
    split; [by constructor|].
    unfold sweep_pairs. rewrite bind_cons. simpl. apply Forall2_app; [|done].
    by rewrite bind_singleton_fmap.
Qed.

Context `{!GenerationContract Collaborators0}.

(** X9.  The trial numbers of a completion sweep.  When generation answers
    as specified, the column [completion_index] of a sweep without metrics
    over a sequence of descriptor sets counts the trials of every prompt, and
    of every (prompt, descriptor set) pair, from 0: it is 0, ..., N - 1 once
    per prompt in the baseline table and 0, ..., M - 1 once per pair in the
    patched table, and both tables come back under a fresh [RangeIndex]. *)
Theorem sweep_over_prompts_completion_index :
  ∀ w w' sets prompts num_normal_completions num_patched_completions
    tokens_to_generate seed sampling_kwargs normal_all patched_all,
    rich_prompts w = Sequence sets →
    sweep_over_prompts prompts num_normal_completions num_patched_completions
      tokens_to_generate seed None sampling_kwargs w
    = (w', Ok (normal_all, patched_all)) →
    column "completion_index" normal_all
    = Some (prompts ≫= (λ _, trial_numbers num_normal_completions))
    ∧ column "completion_index" patched_all
      = Some (sweep_pairs prompts sets
                ≫= (λ _, trial_numbers num_patched_completions))
    ∧ index normal_all = RangeIndex (length prompts * num_normal_completions)
    ∧ index patched_all
      = RangeIndex (length prompts * length sets * num_patched_completions).
Proof.
  intros w w' sets prompts n m tokens seed kwargs normal_all patched_all Hw Hrun.
  apply sweep_over_prompts_inv in Hrun as (lists & Hlists & Hnormal & Hpatched).
  destruct (completion_lists_stable n m tokens seed kwargs prompts w)
    as (w2 & lists2 & Hrun & Hrounds & _ & _); [by rewrite Hw|].
  rewrite Hrun in Hlists. injection Hlists as -> ->.
  rewrite Hw, remaining_Sequence in Hrounds.
  destruct (prompt_rounds_rows _ _ _ _ _ _ _ _ Hrounds) as (H1 & _ & H3).
  destruct (prompt_rounds_index _ _ _ _ _ _ _ _ Hrounds) as (I1 & I3).
  apply concat_reset_index_labels in Hnormal as (_ & Hindex1 & Hcol1).
  2:{ apply Forall_forall. intros df Hdf.
      by destruct (Forall2_elem_r _ _ _ _ H1 Hdf) as (p & _ & ? & ? & _). }
  apply concat_reset_index_labels in Hpatched as (_ & Hindex2 & Hcol2).
  2:{ apply Forall_forall. intros df Hdf.
      by destruct (Forall2_elem_r _ _ _ _ H3 Hdf) as (p & _ & (? & ? & _) & _). }
  rewrite (labels_Forall2 _ _ _ I1) in Hcol1.
  rewrite (labels_Forall2 _ _ _ I3) in Hcol2.
  split_and!; [done|done| |].
  - rewrite Hindex1. f_equal. rewrite (nrows_concat n).
    + by rewrite <- (Forall2_length _ _ _ H1).
    + apply Forall_forall. intros df Hdf.
      by destruct (Forall2_elem_r _ _ _ _ H1 Hdf) as (p & _ & _ & _ & ? & _).
  - rewrite Hindex2. f_equal. rewrite (nrows_concat m).
    + by rewrite <- (Forall2_length _ _ _ H3), sweep_pairs_length.
    + apply Forall_forall. intros df Hdf.
      by destruct (Forall2_elem_r _ _ _ _ H3 Hdf) as (p & _ & (_ & _ & ? & _) & _).
Qed.
End trial_numbers.

Lemma sweep_over_prompts_completion_index_witness :
  ∃ w' normal_all patched_all,
    sweep_over_prompts (Collaborators0 := Examples.toy_collaborators)
      ["I think you're"%string; "Shrek starts off"%string] 3 2 40 (Some 1) None tt
      Examples.scenario_world
    = (w', Ok (normal_all, patched_all))
    ∧ column "completion_index" normal_all = Some (CInt <$> [0; 1; 2; 0; 1; 2])
    ∧ column "completion_index" patched_all
      = Some (CInt <$> [0; 1; 0; 1; 0; 1; 0; 1; 0; 1; 0; 1; 0; 1; 0; 1])
    ∧ index normal_all = RangeIndex 6
    ∧ index patched_all = RangeIndex 16.
Proof.
  assert (∃ w' normal_all patched_all,
            sweep_over_prompts (Collaborators0 := Examples.toy_collaborators)
              ["I think you're"%string; "Shrek starts off"%string] 3 2 40 (Some 1)
              None tt Examples.scenario_world
            = (w', Ok (normal_all, patched_all)))
    as (w' & normal_all & patched_all & Hrun).
  { eexists _, _, _. vm_compute. reflexivity. }
  exists w', normal_all, patched_all. split; [exact Hrun|].
  exact (sweep_over_prompts_completion_index
           (Collaborators0 := Examples.toy_collaborators)
           (GenerationContract0 := toy_generation_contract)
           Examples.scenario_world _ Examples.scenario_sets _ _ _ _ _ _ _ _
           eq_refl Hrun).
Defined.

(** * Further properties of [sweep_over_metrics] *)

Section metric_sweep.
Context {HookFn MetricsDict Kwargs : Type}.
Context `{!Collaborators HookFn MetricsDict Kwargs}.

Implicit Types w : World HookFn.

(** The loop over the descriptor sets in [sweep_over_metrics], when it runs
    to its end. *)
Lemma enumerate_from_metrics texts_df metrics_dict metric_args sets rounds index
    cursor w w' frames :
  rich_prompts w = Sequence sets ∨ rich_prompts w = Iterator sets cursor →
  rounds = (length sets - cursor)%nat →
  enumerate_from rounds index cursor
    (metrics_round texts_df metrics_dict metric_args) w = (w', Ok frames)
  ↔ metric_frames texts_df metrics_dict metric_args (model_hooks w) index
      (drop cursor sets) frames
    ∧ w' = {| model_hooks := match frames with [] => model_hooks w | _ => [] end;
              rich_prompts :=
                match rich_prompts w with
                | Sequence _ => Sequence sets
                | Iterator _ _ => Iterator sets (cursor + rounds)
                end;
              gen_calls := gen_calls w |}.
Proof.
  revert index cursor w w' frames.
  induction rounds as [|rounds IH]; intros index cursor w w' frames Hrp Hrounds.
  - rewrite drop_ge by lia. simpl. split.
    + intros [= <- <-]. split; [done|]. destruct w as [h rp g]. simpl in *.
      destruct Hrp as [-> | ->]; [done|]. by rewrite Nat.add_0_r.
    + intros [Hframes ->]. destruct frames; [|done].
      destruct w as [h rp g]. simpl in *.
      destruct Hrp as [-> | ->]; [done|]. by rewrite Nat.add_0_r.
  - assert (items (rich_prompts w) = sets) as Hitems.
    { by destruct Hrp as [-> | ->]. }
    destruct (lookup_lt_is_Some_2 sets cursor) as [x Hx]; [lia|].
    cbn [enumerate_from]. rewrite Hitems, Hx, (drop_S _ _ _ Hx).
    rewrite bind_run, metrics_round_run. cbn [model_hooks].
    destruct (hook_fns_from_rich_prompts x (model_hooks w)) as [hook_fns|e]
      eqn:Hcompile.
    2:{ split; [done|]. intros [Hframes _]. destruct frames as [|df frames]; [done|].
        destruct Hframes as [(? & ? & ? & _) _]. congruence. }
    destruct (add_metric_cols texts_df _ _ _ hook_fns) as [patched_df|e] eqn:Hscore.
    2:{ split; [done|]. intros [Hframes _]. destruct frames as [|df frames]; [done|].
        destruct Hframes as [(? & ? & ? & ? & _) _]. congruence. }
    rewrite bind_run.
    match goal with
    | |- context [enumerate_from rounds (S index) (S cursor) ?b ?w1] =>
      specialize (IH (S index) (S cursor) w1);
      destruct (enumerate_from rounds (S index) (S cursor) b w1)
        as [w2 [ys|e]] eqn:Hrest
    end.
    + assert (rich_prompts w = Sequence sets
              ∨ rich_prompts w = Iterator sets cursor) as Hrp0 by done.
      unfold with_hooks in IH. cbn [model_hooks rich_prompts gen_calls] in IH.
      destruct (proj1 (IH w2 ys ltac:(destruct Hrp as [-> | ->]; [by left|by right])
                         ltac:(lia)) eq_refl) as [Hys Hw2].
      assert (w2 = {| model_hooks := [];
                      rich_prompts :=
                        match rich_prompts w with
                        | Sequence _ => Sequence sets
                        | Iterator _ _ => Iterator sets (cursor + S rounds)
                        end;
                      gen_calls := gen_calls w |}) as Hw2'.
      { rewrite Hw2. destruct Hrp as [-> | ->]; simpl.
        - by destruct ys.
        - replace (S (cursor + rounds)) with (cursor + S rounds)%nat by lia.
          by destruct ys. }
      split.
      * intros [= <- <-]. split; [|done]. split; [|done]. by eexists _, _.
      * intros [Hframes ->]. destruct frames as [|df frames]; [done|].
        destruct Hframes as [(hf & pdf & Hc & Hs & ->) Hframes].
        rewrite Hcompile in Hc. injection Hc as <-.
        rewrite Hscore in Hs. injection Hs as <-.
        assert ((w2, Ok ys : result (list DataFrame)) = (w2, Ok frames)) as Heq.
        { apply IH; [destruct Hrp as [-> | ->]; [by left|by right]|lia|].
          split; [exact Hframes|]. rewrite Hw2. by destruct frames, ys. }
        injection Heq as <-. by rewrite <- Hw2'.
    + split; [done|]. intros [Hframes _]. destruct frames as [|df frames]; [done|].
      destruct Hframes as [(hf & pdf & Hc & Hs & ->) Hframes].
      rewrite Hcompile in Hc. injection Hc as <-.
      unfold with_hooks in IH. cbn [model_hooks rich_prompts gen_calls] in IH.
      exfalso.
      assert ((w2, Raise e : result (list DataFrame))
              = ({| model_hooks := match frames with [] => [] | _ => [] end;
                    rich_prompts :=
                      match advance cursor (rich_prompts w) with
                      | Sequence _ => Sequence sets
                      | Iterator _ _ => Iterator sets (S cursor + rounds)
                      end;
                    gen_calls := gen_calls w |}, Ok frames)) as Hok; [|done].
      apply IH; [destruct Hrp as [-> | ->]; [by left|by right]|lia|].
      split; [exact Hframes|reflexivity].
Qed.

Lemma for_enumerate_metrics texts_df metrics_dict metric_args w w' frames :
  for_enumerate (metrics_round texts_df metrics_dict metric_args) w
  = (w', Ok frames)
  ↔ metric_frames texts_df metrics_dict metric_args (model_hooks w) 0
      (remaining (rich_prompts w)) frames
    ∧ w' = {| model_hooks := match frames with [] => model_hooks w | _ => [] end;
              rich_prompts := after_loop (rich_prompts w);
              gen_calls := gen_calls w |}.
Proof.
  unfold for_enumerate, remaining.
  rewrite (enumerate_from_metrics _ _ _ (items (rich_prompts w))); [| |done].
  - assert (match rich_prompts w with
            | Sequence _ => Sequence (items (rich_prompts w))
            | Iterator _ _ =>
              Iterator (items (rich_prompts w))
                (iter_start (rich_prompts w)
                 + (length (items (rich_prompts w)) - iter_start (rich_prompts w)))
            end = after_loop (rich_prompts w)) as ->; [|done].
    destruct (rich_prompts w) as [l|l pos]; simpl; [done|]. f_equal. lia.
  - destruct (rich_prompts w); [by left|by right].
Qed.

Lemma sweep_over_metrics_inv texts metrics_dict metric_args w w' patched_all :
  sweep_over_metrics texts metrics_dict metric_args w = (w', Ok patched_all) →
  ∃ patched_list,
    metric_frames (pd_DataFrame_text texts) metrics_dict metric_args
      (model_hooks w) 0 (remaining (rich_prompts w)) patched_list
    ∧ pd_concat patched_list ≫= reset_index (Some ["text_index"%string])
      = Ok patched_all
    ∧ rich_prompts w' = after_loop (rich_prompts w).
Proof.
  unfold sweep_over_metrics. rewrite bind_run.
  destruct (for_enumerate _ w) as [w1 [frames|e]] eqn:Hloop; [|done].
  apply for_enumerate_metrics in Hloop as [Hframes ->]. unfold lift.
  intros [= <- Hconcat]. by exists frames.
Qed.



(** X12.  A metric sweep with no descriptor set to iterate over, an empty
    sequence or an iterator that is used up, raises [ValueError] and changes
    nothing: hooks the caller had on the model stay where they are.  A metric
    sweep over an iterator that returns leaves the iterator used up, so that
    any further metric sweep over it raises that error. *)
Theorem sweep_over_metrics_nothing_to_sweep :
  ∀ w texts metrics_dict metric_args,
    (remaining (rich_prompts w) = [] →
     sweep_over_metrics texts metrics_dict metric_args w
     = (w, Raise (ValueError "No objects to concatenate")))
    ∧ (∀ sets pos w' patched_all texts' metrics_dict' metric_args',
         rich_prompts w = Iterator sets pos →
         sweep_over_metrics texts metrics_dict metric_args w
         = (w', Ok patched_all) →
         sweep_over_metrics texts' metrics_dict' metric_args' w'
         = (w', Raise (ValueError "No objects to concatenate"))).
Proof.
  assert (∀ w texts metrics_dict metric_args,
            remaining (rich_prompts w) = [] →
            sweep_over_metrics texts metrics_dict metric_args w
            = (w, Raise (ValueError "No objects to concatenate"))) as Hnone.
  { intros w texts metrics_dict metric_args Hnone.
    unfold sweep_over_metrics. rewrite bind_run.
    assert (for_enumerate
              (metrics_round (pd_DataFrame_text texts) metrics_dict metric_args) w
            = (w, Ok [])) as ->; [|done].
    apply for_enumerate_metrics. rewrite Hnone. split; [done|].
    rewrite (remaining_nil_stable _ Hnone). by destruct w. }
  intros w texts metrics_dict metric_args. split; [apply Hnone|].
  intros sets pos w' patched_all texts' metrics_dict' metric_args' Hw Hrun.
  apply sweep_over_metrics_inv in Hrun as (frames & _ & _ & Hrp).
  apply Hnone. rewrite Hrp, Hw. apply remaining_after_loop_Iterator.
Qed.

End metric_sweep.


Lemma sweep_over_metrics_nothing_to_sweep_witness :
  ∃ w' patched_all,
    sweep_over_metrics (Collaborators0 := Examples.toy_collaborators)
      (TextList ["I think you're"%string]) [] tt Examples.generator_world
    = (w', Ok patched_all)
    ∧ sweep_over_metrics (Collaborators0 := Examples.toy_collaborators)
        (TextList ["Shrek starts off"%string]) [] tt w'
      = (w', Raise (ValueError "No objects to concatenate")).
Proof.
  assert (∃ w' patched_all,
            sweep_over_metrics (Collaborators0 := Examples.toy_collaborators)
              (TextList ["I think you're"%string]) [] tt Examples.generator_world
            = (w', Ok patched_all)) as (w' & patched_all & Hrun).
  { eexists _, _. vm_compute. reflexivity. }
  exists w', patched_all. split; [exact Hrun|].
  exact (proj2 (sweep_over_metrics_nothing_to_sweep
                  (Collaborators0 := Examples.toy_collaborators)
                  Examples.generator_world (TextList ["I think you're"%string]) [] tt)
           Examples.scenario_sets 0%nat w' patched_all (TextList ["Shrek starts off"%string])
           [] tt eq_refl Hrun).
Defined.

(** * Further properties of [reduce_sweep_results] *)

(** ** The order of the groups *)

Lemma cell_leb_total (a b : cell) : cell_leb a b = true ∨ cell_leb b a = true.
Proof.
  unfold cell_leb.
  destruct (numeric_value a) as [x|] eqn:Ha, (numeric_value b) as [y|] eqn:Hb;
    [|by left|by right|].
  - destruct (Qlt_le_dec y x) as [Hlt|Hle].
    + right. apply Qle_bool_iff. by apply Qlt_le_weak.
    + left. by apply Qle_bool_iff.
  - destruct a, b; try (by left). apply String.leb_total.
Qed.

#[local] Instance key_leb_total : Total (λ k1 k2 : list cell, key_leb k1 k2).
Proof.
  intros k1. induction k1 as [|a k1 IH]; intros [|b k2]; simpl;
    [by left|by left|by right|].
  destruct (decide (a = b)) as [->|Hne].
  - rewrite bool_decide_true by done. apply IH.
  - rewrite !bool_decide_false by done.
    destruct (cell_leb_total a b) as [H|H]; rewrite H; [by left|by right].
Qed.

Lemma groupby_mean_sorted (by_ : list string) (df reduced : DataFrame) :
  groupby_mean by_ df = Ok reduced →
  Sorted (λ k1 k2 : list cell, key_leb k1 k2) (index reduced).
Proof.
  unfold groupby_mean.
  destruct (forM by_ _) as [key_cols|e]; [|done]. simpl.
  destruct (negb _); [done|]. intros [= <-]. simpl. apply Sorted_merge_sort, _.
Qed.

Lemma Sorted_fmap_inv {A B : Type} (f : A → B) (R : relation B) (R' : relation A)
    (l : list A) :
  (∀ x y, R (f x) (f y) → R' x y) →
  Sorted R (f <$> l) → Sorted R' l.
Proof.
  intros HR. induction l as [|x l IH]; [constructor|].
  rewrite fmap_cons. intros Hs. apply Sorted_inv in Hs as [Hs Hd].
  constructor; [by apply IH|].
  destruct l as [|y l]; [constructor|]. constructor.
  apply HdRel_inv in Hd. by apply HR.
Qed.

Lemma string_leb_refl (s : string) : String.leb s s = true.
Proof. by destruct (String.leb_total s s). Qed.

Lemma prompt_keys_sorted (ps : list string) :
  Sorted (λ k1 k2 : list cell, key_leb k1 k2) ((λ p, [CStr p]) <$> ps) →
  Sorted (λ p q : string, String.leb p q) ps.
Proof.
  apply Sorted_fmap_inv. intros p q. simpl.
  destruct (decide (p = q)) as [->|Hne].
  - intros _. by rewrite string_leb_refl.
  - rewrite ?bool_decide_false by congruence. intros H. exact H.
Qed.

Lemma pair_keys_sorted (groups : list (string * Z)) :
  Sorted (λ k1 k2 : list cell, key_leb k1 k2)
    ((λ g : string * Z, [CStr g.1; CInt g.2]) <$> groups) →
  Sorted (λ g1 g2, pair_leb g1 g2) groups.
Proof.
  apply Sorted_fmap_inv. intros [p i] [q j]. unfold pair_leb. simpl.
  destruct (decide (p = q)) as [->|Hne].
  - rewrite bool_decide_true by done.
    destruct (decide (i = j)) as [->|Hne].
    + intros _. apply Is_true_true. lia.
    + rewrite ?bool_decide_false by congruence.
      intros H. apply Is_true_true in H.
      change (Qle_bool (inject_Z i) (inject_Z j) = true) in H.
      apply Qle_bool_iff in H. rewrite <- Zle_Qle in H. apply Is_true_true. lia.
  - rewrite ?bool_decide_false by congruence. intros H. exact H.
Qed.

(** ** The two reduced tables *)

Lemma reduce_sweep_results_tables (normal_df patched_df : DataFrame)
    (rows : list Row) (normal_prompts prompts : list string) (indices : list Z) :
  column "prompts" normal_df = Some (CStr <$> normal_prompts) →
  length normal_prompts = nrows normal_df →
  column "prompts" patched_df = Some (CStr <$> prompts) →
  length prompts = nrows patched_df →
  column "rich_prompt_index" patched_df = Some (CInt <$> indices) →
  length indices = nrows patched_df →
  Forall (λ name, name ∉ ["rich_prompts"; "phrases"; "act_name"; "coeff"]%string)
         (value_columns ["prompts"; "rich_prompt_index"]%string patched_df).*1 →
  ∃ normal_groups groups,
    reduce_sweep_results normal_df patched_df (pd_DataFrame rows)
    = Ok ({| index_names := [Some "prompts"%string];
             index := (λ p, [CStr p]) <$> normal_groups;
             columns :=
               mean_columns ["prompts"%string] normal_df normal_prompts
                 normal_groups |},
          {| index_names := [None];
             index := RangeIndex (length groups);
             columns :=
               ("prompts"%string, CStr <$> groups.*1)
               :: ("rich_prompt_index"%string, CInt <$> groups.*2)
               :: mean_columns ["prompts"; "rich_prompt_index"]%string patched_df
                    (zip prompts indices) groups
               ++ provenance_columns rows groups.*2 |})
    ∧ NoDup normal_groups
    ∧ (∀ p, p ∈ normal_groups ↔ p ∈ normal_prompts)
    ∧ Sorted (λ p q : string, String.leb p q) normal_groups
    ∧ NoDup groups
    ∧ (∀ g, g ∈ groups ↔ g ∈ zip prompts indices)
    ∧ Sorted (λ g1 g2, pair_leb g1 g2) groups.
Proof.
  intros Hnp Hnlen Hpp Hplen Hpi Hilen Hfresh.
  destruct (groupby_mean_typed (λ p : string, [CStr p]) ["prompts"%string]
              normal_df [CStr <$> normal_prompts] normal_prompts)
    as (normal_groups & Hnodup_n & Hin_n & Hnormal).
  { simpl. by rewrite Hnp. }
  { simpl. by rewrite forallb_fmap_true. }
  { rewrite <- Hnlen. apply key_rows_prompts. }
  { done. }
  destruct (groupby_mean_typed (λ pz : string * Z, [CStr pz.1; CInt pz.2])
              ["prompts"; "rich_prompt_index"]%string patched_df
              [CStr <$> prompts; CInt <$> indices] (zip prompts indices))
    as (groups & Hnodup & Hin & Hpatched).
  { simpl. by rewrite Hpp, Hpi. }
  { simpl. by rewrite !forallb_fmap_true. }
  { rewrite <- Hplen. apply key_rows_prompts_indices. congruence. }
  { done. }
  exists normal_groups, groups.
  split_and!; [|done|done| |done|done|].
  2:{ apply groupby_mean_sorted in Hnormal. by apply prompt_keys_sorted. }
  2:{ apply groupby_mean_sorted in Hpatched. by apply pair_keys_sorted. }
  unfold reduce_sweep_results. rewrite Hpatched, Hnormal. cbn [mbind result_bind].
  set (reduced_df :=
         {| index_names := Some <$> ["prompts"; "rich_prompt_index"]%string;
            index := _; columns := _ |}).
  rewrite (join_provenance reduced_df rows "rich_prompt_index" 1 groups.*2).
  - cbn [mbind result_bind].
    rewrite (reset_index_two_levels _ "prompts" "rich_prompt_index").
    + cbn [mbind result_bind]. f_equal. f_equal. f_equal.
      * unfold nrows. simpl. by rewrite length_fmap.
      * f_equal.
        { f_equal. unfold index_level. simpl.
          rewrite <- !list_fmap_compose. by apply list_fmap_ext. }
        f_equal.
        { f_equal. unfold index_level. simpl.
          rewrite <- !list_fmap_compose. by apply list_fmap_ext. }
        simpl. f_equal. apply join_provenance_columns.
    + done.
    + unfold column_names. simpl. rewrite fmap_app, elem_of_app.
      rewrite mean_columns_names. intros [Hin'|Hin'].
      * revert Hin'. apply value_columns_not_key. right; left.
      * rewrite join_provenance_columns in Hin'.
        destruct rows; [by apply elem_of_nil in Hin'|]. simpl in Hin'.
        revert Hin'. not_a_column.
    + done.
    + unfold column_names. simpl. rewrite fmap_app, elem_of_app.
      rewrite mean_columns_names. intros [Hin'|Hin'].
      * revert Hin'. apply value_columns_not_key. left.
      * rewrite join_provenance_columns in Hin'.
        destruct rows; [by apply elem_of_nil in Hin'|]. simpl in Hin'.
        revert Hin'. not_a_column.
  - apply assoc_None. subst reduced_df. simpl. rewrite mean_columns_names.
    apply value_columns_not_key. right; left.
  - done.
  - subst reduced_df. unfold index_level. simpl.
    rewrite <- !list_fmap_compose. by apply list_fmap_ext.
  - subst reduced_df. unfold column_names at 2. simpl. rewrite mean_columns_names.
    eapply Forall_impl; [exact Hfresh|]. intros name Hname Hin'.
    by apply provenance_column_names in Hin'.
  - subst reduced_df. unfold nrows. simpl. unfold mean_columns.
    apply Forall_fmap, Forall_forall. intros [name cells] _. simpl.
    by rewrite !length_fmap.
Qed.

Lemma is_numeric_spec (cells : list cell) : is_numeric cells = spec_numeric cells.
Proof.
  unfold is_numeric, spec_numeric. destruct cells as [|c0 cells]; [done|].
  rewrite bool_decide_false by done. cbn [negb andb].
  generalize (c0 :: cells). clear. intros cells.
  induction cells as [|c cells IH]; [done|]. simpl. rewrite IH. by destruct c.
Qed.

Lemma bind_all_nil {A B : Type} (f : A → list B) (l : list A) :
  (∀ x, f x = []) → l ≫= f = [].
Proof.
  intros Hf. induction l as [|x l IH]; [done|].
  change ((x :: l) ≫= f) with (f x ++ l ≫= f). by rewrite Hf, IH.
Qed.

Lemma group_cells_spec {K : Type} `{EqDecision K} (keys : list K)
    (cells : list cell) (g : K) :
  omap numeric_value (group_cells keys cells g)
  = spec_numbers cells (spec_group_rows keys g).
Proof.
  unfold group_cells, spec_numbers, spec_group_rows.
  revert cells. induction keys as [|k keys IH]; intros cells; [done|].
  cbn [length]. rewrite <- cons_seq, <- fmap_S_seq.
  destruct cells as [|c cells].
  - simpl. symmetry. by apply bind_all_nil.
  - cbn [zip zip_with]. rewrite !filter_cons. cbn [fst lookup list_lookup].
    assert (∀ (l : list nat),
              filter (λ i, (k :: keys) !! i = Some g) (S <$> l)
                ≫= (λ i, match (c :: cells) !! i with
                          | Some (CInt z) => [inject_Z z]
                          | Some (CFloat q) => [q]
                          | _ => []
                          end)
              = filter (λ i, keys !! i = Some g) l
                  ≫= (λ i, match cells !! i with
                            | Some (CInt z) => [inject_Z z]
                            | Some (CFloat q) => [q]
                            | _ => []
                            end)) as Hshift.
    { intros l. induction l as [|i l IHl]; [done|].
      rewrite fmap_cons, !filter_cons. cbn [lookup list_lookup].
      change (list_lookup i keys) with (keys !! i).
      destruct (decide (keys !! i = Some g)); [|exact IHl].
      change (?f (S i) ++ ?a = ?h i ++ ?b) with (f (S i) ++ a = h i ++ b).
      cbn [mbind list_bind]. cbn [lookup list_lookup].
      change (list_lookup i cells) with (cells !! i). by rewrite <- IHl. }
    destruct (decide (k = g)) as [->|Hk].
    + rewrite !decide_True by done. cbn [fmap list_fmap snd omap list_omap].
      change ((0%nat :: ?l) ≫= ?f) with (f 0%nat ++ l ≫= f).
      cbn [lookup list_lookup]. rewrite Hshift, <- IH. by destruct c.
    + cbn [filter]. rewrite ?decide_False by congruence.
      by rewrite Hshift, <- IH.
Qed.

Lemma mean_cell_spec {K : Type} `{EqDecision K} (keys : list K)
    (cells : list cell) (g : K) :
  mean_cell (group_cells keys cells g)
  = spec_mean (spec_numbers cells (spec_group_rows keys g)).
Proof.
  unfold mean_cell. rewrite group_cells_spec. unfold spec_mean.
  by destruct (spec_numbers _ _).
Qed.

Lemma value_columns_spec_numeric (by_ : list string) (df : DataFrame) :
  value_columns by_ df
  = filter (λ nc, (nc.1 ∉ by_) ∧ spec_numeric nc.2 = true) (columns df).
Proof.
  unfold value_columns. apply list_filter_iff. intros [name cells]. simpl.
  rewrite andb_true_iff, bool_decide_eq_true, is_numeric_spec. done.
Qed.

Lemma mean_columns_spec {K : Type} `{EqDecision K} (by_ : list string)
    (df : DataFrame) (keys groups : list K) :
  mean_columns by_ df keys groups = spec_means by_ df keys groups.
Proof.
  unfold mean_columns, spec_means. rewrite <- value_columns_spec_numeric.
  apply list_fmap_ext. intros i [name cells] _. simpl. f_equal.
  apply list_fmap_ext. intros j g _. apply mean_cell_spec.
Qed.

Lemma column_elem_of (name : string) (df : DataFrame) (cells : list cell) :
  column name df = Some cells → (name, cells) ∈ columns df.
Proof.
  unfold column. induction (columns df) as [|[n c] cols IH]; [done|]. simpl.
  destruct (String.eqb n name) eqn:Hn.
  - apply String.eqb_eq in Hn as ->. intros [= ->]. by left.
  - intros H. right. by apply IH.
Qed.

Lemma table_of_rows_length key_names df name cells :
  table_of_rows key_names df → column name df = Some cells →
  length cells = nrows df.
Proof.
  intros (_ & _ & Hlen & _) Hcol. apply column_elem_of in Hcol.
  by apply (proj1 (Forall_forall _ _) Hlen _ Hcol).
Qed.

(** C4.  The reducer against its specification.  Take a table of baseline
    rows with its prompts, as strings, in ["prompts"]; a table of intervened
    rows with in addition the descriptor-set indices, as integers, in
    ["rich_prompt_index"]; and a provenance table as the builder makes it,
    none of whose column names is the name of a numeric column of the
    intervened rows.  Then [reduce_sweep_results] returns two tables.  The
    baseline aggregate is indexed by prompt only, one row per distinct
    prompt.  The joined table has one row per distinct (prompt, index) pair:
    it carries the pair, then for each numeric column that is not a key, and
    for no other column, the sum of the numbers the column holds in the rows
    of the pair divided by their count, then the descriptors, phrases, site
    and coefficient of the provenance row the index points to ([NaN] where it
    points to none, the sites then being floats if they are all integers). *)
Theorem reduce_sweep_results_means (normal_df patched_df : DataFrame)
    (rows : list Row) (normal_prompts prompts : list string) (indices : list Z) :
  table_of_rows ["prompts"%string] normal_df →
  table_of_rows ["prompts"; "rich_prompt_index"]%string patched_df →
  column "prompts" normal_df = Some (CStr <$> normal_prompts) →
  column "prompts" patched_df = Some (CStr <$> prompts) →
  column "rich_prompt_index" patched_df = Some (CInt <$> indices) →
  Forall (λ nc, spec_numeric nc.2 = true →
                nc.1 ∉ ["rich_prompts"; "phrases"; "act_name"; "coeff"]%string)
         (columns patched_df) →
  ∃ normal_groups groups,
    reduce_sweep_results normal_df patched_df (pd_DataFrame rows)
    = Ok ({| index_names := [Some "prompts"%string];
             index := (λ p, [CStr p]) <$> normal_groups;
             columns :=
               spec_means ["prompts"%string] normal_df normal_prompts
                 normal_groups |},
          {| index_names := [None];
             index := RangeIndex (length groups);
             columns :=
               ("prompts"%string, CStr <$> groups.*1)
               :: ("rich_prompt_index"%string, CInt <$> groups.*2)
               :: spec_means ["prompts"; "rich_prompt_index"]%string patched_df
                    (zip prompts indices) groups
               ++ provenance_columns rows groups.*2 |})
    ∧ NoDup normal_groups
    ∧ (∀ p, p ∈ normal_groups ↔ p ∈ normal_prompts)
    ∧ NoDup groups
    ∧ (∀ g, g ∈ groups ↔ g ∈ zip prompts indices).
Proof.
  intros Hnormal Hpatched Hnp Hpp Hpi Hfresh.
  destruct (reduce_sweep_results_tables normal_df patched_df rows normal_prompts
              prompts indices)
    as (normal_groups & groups & Hrun & Hnodup_n & Hin_n & _ & Hnodup & Hin & _).
  - done.
  - rewrite <- (table_of_rows_length _ _ _ _ Hnormal Hnp). by rewrite length_fmap.
  - done.
  - rewrite <- (table_of_rows_length _ _ _ _ Hpatched Hpp). by rewrite length_fmap.
  - done.
  - rewrite <- (table_of_rows_length _ _ _ _ Hpatched Hpi). by rewrite length_fmap.
  - apply Forall_fmap, Forall_forall. intros [name cells] Hcol.
    apply value_columns_spec in Hcol as (Hcol & _ & Hnum). simpl.
    rewrite is_numeric_spec in Hnum.
    by apply (proj1 (Forall_forall _ _) Hfresh (name, cells) Hcol).
  - exists normal_groups, groups. rewrite <- !mean_columns_spec. done.
Qed.

Lemma reduce_sweep_results_means_witness :
  ∃ normal_groups groups,
    reduce_sweep_results Examples.normal_results Examples.patched_results
      (pd_DataFrame Examples.scenario_rows)
    = Ok ({| index_names := [Some "prompts"%string];
             index := (λ p, [CStr p]) <$> normal_groups;
             columns :=
               spec_means ["prompts"%string] Examples.normal_results
                 ["p"; "p"; "a"]%string normal_groups |},
          {| index_names := [None];
             index := RangeIndex (length groups);
             columns :=
               ("prompts"%string, CStr <$> groups.*1)
               :: ("rich_prompt_index"%string, CInt <$> groups.*2)
               :: spec_means ["prompts"; "rich_prompt_index"]%string
                    Examples.patched_results
                    (zip ["p"; "p"; "p"; "a"; "a"; "a"]%string [1; 1; 0; 0; 1; 1])
                    groups
               ++ provenance_columns Examples.scenario_rows groups.*2 |})
    ∧ NoDup normal_groups
    ∧ (∀ p, p ∈ normal_groups ↔ p ∈ ["p"; "p"; "a"]%string)
    ∧ NoDup groups
    ∧ (∀ g, g ∈ groups
            ↔ g ∈ zip ["p"; "p"; "p"; "a"; "a"; "a"]%string [1; 1; 0; 0; 1; 1]).
Proof.
  apply (reduce_sweep_results_means Examples.normal_results
           Examples.patched_results Examples.scenario_rows);
    [| |reflexivity..|].
  - unfold table_of_rows.
    split_and!; [done|..]; refine (bool_decide_unpack _ _); vm_compute; exact I.
  - unfold table_of_rows.
    split_and!; [done|..]; refine (bool_decide_unpack _ _); vm_compute; exact I.
  - refine (bool_decide_unpack _ _). vm_compute. exact I.
Defined.


(** X14.  The order of the reduced rows.  Whatever the order of the rows of
    the two result tables, the baseline aggregate lists every prompt once, in
    ascending order, and the joined table lists every (prompt, index) pair
    once, by ascending prompt and by ascending index within a prompt. *)
Theorem reduce_sweep_results_sorted (normal_df patched_df : DataFrame)
    (rows : list Row) (normal_prompts prompts : list string) (indices : list Z) :
  column "prompts" normal_df = Some (CStr <$> normal_prompts) →
  length normal_prompts = nrows normal_df →
  column "prompts" patched_df = Some (CStr <$> prompts) →
  length prompts = nrows patched_df →
  column "rich_prompt_index" patched_df = Some (CInt <$> indices) →
  length indices = nrows patched_df →
  Forall (λ name, name ∉ ["rich_prompts"; "phrases"; "act_name"; "coeff"]%string)
         (value_columns ["prompts"; "rich_prompt_index"]%string patched_df).*1 →
  ∃ reduced_normal_df reduced_joined_df normal_groups groups,
    reduce_sweep_results normal_df patched_df (pd_DataFrame rows)
    = Ok (reduced_normal_df, reduced_joined_df)
    ∧ index reduced_normal_df = (λ p, [CStr p]) <$> normal_groups
    ∧ NoDup normal_groups
    ∧ Sorted (λ p q : string, String.leb p q) normal_groups
    ∧ column "prompts" reduced_joined_df = Some (CStr <$> groups.*1)
    ∧ column "rich_prompt_index" reduced_joined_df = Some (CInt <$> groups.*2)
    ∧ NoDup groups
    ∧ Sorted (λ g1 g2, pair_leb g1 g2) groups.
Proof.
  intros Hnp Hnlen Hpp Hplen Hpi Hilen Hfresh.
  destruct (reduce_sweep_results_tables normal_df patched_df rows normal_prompts
              prompts indices)
    as (normal_groups & groups & Hrun & Hn1 & _ & Hn3 & Hg1 & _ & Hg3); [done..|].
  eexists _, _, normal_groups, groups. split; [exact Hrun|].
  by split_and!.
Qed.

Lemma reduce_sweep_results_sorted_witness :
  ∃ reduced_normal_df reduced_joined_df normal_groups groups,
    reduce_sweep_results Examples.normal_results Examples.patched_results
      (pd_DataFrame Examples.scenario_rows)
    = Ok (reduced_normal_df, reduced_joined_df)
    ∧ index reduced_normal_df = (λ p, [CStr p]) <$> normal_groups
    ∧ NoDup normal_groups
    ∧ Sorted (λ p q : string, String.leb p q) normal_groups
    ∧ column "prompts" reduced_joined_df = Some (CStr <$> groups.*1)
    ∧ column "rich_prompt_index" reduced_joined_df = Some (CInt <$> groups.*2)
    ∧ NoDup groups
    ∧ Sorted (λ g1 g2, pair_leb g1 g2) groups.
Proof.
  apply (reduce_sweep_results_sorted Examples.normal_results
           Examples.patched_results Examples.scenario_rows
           ["p"; "p"; "a"]%string ["p"; "p"; "p"; "a"; "a"; "a"]%string
           [1; 1; 0; 0; 1; 1]);
    [reflexivity..|].
  apply Forall_forall. intros name Hname. vm_compute in Hname.
  repeat (apply elem_of_cons in Hname as [->|Hname]; [not_a_column|]).
  by apply elem_of_nil in Hname.
Defined.

(** The intervened half of the reduction, which is computed first. *)
Lemma reduce_sweep_results_joined (patched_df : DataFrame) (rows : list Row)
    (prompts : list string) (indices : list Z) :
  column "prompts" patched_df = Some (CStr <$> prompts) →
  length prompts = nrows patched_df →
  column "rich_prompt_index" patched_df = Some (CInt <$> indices) →
  length indices = nrows patched_df →
  Forall (λ name, name ∉ ["rich_prompts"; "phrases"; "act_name"; "coeff"]%string)
         (value_columns ["prompts"; "rich_prompt_index"]%string patched_df).*1 →
  ∃ reduced_df reduced_joined_df,
    groupby_mean ["prompts"; "rich_prompt_index"]%string patched_df = Ok reduced_df
    ∧ join reduced_df (pd_DataFrame rows) "rich_prompt_index" ≫= reset_index None
      = Ok reduced_joined_df.
Proof.
  intros Hpp Hplen Hpi Hilen Hfresh.
  destruct (reduce_sweep_results_tables patched_df patched_df rows prompts
              prompts indices)
    as (normal_groups & groups & Hrun & _); [done..|].
  unfold reduce_sweep_results in Hrun.
  destruct (groupby_mean ["prompts"; "rich_prompt_index"]%string patched_df)
    as [reduced_df|e]; [|done].
  cbn [mbind result_bind] in Hrun.
  destruct (join reduced_df (pd_DataFrame rows) "rich_prompt_index"
            ≫= reset_index None) as [joined|e] eqn:Hjoin; [|done].
  by exists reduced_df, joined.
Qed.

(** X15.  Result tables without their keys.  The intervened table is
    reduced first: when it has ["prompts"] neither as a column nor as an
    index level the reducer raises [KeyError] for that name, and when it has
    that one but no ["rich_prompt_index"], as a table of baseline rows has,
    [KeyError] for this name, whatever the other two tables are.  A baseline
    table without ["prompts"] raises [KeyError] once the intervened half has
    been computed. *)
Theorem reduce_sweep_results_key_errors
    (normal_df patched_df rich_prompts_df : DataFrame) :
  (column "prompts" patched_df = None →
   Some "prompts"%string ∉ index_names patched_df →
   reduce_sweep_results normal_df patched_df rich_prompts_df
   = Raise (KeyError "prompts"))
  ∧ (is_Some (column "prompts" patched_df) →
     column "rich_prompt_index" patched_df = None →
     Some "rich_prompt_index"%string ∉ index_names patched_df →
     reduce_sweep_results normal_df patched_df rich_prompts_df
     = Raise (KeyError "rich_prompt_index"))
  ∧ (∀ rows prompts indices,
       rich_prompts_df = pd_DataFrame rows →
       column "prompts" patched_df = Some (CStr <$> prompts) →
       length prompts = nrows patched_df →
       column "rich_prompt_index" patched_df = Some (CInt <$> indices) →
       length indices = nrows patched_df →
       Forall (λ name, name ∉ ["rich_prompts"; "phrases"; "act_name"; "coeff"]%string)
         (value_columns ["prompts"; "rich_prompt_index"]%string patched_df).*1 →
       column "prompts" normal_df = None →
       Some "prompts"%string ∉ index_names normal_df →
       reduce_sweep_results normal_df patched_df rich_prompts_df
       = Raise (KeyError "prompts")).
Proof.
  split_and!.
  - intros Hnone _. unfold reduce_sweep_results, groupby_mean. simpl.
    by rewrite Hnone.
  - intros [c Hc] Hnone _. unfold reduce_sweep_results, groupby_mean. simpl.
    by rewrite Hc, Hnone.
  - intros rows prompts indices -> Hpp Hplen Hpi Hilen Hfresh Hnone _.
    destruct (reduce_sweep_results_joined patched_df rows prompts indices)
      as (reduced_df & joined & Hgroup & Hjoin); [done..|].
    unfold reduce_sweep_results. rewrite Hgroup. cbn [mbind result_bind].
    rewrite Hjoin. cbn [mbind result_bind].
    unfold groupby_mean. simpl. by rewrite Hnone.
Qed.

Lemma reduce_sweep_results_key_errors_witness :
  reduce_sweep_results Examples.normal_results Examples.normal_results
    (pd_DataFrame Examples.scenario_rows)
  = Raise (KeyError "rich_prompt_index").
Proof.
  apply (proj1 (proj2 (reduce_sweep_results_key_errors Examples.normal_results
                         Examples.normal_results
                         (pd_DataFrame Examples.scenario_rows)))).
  - by eexists.
  - reflexivity.
  - simpl. by intros [?|[]%elem_of_nil]%elem_of_cons.
Defined.

(** X16.  A metric named like a provenance column.  When the intervened
    table has a numeric column, other than the keys, that is called
    [rich_prompts], [phrases], [act_name] or [coeff], and the provenance table
    has a row, the join finds the name on both sides and the reducer raises
    [ValueError]; the baseline table is not looked at. *)
Theorem reduce_sweep_results_overlap (normal_df patched_df : DataFrame)
    (rows : list Row) (prompts : list string) (indices : list Z) (name : string) :
  column "prompts" patched_df = Some (CStr <$> prompts) →
  length prompts = nrows patched_df →
  column "rich_prompt_index" patched_df = Some (CInt <$> indices) →
  length indices = nrows patched_df →
  rows ≠ [] →
  name ∈ (value_columns ["prompts"; "rich_prompt_index"]%string patched_df).*1 →
  name ∈ ["rich_prompts"; "phrases"; "act_name"; "coeff"]%string →
  reduce_sweep_results normal_df patched_df (pd_DataFrame rows)
  = Raise (ValueError "columns overlap but no suffix specified").
Proof.
  intros Hpp Hplen Hpi Hilen Hrows Hvalue Hname.
  destruct (groupby_mean_typed (λ pz : string * Z, [CStr pz.1; CInt pz.2])
              ["prompts"; "rich_prompt_index"]%string patched_df
              [CStr <$> prompts; CInt <$> indices] (zip prompts indices))
    as (groups & _ & _ & Hpatched).
  { simpl. by rewrite Hpp, Hpi. }
  { simpl. by rewrite !forallb_fmap_true. }
  { rewrite <- Hplen. apply key_rows_prompts_indices. congruence. }
  { done. }
  unfold reduce_sweep_results. rewrite Hpatched. cbn [mbind result_bind].
  unfold join.
  assert (column "rich_prompt_index"
            {| index_names := Some <$> ["prompts"; "rich_prompt_index"]%string;
               index := (λ pz : string * Z, [CStr pz.1; CInt pz.2]) <$> groups;
               columns := mean_columns ["prompts"; "rich_prompt_index"]%string
                            patched_df (zip prompts indices) groups |} = None) as ->.
  { apply assoc_None. simpl. rewrite mean_columns_names.
    apply value_columns_not_key. right; left. }
  simpl. rewrite bool_decide_true; [done|].
  apply Exists_exists. exists name. split.
  - unfold column_names. simpl. by rewrite mean_columns_names.
  - unfold column_names. rewrite columns_pd_DataFrame by done. exact Hname.
Qed.

Lemma reduce_sweep_results_overlap_witness :
  reduce_sweep_results Examples.normal_results
    (setitem "coeff" (CFloat 1) Examples.patched_results)
    (pd_DataFrame Examples.scenario_rows)
  = Raise (ValueError "columns overlap but no suffix specified").
Proof.
  apply (reduce_sweep_results_overlap Examples.normal_results
           (setitem "coeff" (CFloat 1) Examples.patched_results)
           Examples.scenario_rows
           ["p"; "p"; "p"; "a"; "a"; "a"]%string [1; 1; 0; 0; 1; 1] "coeff");
    [reflexivity..|discriminate| |].
  - vm_compute. do 2 right. left.
  - vm_compute. do 3 right. left.
Defined.

(** * From the builder through a sweep to the reducer *)





Section pipeline.
Context {HookFn MetricsDict Kwargs : Type}.
Context `{!Collaborators HookFn MetricsDict Kwargs}.

Implicit Types w : World HookFn.

Context `{!GenerationContract Collaborators0}.

End pipeline.


(** * [plot_sweep_results] *)

Lemma loc_unique (df : DataFrame) (label : list cell) (k : nat) :
  NoDup (index df) → index df !! k = Some label → loc df label = [k].
Proof.
  intros Hnodup Hk. unfold loc, nrows.
  rewrite (filter_seq_unique _ _ (Z.of_nat k)).
  - pose proof (lookup_lt_Some _ _ _ Hk).
    rewrite decide_True by lia. by rewrite Nat2Z.id.
  - intros j Hj. split.
    + intros Hj'. f_equal. by eapply NoDup_lookup.
    + intros ->%Nat2Z.inj. done.
Qed.

Section plot_properties.
Context {Figure : Type} `{!Plotly Figure}.

(** The loop over the labels of a baseline table whose labels are all
    different: one line per label, with the cell of that row. *)
Lemma add_baselines_unique (baseline_data : DataFrame) (col_to_plot : string)
    (cells : list cell) (k : nat) (fig : Figure) :
  NoDup (index baseline_data) →
  column col_to_plot baseline_data = Some cells →
  length cells = nrows baseline_data →
  add_baselines baseline_data col_to_plot k (drop k (index baseline_data)) fig
  = add_hlines (imap (λ i, baseline_line (k + i)) (drop k cells)) fig.
Proof.
  intros Hnodup Hcol Hlen.
  remember (nrows baseline_data - k)%nat as n eqn:Hn.
  revert k fig Hn. induction n as [|n IH]; intros k fig Hn.
  - unfold nrows in *. rewrite !drop_ge by lia. done.
  - unfold nrows in *.
    destruct (lookup_lt_is_Some_2 (index baseline_data) k) as [label Hlabel]; [lia|].
    destruct (lookup_lt_is_Some_2 cells k) as [c Hc]; [lia|].
    rewrite (drop_S _ _ _ Hlabel), (drop_S _ _ _ Hc).
    cbn [add_baselines imap add_hlines]. unfold loc_getitem.
    rewrite (loc_unique _ _ _ Hnodup Hlabel), Hcol, Hc.
    cbn [mbind result_bind default]. rewrite Nat.add_0_r.
    change (baseline_line k c)
      with {| hline_y := YScalar c; hline_row := 1; hline_col := Z.of_nat k + 1;
              hline_annotation_text := "normal";
              hline_annotation_position := "bottom left" |}.
    destruct (add_hline _ fig) as [fig'|e]; [|done]. cbn [mbind result_bind].
    rewrite (IH (S k)) by lia. f_equal. apply imap_ext. intros i x _. simpl.
    f_equal. lia.
Qed.

(** X18.  The baseline lines of a plot.  The figure is made by [px_func]
    from the data and the column choices, and an exception of [px_func] is
    passed on.  Lines are added to it only when a baseline table is given
    that has the plotted column, the facet column is ["prompts"] and there is
    no facet row; in every other case the figure of [px_func] is returned as
    it is.  When lines are added and the labels of the baseline table are all
    different, there is one line per row of the baseline table, in row order:
    the line of the row at position [i] is drawn at the row's value of the
    plotted column, in the facet at row 1 and column [i + 1], and the lookup
    of a row by its label never fails. *)
Theorem plot_sweep_results_baselines :
  ∀ data col_to_plot title col_x col_color col_facet_col col_facet_row
    baseline_data (px_func : PxArgs → result Figure),
    let fig := px_func {| px_data := data; px_title := title;
                          px_color := col_color; px_y := col_to_plot;
                          px_x := col_x; px_facet_col := col_facet_col;
                          px_facet_row := col_facet_row |} in
    ((∀ df, baseline_data = Some df → col_to_plot ∈ column_names df →
            col_facet_col = Some "prompts"%string → col_facet_row = None → False) →
     plot_sweep_results data col_to_plot title col_x col_color col_facet_col
       col_facet_row baseline_data px_func = fig)
    ∧ (∀ df cells,
         baseline_data = Some df →
         column col_to_plot df = Some cells →
         length cells = nrows df →
         col_facet_col = Some "prompts"%string → col_facet_row = None →
         NoDup (index df) →
         plot_sweep_results data col_to_plot title col_x col_color col_facet_col
           col_facet_row baseline_data px_func
         = fig ≫= add_hlines (imap baseline_line cells)).
Proof.
  intros data col_to_plot title col_x col_color col_facet_col col_facet_row
    baseline_data px_func fig.
  unfold plot_sweep_results. fold fig. split.
  - intros Hguard. destruct fig as [f|e]; [|done]. cbn [mbind result_bind].
    destruct baseline_data as [df|]; [|done].
    destruct (bool_decide (col_to_plot ∈ column_names df)) eqn:H1; [|done].
    destruct (bool_decide (col_facet_col = _)) eqn:H2; [|done].
    destruct (bool_decide (col_facet_row = None)) eqn:H3; [|done].
    apply bool_decide_eq_true in H1, H2, H3. by destruct (Hguard df).
  - intros df cells -> Hcol Hlen -> -> Hnodup.
    destruct fig as [f|e]; [|done]. cbn [mbind result_bind].
    rewrite !bool_decide_true; [|done|done|by eapply column_Some_elem].
    cbn [andb].
    rewrite <- (drop_0 (index df)).
    rewrite (add_baselines_unique df col_to_plot cells 0 f) by done.
    by rewrite drop_0.
Qed.

Lemma assoc_fmap_snd {A B : Type} (f : A → B) (name : string)
    (cols : list (string * A)) :
  assoc name ((λ nc, (nc.1, f nc.2)) <$> cols) = f <$> assoc name cols.
Proof.
  induction cols as [|[n c] cols IH]; [done|]. simpl.
  by destruct (String.eqb n name).
Qed.

Lemma assoc_is_Some {A : Type} (name : string) (cols : list (string * A)) :
  name ∈ cols.*1 → is_Some (assoc name cols).
Proof.
  induction cols as [|[n c] cols IH]; [by intros ?%elem_of_nil|].
  simpl. destruct (String.eqb n name) eqn:Heq; [by eexists|].
  apply String.eqb_neq in Heq. intros [?|?]%elem_of_cons; [congruence|by apply IH].
Qed.

(** X19.  Baseline lines from the reducer.  When the baseline aggregate of
    [reduce_sweep_results] is passed as [baseline_data] of a plot faceted by
    ["prompts"] without facet row, and the plotted column is one of the
    numeric columns of the baseline rows, the figure of [px_func] gets one
    line per distinct prompt of the baseline rows: the line of the prompt at
    position [i] in ascending order is drawn in the facet at column [i + 1],
    at the sum of the numbers the plotted column holds in the baseline rows of
    that prompt divided by their count.  A column that is not numeric, such
    as the text of the completions, gives no line, and neither does the
    column of the prompts. *)
Theorem reduce_then_plot :
  ∀ normal_df patched_df rich_prompts_df reduced_normal_df reduced_joined_df
    normal_prompts col_to_plot,
    column "prompts" normal_df = Some (CStr <$> normal_prompts) →
    length normal_prompts = nrows normal_df →
    reduce_sweep_results normal_df patched_df rich_prompts_df
    = Ok (reduced_normal_df, reduced_joined_df) →
    ∃ normal_groups,
      NoDup normal_groups
      ∧ (∀ p, p ∈ normal_groups ↔ p ∈ normal_prompts)
      ∧ Sorted (λ p q : string, String.leb p q) normal_groups
      ∧ ∀ data title col_x col_color (px_func : PxArgs → result Figure),
          plot_sweep_results data col_to_plot title col_x col_color
            (Some "prompts"%string) None (Some reduced_normal_df) px_func
          = fig ← px_func {| px_data := data; px_title := title;
                             px_color := col_color; px_y := col_to_plot;
                             px_x := col_x;
                             px_facet_col := Some "prompts"%string;
                             px_facet_row := None |};
            match assoc col_to_plot
                    (filter (λ nc, (nc.1 ∉ ["prompts"%string])
                                   ∧ spec_numeric nc.2 = true)
                       (columns normal_df)) with
            | Some cells =>
              add_hlines
                (imap (λ i p,
                   baseline_line i
                     (spec_mean
                        (spec_numbers cells (spec_group_rows normal_prompts p))))
                   normal_groups) fig
            | None => Ok fig
            end.
Proof.
  intros normal_df patched_df rich_prompts_df rn rj normal_prompts col_to_plot
    Hnp Hnlen Hreduce.
  assert (groupby_mean ["prompts"%string] normal_df = Ok rn) as Hrn.
  { unfold reduce_sweep_results in Hreduce.
    destruct (groupby_mean _ patched_df) as [reduced_df|e]; [|done].
    cbn [mbind result_bind] in Hreduce.
    destruct (join reduced_df _ _ ≫= _) as [joined|e]; [|done].
    cbn [mbind result_bind] in Hreduce.
    destruct (groupby_mean _ normal_df) as [rn'|e]; [|done].
    cbn [mbind result_bind] in Hreduce. by injection Hreduce as -> _. }
  destruct (groupby_mean_typed (λ p : string, [CStr p]) ["prompts"%string]
              normal_df [CStr <$> normal_prompts] normal_prompts)
    as (normal_groups & Hnodup & Hin & Hnormal).
  { simpl. by rewrite Hnp. }
  { simpl. by rewrite forallb_fmap_true. }
  { rewrite <- Hnlen. apply key_rows_prompts. }
  { done. }
  exists normal_groups. split_and!; [done|done| |].
  { apply groupby_mean_sorted in Hnormal. by apply prompt_keys_sorted. }
  rewrite Hrn in Hnormal. injection Hnormal as ->.
  intros data title col_x col_color px_func. unfold plot_sweep_results.
  destruct (px_func _) as [fig|e]; [|done]. cbn [mbind result_bind].
  rewrite !(bool_decide_true (_ = _)) by done.
  rewrite andb_true_r. unfold column_names. cbn [columns index].
  rewrite mean_columns_names, <- value_columns_spec_numeric.
  destruct (assoc col_to_plot (value_columns ["prompts"%string] normal_df))
    as [cells|] eqn:Hcells.
  - rewrite bool_decide_true by (by eapply assoc_Some_elem). cbn [andb].
    match goal with
    | |- add_baselines ?b _ _ _ _ = _ =>
      etrans;
        [apply (add_baselines_unique b col_to_plot
                  ((λ p, mean_cell (group_cells normal_prompts cells p))
                     <$> normal_groups) 0 fig)|]
    end.
    4:{ rewrite drop_0, imap_fmap. f_equal. apply imap_ext. intros i p _.
        simpl. by rewrite mean_cell_spec. }
    + simpl. by apply (NoDup_fmap_2 _).
    + unfold column, mean_columns. cbn [columns].
      rewrite (assoc_fmap_snd
                 (λ cells, (λ g, mean_cell (group_cells normal_prompts cells g))
                             <$> normal_groups)).
      by rewrite Hcells.
    + unfold nrows. simpl. by rewrite !length_fmap.
  - rewrite bool_decide_false; [done|].
    intros [c Hc]%assoc_is_Some. congruence.
Qed.
End plot_properties.

Lemma plot_sweep_results_baselines_witness :
  plot_sweep_results (Plotly0 := PlotExamples.recording_figure)
    Examples.patched_results "loss" "Loss by coefficient" (Some "coeff"%string)
    (Some "act_name"%string) (Some "prompts"%string) None
    (Some PlotExamples.reduced_normal_results) PlotExamples.empty_figure
  = Ok [baseline_line 0 (CFloat 1); baseline_line 1 (CFloat (3 # 4))].
Proof.
  apply (proj2 (plot_sweep_results_baselines
                  (Plotly0 := PlotExamples.recording_figure)
                  Examples.patched_results "loss"%string
                  "Loss by coefficient"%string (Some "coeff"%string)
                  (Some "act_name"%string) (Some "prompts"%string) None
                  (Some PlotExamples.reduced_normal_results)
                  PlotExamples.empty_figure)
           PlotExamples.reduced_normal_results [CFloat 1; CFloat (3 # 4)]);
    [reflexivity..|].
  apply NoDup_cons. split; [|apply NoDup_singleton].
  by intros [=]%list_elem_of_singleton.
Defined.

Lemma reduce_then_plot_witness :
  ∃ normal_groups,
    NoDup normal_groups
    ∧ (∀ p, p ∈ normal_groups ↔ p ∈ ["p"; "p"; "a"]%string)
    ∧ Sorted (λ p q : string, String.leb p q) normal_groups
    ∧ ∀ data title col_x col_color (px_func : PxArgs → result (list HLine)),
        plot_sweep_results (Plotly0 := PlotExamples.recording_figure)
          data "loss" title col_x col_color (Some "prompts"%string) None
          (Some {| index_names := [Some "prompts"%string];
                   index := [[CStr "a"]; [CStr "p"]];
                   columns :=
                     [ ("completion_index"%string, [CFloat 0; CFloat (1 # 2)]);
                       ("loss"%string, [CFloat 1; CFloat 1]) ] |}) px_func
        = fig ← px_func {| px_data := data; px_title := title;
                           px_color := col_color; px_y := "loss";
                           px_x := col_x;
                           px_facet_col := Some "prompts"%string;
                           px_facet_row := None |};
          match assoc "loss"
                  (filter (λ nc, (nc.1 ∉ ["prompts"%string])
                                 ∧ spec_numeric nc.2 = true)
                     (columns Examples.normal_results)) with
          | Some cells =>
            add_hlines (Plotly0 := PlotExamples.recording_figure)
              (imap (λ i p,
                 baseline_line i
                   (spec_mean
                      (spec_numbers cells
                         (spec_group_rows ["p"; "p"; "a"]%string p))))
                 normal_groups) fig
          | None => Ok fig
          end.
Proof.
  exact (reduce_then_plot (Plotly0 := PlotExamples.recording_figure)
           Examples.normal_results Examples.patched_results
           (pd_DataFrame Examples.scenario_rows) _ _ ["p"; "p"; "a"]%string
           "loss"%string eq_refl eq_refl reduce_sweep_results_example).
Defined.

(** * The sweeps over objects *)

Section object_properties.
Context {HookFn MetricsDict Kwargs : Type}.
Context {collaborators : Objects.Collaborators HookFn MetricsDict Kwargs}.
#[local] Existing Instances Objects.M_ret Objects.M_bind.
Local Open Scope nat_scope.


Lemma obj_bind_run {A B : Type} (m : Objects.M HookFn A)
    (f : A → Objects.M HookFn B) (s : Objects.Store HookFn) :
  (m ≫= f) s
  = match m s with
    | (s', Ok a) => f a s'
    | (s', Raise e) => (s', Raise e)
    end.
Proof. reflexivity. Qed.

(** ** Computations that keep the descriptor sets *)

Lemma keeps_sets_refl (s : Objects.Store HookFn) : keeps_sets s s.
Proof. split; [apply same_sets_refl|done]. Qed.

Lemma keeps_sets_trans (s1 s2 s3 : Objects.Store HookFn) :
  keeps_sets s1 s2 → keeps_sets s2 s3 → keeps_sets s1 s3.
Proof.
  intros [H1 L1] [H2 L2]. split; [by eapply same_sets_trans|lia].
Qed.

Lemma steady_ret {A : Type} (a : A) : steady (mret a : Objects.M HookFn A).
Proof. intros s. apply keeps_sets_refl. Qed.

Lemma steady_lift {A : Type} (r : result A) : steady (Objects.lift r : Objects.M HookFn A).
Proof. intros s. apply keeps_sets_refl. Qed.

Lemma steady_bind {A B : Type} (m : Objects.M HookFn A) (f : A → Objects.M HookFn B) :
  steady m → (∀ a, steady (f a)) → steady (m ≫= f).
Proof.
  intros Hm Hf s. rewrite obj_bind_run. specialize (Hm s).
  destruct (m s) as [s1 [a|e]]; simpl in *; [|done].
  eapply keeps_sets_trans; [exact Hm|apply Hf].
Qed.

Lemma steady_for_append {A B : Type} (l : list A) (f : A → Objects.M HookFn B) :
  (∀ x, steady (f x)) → steady (Objects.for_append l f).
Proof.
  intros Hf. induction l as [|x l IH]; simpl; [apply steady_ret|].
  apply steady_bind; [done|]. intros y.
  apply steady_bind; [done|]. intros ys. apply steady_ret.
Qed.

Lemma steady_for_each {A : Type} (l : list A) (f : A → Objects.M HookFn unit) :
  (∀ x, steady (f x)) → steady (Objects.for_each l f).
Proof.
  intros Hf. induction l as [|x l IH]; simpl; [apply steady_ret|].
  apply steady_bind; [done|]. by intros _.
Qed.

Lemma steady_new_table (df : DataFrame) :
  steady (Objects.new_table df : Objects.M HookFn _).
Proof.
  intros s. split; [apply same_sets_refl|]. simpl. rewrite length_app. lia.
Qed.

Lemma steady_read_table (r : Objects.ref) :
  steady (Objects.read_table r : Objects.M HookFn _).
Proof. intros s. apply keeps_sets_refl. Qed.

Lemma steady_setitem_at name value (r : Objects.ref) :
  steady (Objects.setitem_at name value r : Objects.M HookFn _).
Proof.
  intros s. unfold Objects.setitem_at.
  destruct (Objects.tables s !! r); [|apply keeps_sets_refl].
  split; [apply same_sets_refl|]. simpl. by rewrite length_insert.
Qed.

Lemma steady_concat_reset_index refs names :
  steady (Objects.concat_reset_index refs names : Objects.M HookFn _).
Proof.
  unfold Objects.concat_reset_index.
  apply steady_bind; [apply steady_for_append, steady_read_table|]. intros dfs.
  apply steady_bind; [apply steady_lift|]. intros df. apply steady_new_table.
Qed.

Lemma steady_remove_all_hook_fns :
  steady (Objects.remove_all_hook_fns : Objects.M HookFn unit).
Proof. intros s. split; [apply same_sets_refl|done]. Qed.

Lemma steady_add_hook act_name (hook_fn : HookFn) :
  steady (Objects.add_hook act_name hook_fn).
Proof. intros s. split; [apply same_sets_refl|done]. Qed.

Lemma steady_at_bind {A B : Type} cursor rich_prompts_this
    (m : Objects.M HookFn A) (f : A → Objects.M HookFn B) :
  steady_at cursor rich_prompts_this m → (∀ a, steady (f a)) →
  steady_at cursor rich_prompts_this (m ≫= f).
Proof.
  intros Hm Hf s Hs. rewrite obj_bind_run. specialize (Hm s Hs).
  destruct (m s) as [s1 [a|e]]; simpl in *; [|done].
  eapply keeps_sets_trans; [exact Hm|apply Hf].
Qed.

Lemma same_sets_write_back cursor rich_prompts_this (it : Iterable) :
  items it !! cursor = Some rich_prompts_this →
  same_sets it (Objects.write_back cursor rich_prompts_this it).
Proof.
  intros Hitem. destruct it as [l|l pos]; simpl in *; by rewrite list_insert_id.
Qed.

Lemma for_append_read_table (refs : list Objects.ref) (s : Objects.Store HookFn) :
  (Objects.for_append refs Objects.read_table s).1 = s.
Proof.
  induction refs as [|r refs IH]; [done|]. simpl.
  rewrite obj_bind_run. unfold Objects.read_table at 1.
  destruct (Objects.tables s !! r) as [df|]; [|done].
  rewrite obj_bind_run. destruct (Objects.for_append refs _ s) as [s1 [dfs|e]];
    simpl in *; by subst.
Qed.

(** What [pd.concat(refs).reset_index(names=names)] returns is a table that
    was not there before, and the only one. *)
Lemma concat_reset_index_made refs names (s s' : Objects.Store HookFn) r :
  Objects.concat_reset_index refs names s = (s', Ok r) →
  r = length (Objects.tables s)
  ∧ Objects.world s' = Objects.world s
  ∧ ∃ dfs df,
      Objects.for_append refs Objects.read_table s = (s, Ok dfs)
      ∧ pd_concat dfs ≫= reset_index (Some names) = Ok df
      ∧ Objects.tables s' = Objects.tables s ++ [df].
Proof.
  unfold Objects.concat_reset_index. rewrite obj_bind_run.
  pose proof (for_append_read_table refs s) as Hs.
  destruct (Objects.for_append refs _ s) as [s1 [dfs|e]]; simpl in Hs; subst s1;
    [|done].
  rewrite obj_bind_run. unfold Objects.lift at 1.
  destruct (pd_concat dfs ≫= reset_index (Some names)) as [df|e] eqn:Hdf; [|done].
  unfold Objects.new_table. intros [= <- <-]. split_and!; [done..|].
  by exists dfs, df.
Qed.

Section contracts.
Context `{!ReadOnlyContract collaborators} `{!HeapContract collaborators}.

Lemma steady_call_gen_using_hooks prompt_batch hook_fns tokens seed kwargs :
  steady (Objects.call_gen_using_hooks prompt_batch hook_fns tokens seed kwargs).
Proof.
  intros s. split; [apply same_sets_refl|]. simpl.
  apply (gen_using_hooks_objects collaborators).
Qed.

Lemma steady_call_add_metric_cols data metrics_dict cols_to_use metric_args :
  steady (Objects.call_add_metric_cols data metrics_dict cols_to_use metric_args).
Proof.
  intros s. split; [apply same_sets_refl|]. simpl.
  apply (add_metric_cols_objects collaborators).
Qed.

Lemma steady_call_gen_using_rich_prompts cursor rich_prompts_this prompt_batch
    tokens seed kwargs :
  steady_at cursor rich_prompts_this
    (Objects.call_gen_using_rich_prompts cursor rich_prompts_this prompt_batch
       tokens seed kwargs).
Proof.
  intros s Hs. split; simpl.
  - rewrite (gen_using_rich_prompts_read_only collaborators).
    by apply same_sets_write_back.
  - apply (gen_using_rich_prompts_objects collaborators).
Qed.

Lemma steady_call_hook_fns_from_rich_prompts cursor rich_prompts_this :
  steady_at cursor rich_prompts_this
    (Objects.call_hook_fns_from_rich_prompts cursor rich_prompts_this).
Proof.
  intros s Hs. split; simpl; [|done].
  rewrite (hook_fns_from_rich_prompts_read_only collaborators).
  by apply same_sets_write_back.
Qed.

Lemma steady_enumerate_from {A : Type} (rounds index cursor : nat)
    (body : nat → nat → list RichPrompt → Objects.M HookFn A) :
  (∀ i c x, steady_at c x (body i c x)) →
  steady (Objects.enumerate_from rounds index cursor body).
Proof.
  intros Hbody. revert index cursor.
  induction rounds as [|rounds IH]; intros index cursor s; simpl.
  - apply keeps_sets_refl.
  - destruct (items (rich_prompts (Objects.world s)) !! cursor) as [x|] eqn:Hx;
      [|apply keeps_sets_refl].
    set (s1 := {| Objects.world := _; Objects.tables := _ |}).
    assert (keeps_sets s s1) as Hs1.
    { split; [apply same_sets_advance|done]. }
    eapply keeps_sets_trans; [exact Hs1|].
    assert (steady_at cursor x
              (y ← body index cursor x;
               ys ← Objects.enumerate_from rounds (S index) (S cursor) body;
               mret (y :: ys))) as Hround.
    { apply steady_at_bind; [done|]. intros y.
      apply steady_bind; [done|]. intros ys. apply steady_ret. }
    apply Hround. subst s1. simpl.
    by destruct (rich_prompts (Objects.world s)).
Qed.

Lemma steady_for_enumerate {A : Type}
    (body : nat → nat → list RichPrompt → Objects.M HookFn A) :
  (∀ i c x, steady_at c x (body i c x)) → steady (Objects.for_enumerate body).
Proof.
  intros Hbody s. unfold Objects.for_enumerate. by apply steady_enumerate_from.
Qed.

Lemma steady_metrics_round texts_df metrics_dict metric_args index cursor
    rich_prompts_this :
  steady_at cursor rich_prompts_this
    (Objects.metrics_round texts_df metrics_dict metric_args index cursor
       rich_prompts_this).
Proof.
  unfold Objects.metrics_round.
  apply steady_at_bind; [apply steady_call_hook_fns_from_rich_prompts|].
  intros hook_fns.
  apply steady_bind; [apply steady_remove_all_hook_fns|]. intros _.
  apply steady_bind.
  { apply steady_for_each. intros [a h]. apply steady_add_hook. }
  intros _.
  apply steady_bind; [apply steady_call_add_metric_cols|]. intros df.
  apply steady_bind; [apply steady_setitem_at|]. intros _.
  apply steady_bind; [apply steady_remove_all_hook_fns|]. intros _.
  apply steady_ret.
Qed.

Lemma steady_completion_lists prompts n m tokens seed kwargs :
  steady (Objects.completion_lists prompts n m tokens seed kwargs).
Proof.
  unfold Objects.completion_lists. apply steady_for_append. intros prompt.
  apply steady_bind; [apply steady_call_gen_using_hooks|]. intros df.
  apply steady_bind; [|intros; apply steady_ret].
  apply steady_for_enumerate. intros i c x.
  apply steady_at_bind; [apply steady_call_gen_using_rich_prompts|].
  intros r. apply steady_bind; [apply steady_setitem_at|]. intros _.
  apply steady_ret.
Qed.

Lemma steady_sweep_over_metrics texts metrics_dict metric_args :
  steady (Objects.sweep_over_metrics texts metrics_dict metric_args).
Proof.
  unfold Objects.sweep_over_metrics.
  apply steady_bind; [apply steady_new_table|]. intros texts_df.
  apply steady_bind; [|intros; apply steady_concat_reset_index].
  apply steady_for_enumerate. intros i c x. apply steady_metrics_round.
Qed.

Lemma steady_sweep_over_prompts prompts n m tokens seed metrics_dict kwargs :
  steady (Objects.sweep_over_prompts prompts n m tokens seed metrics_dict kwargs).
Proof.
  unfold Objects.sweep_over_prompts.
  apply steady_bind; [apply steady_completion_lists|]. intros lists.
  apply steady_bind; [apply steady_concat_reset_index|]. intros normal_all.
  apply steady_bind; [apply steady_concat_reset_index|]. intros patched_all.
  destruct metrics_dict as [metrics_dict|]; [|apply steady_ret].
  apply steady_bind; [apply steady_call_add_metric_cols|]. intros normal_all'.
  apply steady_bind; [apply steady_call_add_metric_cols|]. intros patched_all'.
  apply steady_ret.
Qed.

Lemma sweep_over_metrics_made texts metrics_dict metric_args s s' patched_all :
  Objects.sweep_over_metrics texts metrics_dict metric_args s
  = (s', Ok patched_all) →
  made_since s s' patched_all.
Proof.
  unfold Objects.sweep_over_metrics. rewrite obj_bind_run.
  unfold Objects.new_table at 1. rewrite obj_bind_run.
  match goal with
  | |- context [Objects.for_enumerate ?b ?s0] =>
    pose proof (steady_for_enumerate b
                  (λ i c x, steady_metrics_round _ _ _ i c x) s0) as [_ Hlen];
    destruct (Objects.for_enumerate b s0) as [s1 [patched_list|e]]; [|done]
  end.
  simpl in Hlen. rewrite length_app in Hlen.
  intros (-> & _ & dfs & df & _ & _ & Htables)%concat_reset_index_made.
  unfold made_since. rewrite Htables, length_app. simpl. lia.
Qed.

Lemma sweep_over_prompts_made prompts n m tokens seed metrics_dict kwargs s s'
    normal_all patched_all :
  Objects.sweep_over_prompts prompts n m tokens seed metrics_dict kwargs s
  = (s', Ok (normal_all, patched_all)) →
  (is_Some metrics_dict → scores_own_table collaborators) →
  made_since s s' normal_all ∧ made_since s s' patched_all
  ∧ normal_all ≠ patched_all.
Proof.
  unfold Objects.sweep_over_prompts. rewrite obj_bind_run.
  pose proof (steady_completion_lists prompts n m tokens seed kwargs s)
    as [_ Hlen].
  destruct (Objects.completion_lists _ _ _ _ _ _ s) as [s1 [lists|e]]; [|done].
  simpl in Hlen. rewrite obj_bind_run.
  destruct (Objects.concat_reset_index lists.*1 _ s1) as [s2 [r1|e]] eqn:H1;
    [|done].
  apply concat_reset_index_made in H1 as (-> & _ & ? & ? & _ & _ & Ht2).
  rewrite obj_bind_run.
  destruct (Objects.concat_reset_index (mjoin lists.*2) _ s2) as [s3 [r2|e]]
    eqn:H2; [|done].
  apply concat_reset_index_made in H2 as (-> & _ & ? & ? & _ & _ & Ht3).
  assert (length (Objects.tables s2) = S (length (Objects.tables s1))) as Hl2.
  { rewrite Ht2, length_app. simpl. lia. }
  assert (length (Objects.tables s3) = S (length (Objects.tables s2))) as Hl3.
  { rewrite Ht3, length_app. simpl. lia. }
  unfold made_since.
  destruct metrics_dict as [metrics_dict|].
  - intros Hrun Hown. specialize (Hown ltac:(by eexists)).
    rewrite obj_bind_run in Hrun. unfold Objects.call_add_metric_cols at 1 in Hrun.
    pose proof (add_metric_cols_objects collaborators
                  (length (Objects.tables s1)) metrics_dict None None
                  (model_hooks (Objects.world s3)) (Objects.tables s3))
      as [Hg1 Hr1].
    pose proof (Hown (length (Objects.tables s1)) metrics_dict None None
                  (model_hooks (Objects.world s3)) (Objects.tables s3)) as Ho1.
    destruct (Objects.add_metric_cols (length (Objects.tables s1)) _ _ _ _ _)
      as [t4 [a|e]]; simpl in *; [|done].
    specialize (Hr1 a eq_refl). specialize (Ho1 a eq_refl).
    rewrite obj_bind_run in Hrun. unfold Objects.call_add_metric_cols at 1 in Hrun.
    simpl in Hrun.
    pose proof (add_metric_cols_objects collaborators
                  (length (Objects.tables s2)) metrics_dict None None
                  (model_hooks (Objects.world s3)) t4) as [Hg2 Hr2].
    pose proof (Hown (length (Objects.tables s2)) metrics_dict None None
                  (model_hooks (Objects.world s3)) t4) as Ho2.
    destruct (Objects.add_metric_cols (length (Objects.tables s2)) _ _ _ _ _)
      as [t5 [b|e]]; simpl in *; [|done].
    specialize (Hr2 b eq_refl). specialize (Ho2 b eq_refl).
    injection Hrun as <- <- <-. simpl. lia.
  - intros [= <- <- <-] _. lia.
Qed.
End contracts.
End object_properties.

(** ** The rounds of the metric sweep *)

Section metric_rounds.
Context {HookFn MetricsDict Kwargs : Type}.
Context {collaborators : Objects.Collaborators HookFn MetricsDict Kwargs}.
Context `{!ReadOnlyContract collaborators}.
#[local] Existing Instances Objects.M_ret Objects.M_bind.
Local Open Scope nat_scope.

Lemma write_back_id cursor rich_prompts_this (it : Iterable) :
  items it !! cursor = Some rich_prompts_this →
  Objects.write_back cursor rich_prompts_this it = it.
Proof.
  intros Hitem. destruct it as [l|l pos]; simpl in *; by rewrite list_insert_id.
Qed.

Lemma obj_for_each_add_hook (hook_fns : list (ActName * HookFn))
    (s : Objects.Store HookFn) :
  Objects.for_each hook_fns
    (λ '(act_name, hook_fn), Objects.add_hook act_name hook_fn) s
  = ({| Objects.world := with_hooks (model_hooks (Objects.world s) ++ hook_fns)
                           (Objects.world s);
        Objects.tables := Objects.tables s |}, Ok tt).
Proof.
  revert s. induction hook_fns as [|[a h] hook_fns IH]; intros s; simpl.
  - unfold with_hooks. rewrite app_nil_r. by destruct s as [[] ?].
  - rewrite obj_bind_run. simpl. rewrite IH. unfold with_hooks. simpl.
    by rewrite <- app_assoc.
Qed.

Lemma obj_metrics_round_run texts_df metrics_dict metric_args index cursor
    rich_prompts_this (s : Objects.Store HookFn) :
  items (rich_prompts (Objects.world s)) !! cursor = Some rich_prompts_this →
  Objects.metrics_round texts_df metrics_dict metric_args index cursor
    rich_prompts_this s
  = match (Objects.hook_fns_from_rich_prompts rich_prompts_this
             (model_hooks (Objects.world s))).2 with
    | Raise e => (s, Raise e)
    | Ok hook_fns =>
      let out :=
        Objects.add_metric_cols texts_df metrics_dict (Some "text"%string)
          (Some metric_args) hook_fns (Objects.tables s) in
      match out.2 with
      | Raise e =>
        ({| Objects.world := with_hooks hook_fns (Objects.world s);
            Objects.tables := out.1 |}, Raise e)
      | Ok r =>
        match out.1 !! r with
        | None =>
          ({| Objects.world := with_hooks hook_fns (Objects.world s);
              Objects.tables := out.1 |}, Raise (ExternalError "no such object"))
        | Some df =>
          ({| Objects.world := with_hooks [] (Objects.world s);
              Objects.tables :=
                <[r := setitem "rich_prompt_index" (CInt (Z.of_nat index)) df]>
                  out.1 |}, Ok r)
        end
      end
    end.
Proof.
  intros Hitem. unfold Objects.metrics_round. rewrite obj_bind_run.
  unfold Objects.call_hook_fns_from_rich_prompts.
  rewrite (hook_fns_from_rich_prompts_read_only collaborators).
  rewrite (write_back_id _ _ _ Hitem).
  destruct (Objects.hook_fns_from_rich_prompts _ _).2 as [hook_fns|e].
  2:{ by destruct s as [[] ?]. }
  rewrite obj_bind_run. simpl. rewrite obj_bind_run, obj_for_each_add_hook. simpl.
  rewrite obj_bind_run. unfold Objects.call_add_metric_cols, with_hooks. simpl.
  destruct (Objects.add_metric_cols _ _ _ _ _ _) as [scored [r|e]]; simpl; [|done].
  rewrite obj_bind_run. unfold Objects.setitem_at at 1. simpl.
  by destruct (scored !! r).
Qed.

Lemma obj_enumerate_from_metrics texts_df metrics_dict metric_args sets rounds
    index cursor (s s' : Objects.Store HookFn) refs :
  rich_prompts (Objects.world s) = Sequence sets
  ∨ rich_prompts (Objects.world s) = Iterator sets cursor →
  rounds = length sets - cursor →
  Objects.enumerate_from rounds index cursor
    (Objects.metrics_round texts_df metrics_dict metric_args) s = (s', Ok refs)
  ↔ metric_rounds texts_df metrics_dict metric_args
      (model_hooks (Objects.world s)) index (drop cursor sets)
      (Objects.tables s) refs (Objects.tables s')
    ∧ Objects.world s'
      = {| model_hooks :=
             match refs with [] => model_hooks (Objects.world s) | _ => [] end;
           rich_prompts :=
             match rich_prompts (Objects.world s) with
             | Sequence _ => Sequence sets
             | Iterator _ _ => Iterator sets (cursor + rounds)
             end;
           gen_calls := gen_calls (Objects.world s) |}.
Proof.
  revert index cursor s s' refs.
  induction rounds as [|rounds IH]; intros index cursor s s' refs Hrp Hrounds.
  - rewrite drop_ge by lia. simpl. split.
    + intros [= <- <-]. split; [done|]. destruct s as [[h rp g] t]. simpl in *.
      destruct Hrp as [-> | ->]; [done|]. by rewrite Nat.add_0_r.
    + intros [Hr Hw]. destruct refs; [|done]. simpl in Hr.
      destruct s as [[h rp g] t], s' as [w' t']. simpl in *. subst.
      destruct Hrp as [-> | ->]; [done|]. by rewrite Nat.add_0_r.
  - assert (items (rich_prompts (Objects.world s)) = sets) as Hitems.
    { by destruct Hrp as [-> | ->]. }
    destruct (lookup_lt_is_Some_2 sets cursor) as [x Hx]; [lia|].
    cbn [Objects.enumerate_from]. rewrite Hitems, Hx, (drop_S _ _ _ Hx).
    rewrite obj_bind_run, (obj_metrics_round_run _ _ _ _ _ x).
    2:{ simpl. by destruct Hrp as [-> | ->]. }
    cbn [Objects.world Objects.tables model_hooks].
    destruct (Objects.hook_fns_from_rich_prompts x
                (model_hooks (Objects.world s))).2 as [hook_fns|e] eqn:Hcompile.
    2:{ split; [done|]. intros [Hr _]. destruct refs as [|r0 refs]; [done|].
        destruct Hr as (? & ? & ? & Hc & _). congruence. }
    cbn zeta.
    destruct (Objects.add_metric_cols texts_df metrics_dict (Some "text"%string)
                (Some metric_args) hook_fns (Objects.tables s))
      as [scored [r|e]] eqn:Hscore; cbn [fst snd].
    2:{ split; [done|]. intros [Hr _]. destruct refs as [|r0 refs]; [done|].
        destruct Hr as (hf & sc & df & Hc & Hs & _).
        rewrite Hcompile in Hc. injection Hc as <-. congruence. }
    destruct (scored !! r) as [df|] eqn:Hdf.
    2:{ split; [done|]. intros [Hr _]. destruct refs as [|r0 refs]; [done|].
        destruct Hr as (hf & sc & df & Hc & Hs & Hl & _).
        rewrite Hcompile in Hc. injection Hc as <-.
        rewrite Hscore in Hs. injection Hs as <- <-. congruence. }
    rewrite obj_bind_run.
    match goal with
    | |- context [Objects.enumerate_from rounds (S index) (S cursor) ?b ?s1] =>
      specialize (IH (S index) (S cursor) s1);
      destruct (Objects.enumerate_from rounds (S index) (S cursor) b s1)
        as [s2 [ys|e]] eqn:Hrest
    end.
    all: unfold with_hooks in IH;
      cbn [Objects.world Objects.tables model_hooks rich_prompts gen_calls] in IH.
    all: assert (advance cursor (rich_prompts (Objects.world s)) = Sequence sets
                 ∨ advance cursor (rich_prompts (Objects.world s))
                   = Iterator sets (S cursor)) as Hrp1
      by (destruct Hrp as [-> | ->]; [by left|by right]).
    all: assert (rounds = length sets - S cursor) as Hrounds1 by lia.
    all: assert (match advance cursor (rich_prompts (Objects.world s)) with
                 | Sequence _ => Sequence sets
                 | Iterator _ _ => Iterator sets (S cursor + rounds)
                 end
                 = match rich_prompts (Objects.world s) with
                   | Sequence _ => Sequence sets
                   | Iterator _ _ => Iterator sets (cursor + S rounds)
                   end) as Hafter
      by (destruct Hrp as [-> | ->]; simpl; [done|f_equal; lia]).
    + destruct (proj1 (IH s2 ys Hrp1 Hrounds1) eq_refl) as [Hys Hw2].
      split.
      * intros [= <- <-]. split; [by exists hook_fns, scored, df|].
        rewrite Hw2, Hafter. by destruct ys.
      * intros [Hr Hw]. destruct refs as [|r0 refs]; [done|].
        destruct Hr as (hf & sc & df' & Hc & Hs & Hl & Hr).
        rewrite Hcompile in Hc. injection Hc as <-.
        rewrite Hscore in Hs. injection Hs as <- <-.
        rewrite Hdf in Hl. injection Hl as <-.
        assert ((s2, Ok ys : result (list Objects.ref)) = (s', Ok refs)) as Heq.
        { apply IH; [done..|]. split; [exact Hr|].
          rewrite Hw, Hafter. by destruct refs. }
        by injection Heq as <- <-.
    + split; [done|]. intros [Hr Hw]. destruct refs as [|r0 refs]; [done|].
      destruct Hr as (hf & sc & df' & Hc & Hs & Hl & Hr).
      rewrite Hcompile in Hc. injection Hc as <-.
      rewrite Hscore in Hs. injection Hs as <- <-.
      rewrite Hdf in Hl. injection Hl as <-.
      exfalso.
      assert ((s2, Raise e : result (list Objects.ref)) = (s', Ok refs)) as Heq;
        [|done].
      apply IH; [done..|]. split; [exact Hr|].
      rewrite Hw, Hafter. by destruct refs.
Qed.

Lemma obj_for_enumerate_metrics texts_df metrics_dict metric_args
    (s s' : Objects.Store HookFn) refs :
  Objects.for_enumerate (Objects.metrics_round texts_df metrics_dict metric_args) s
  = (s', Ok refs)
  ↔ metric_rounds texts_df metrics_dict metric_args
      (model_hooks (Objects.world s)) 0 (remaining (rich_prompts (Objects.world s)))
      (Objects.tables s) refs (Objects.tables s')
    ∧ Objects.world s'
      = {| model_hooks :=
             match refs with [] => model_hooks (Objects.world s) | _ => [] end;
           rich_prompts := after_loop (rich_prompts (Objects.world s));
           gen_calls := gen_calls (Objects.world s) |}.
Proof.
  unfold Objects.for_enumerate, remaining.
  rewrite (obj_enumerate_from_metrics _ _ _
             (items (rich_prompts (Objects.world s)))); [| |done].
  - assert (match rich_prompts (Objects.world s) with
            | Sequence _ => Sequence (items (rich_prompts (Objects.world s)))
            | Iterator _ _ =>
              Iterator (items (rich_prompts (Objects.world s)))
                (iter_start (rich_prompts (Objects.world s))
                 + (length (items (rich_prompts (Objects.world s)))
                    - iter_start (rich_prompts (Objects.world s))))
            end = after_loop (rich_prompts (Objects.world s))) as ->; [|done].
    destruct (rich_prompts (Objects.world s)) as [l|l pos]; simpl; [done|].
    f_equal. lia.
  - destruct (rich_prompts (Objects.world s)); [by left|by right].
Qed.
End metric_rounds.

Lemma for_append_read_table_iff {HookFn : Type} (refs : list Objects.ref)
    (s : Objects.Store HookFn) (dfs : list DataFrame) :
  Objects.for_append refs Objects.read_table s = (s, Ok dfs)
  ↔ Forall2 (λ r df, Objects.tables s !! r = Some df) refs dfs.
Proof.
  revert dfs. induction refs as [|r refs IH]; intros dfs; simpl.
  - split; [intros [= <-]; constructor|by intros ->%Forall2_nil_inv_l].
  - rewrite obj_bind_run. unfold Objects.read_table at 1.
    destruct (Objects.tables s !! r) as [df|] eqn:Hr.
    + rewrite obj_bind_run.
      pose proof (for_append_read_table refs s) as Hs.
      destruct (Objects.for_append refs _ s) as [s1 [ys|e]] eqn:Hrest;
        simpl in Hs; subst s1.
      * split.
        { intros [= <-]. constructor; [done|]. by apply IH. }
        { intros (df' & dfs' & Hdf & Hall & ->)%Forall2_cons_inv_l.
          apply IH in Hall. by simplify_eq. }
      * split; [done|].
        intros (df' & dfs' & Hdf & Hall & ->)%Forall2_cons_inv_l.
        apply IH in Hall. done.
    + split; [done|]. intros (df' & dfs' & Hdf & _)%Forall2_cons_inv_l. congruence.
Qed.


Lemma obj_sweep_over_metrics_inv {HookFn MetricsDict Kwargs : Type}
    (collaborators : Objects.Collaborators HookFn MetricsDict Kwargs)
    (s s' : Objects.Store HookFn) texts metrics_dict metric_args patched_all :
  ReadOnlyContract collaborators →
  Objects.sweep_over_metrics texts metrics_dict metric_args s
  = (s', Ok patched_all) →
  ∃ patched_list tables' frames all,
    metric_rounds (length (Objects.tables s)) metrics_dict metric_args
      (model_hooks (Objects.world s)) 0
      (remaining (rich_prompts (Objects.world s)))
      (Objects.tables s ++ [pd_DataFrame_text texts]) patched_list tables'
    ∧ Forall2 (λ r df, tables' !! r = Some df) patched_list frames
    ∧ pd_concat frames ≫= reset_index (Some ["text_index"%string]) = Ok all
    ∧ patched_all = length tables'
    ∧ Objects.tables s' = tables' ++ [all].
Proof.
  intros Hro. unfold Objects.sweep_over_metrics.
  rewrite obj_bind_run. unfold Objects.new_table at 1. rewrite obj_bind_run.
  destruct (Objects.for_enumerate _ _) as [s1 [refs|e]] eqn:Hloop; [|done].
  apply obj_for_enumerate_metrics in Hloop as [Hrounds Hw1].
  intros (-> & Hw & dfs & df & Hread & Hconcat & Htables)%concat_reset_index_made.
  apply for_append_read_table_iff in Hread.
  by exists refs, (Objects.tables s1), dfs, df.
Qed.

(** ** The table of a metric sweep *)

Lemma concat_reset_index_inv (name : string) (frames : list DataFrame)
    (all : DataFrame) :
  Forall (λ df, length (index_names df) = 1%nat) frames →
  pd_concat frames ≫= reset_index (Some [name]) = Ok all →
  index all = RangeIndex (length (frames ≫= index))
  ∧ column name all
    = Some ((λ label, default CNaN (label !! 0%nat)) <$> (frames ≫= index))
  ∧ ∀ name', name' ≠ name →
      column name' all
      = if decide (name' ∈ frames ≫= column_names)
        then Some (concat_column frames name') else None.
Proof.
  intros Hall. destruct frames as [|df0 frames]; [done|].
  assert (length (index_names df0) = 1%nat) as Hnames.
  { by apply Forall_cons in Hall as [? _]. }
  destruct (pd_concat_cons df0 frames) as (names & Hlen & ->).
  rewrite Hnames in Hlen.
  unfold mbind at 1, result_bind. unfold reset_index. cbn [index_names columns].
  rewrite Hlen. simpl.
  destruct (bool_decide _) eqn:Hin; [done|]. intros [= <-].
  apply bool_decide_eq_false in Hin. rewrite fmap_fst_names in Hin.
  split_and!.
  - done.
  - unfold column. simpl. by rewrite String.eqb_refl.
  - intros name' Hne. unfold column. simpl.
    rewrite (proj2 (String.eqb_neq name name')) by done.
    rewrite assoc_fmap_names.
    destruct (decide (name' ∈ first_appearance _)) as [Hin'|Hin'];
      rewrite elem_of_first_appearance in Hin'.
    + by rewrite decide_True.
    + by rewrite decide_False.
Qed.

Lemma text_frame_labels (texts : Texts) :
  (λ label, default CNaN (label !! 0%nat)) <$> index (pd_DataFrame_text texts)
  = text_labels texts.
Proof.
  destruct texts as [values|name items]; simpl.
  - apply RangeIndex_labels.
  - rewrite <- list_fmap_compose. by apply list_fmap_ext.
Qed.

Lemma text_frame_column (texts : Texts) :
  column "text" (pd_DataFrame_text texts) = Some (CStr <$> text_values texts).
Proof.
  destruct texts as [values|name items]; [done|]. unfold column. simpl.
  f_equal. rewrite <- list_fmap_compose. by apply list_fmap_ext.
Qed.

Lemma text_frame_nrows (texts : Texts) :
  nrows (pd_DataFrame_text texts) = length (text_values texts).
Proof.
  destruct texts as [values|name items]; unfold nrows; simpl.
  - apply nrows_RangeIndex.
  - by rewrite !length_fmap.
Qed.

Lemma text_frame_levels (texts : Texts) :
  length (index_names (pd_DataFrame_text texts)) = 1%nat.
Proof. by destruct texts. Qed.

Section scoring.
Context {HookFn MetricsDict Kwargs : Type}.
Context {collaborators : Objects.Collaborators HookFn MetricsDict Kwargs}.
Local Open Scope nat_scope.

Lemma tagged_copy_setitem data tag df :
  scored_frame data "text" df →
  tagged_copy data tag (setitem "rich_prompt_index" (CInt (Z.of_nat tag)) df).
Proof.
  intros (Hnames & Hindex & Hcol). split_and!; [done|done| |].
  - by rewrite column_setitem_ne.
  - rewrite column_setitem_eq. unfold nrows. by rewrite Hindex.
Qed.

Lemma metric_rounds_afresh texts_df metrics_dict metric_args hooks start sets
    tables refs tables' data :
  scores_afresh collaborators →
  tables !! texts_df = Some data →
  metric_rounds texts_df metrics_dict metric_args hooks start sets tables refs
    tables' →
  (∀ a, a < length tables → tables' !! a = tables !! a)
  ∧ Forall2 (λ i r, ∃ df, tables' !! r = Some df ∧ tagged_copy data i df)
      (seq start (length sets)) refs.
Proof.
  intros Hfresh. revert hooks start tables refs.
  induction sets as [|x sets IH]; intros hooks start tables [|r refs] Hdata;
    simpl; [|done|done|].
  - intros ->. split; [done|constructor].
  - intros (hook_fns & scored & df & _ & Hscore & Hdf & Hrest).
    destruct (Hfresh _ _ _ _ _ _ _ _ Hdata Hscore) as (Hr & Hkept & df' & Hdf' & Hsc).
    rewrite Hdf in Hdf'. injection Hdf' as <-.
    pose proof (lookup_lt_Some _ _ _ Hdata) as Hlt.
    pose proof (lookup_lt_Some _ _ _ Hdf) as Hltr.
    apply IH in Hrest as [Hkept' Hrefs].
    2:{ rewrite list_lookup_insert_ne by lia. rewrite Hkept by lia. done. }
    rewrite length_insert in Hkept'. split.
    + intros a Ha. rewrite Hkept' by lia.
      rewrite list_lookup_insert_ne by lia. by apply Hkept.
    + constructor; [|done]. eexists. split.
      * rewrite Hkept' by lia. by apply list_lookup_insert_eq.
      * by apply tagged_copy_setitem.
Qed.

Lemma metric_rounds_in_place texts_df metrics_dict metric_args hooks start sets
    tables refs tables' data :
  scores_in_place collaborators →
  tables !! texts_df = Some data →
  metric_rounds texts_df metrics_dict metric_args hooks start sets tables refs
    tables' →
  refs = replicate (length sets) texts_df
  ∧ (sets = [] → tables' = tables)
  ∧ ∃ df, tables' !! texts_df = Some df
      ∧ index_names df = index_names data
      ∧ index df = index data
      ∧ column "text" df = column "text" data
      ∧ (sets ≠ [] →
         column "rich_prompt_index" df
         = Some (replicate (nrows data)
                   (CInt (Z.of_nat (start + length sets - 1))))).
Proof.
  intros Hplace. revert hooks start tables refs data.
  induction sets as [|x sets IH]; intros hooks start tables [|r refs] data Hdata;
    simpl; [|done|done|].
  - intros ->. split_and!; [done..|]. by exists data.
  - intros (hook_fns & scored & df & _ & Hscore & Hdf & Hrest).
    destruct (Hplace _ _ _ _ _ _ _ _ Hdata Hscore) as (-> & df' & Hdf' & Hsc).
    rewrite Hdf in Hdf'. injection Hdf' as <-.
    pose proof (lookup_lt_Some _ _ _ Hdf) as Hltr.
    apply (IH _ _ _ _ (setitem "rich_prompt_index" (CInt (Z.of_nat start)) df))
      in Hrest as (-> & Hnil & df' & Hdf' & Hnames & Hindex & Htext & Htag).
    2:{ by apply list_lookup_insert_eq. }
    destruct (tagged_copy_setitem data start df Hsc)
      as (Hnames0 & Hindex0 & Htext0 & Htag0).
    split_and!; [done|done|]. exists df'.
    split_and!; [done|congruence|congruence|congruence|].
    intros _. destruct sets as [|x' sets].
    + rewrite Hnil in Hdf' by done.
      rewrite list_lookup_insert_eq in Hdf' by done. injection Hdf' as <-.
      rewrite Htag0. do 3 f_equal. simpl. lia.
    + rewrite Htag by done. unfold nrows at 1. rewrite Hindex0.
      fold (nrows data). do 3 f_equal. simpl. lia.
Qed.
End scoring.

Lemma labels_Forall2_index {A : Type} (labels : list (list cell)) (xs : list A)
    (frames : list DataFrame) :
  Forall2 (λ _ df, index df = labels) xs frames →
  (λ label, default CNaN (label !! 0%nat)) <$> (frames ≫= index)
  = xs ≫= (λ _, (λ label, default CNaN (label !! 0%nat)) <$> labels).
Proof.
  induction 1 as [|x df xs frames Hdf _ IH]; [done|].
  rewrite !bind_cons, fmap_app, IH, Hdf. done.
Qed.

Lemma Forall2_replicate_lookup {A : Type} (tables : list A) (m a : nat)
    (frames : list A) (x : A) :
  Forall2 (λ r df, tables !! r = Some df) (replicate m a) frames →
  tables !! a = Some x →
  frames = replicate m x.
Proof.
  intros Hread Hx. revert frames Hread.
  induction m as [|m IH]; intros frames Hread; simpl in *.
  - by apply Forall2_nil_inv_l in Hread.
  - apply Forall2_cons_inv_l in Hread as (df & frames' & Hdf & Hread & ->).
    f_equal; [congruence|by apply IH].
Qed.

Lemma Forall2_seq_replicate {A : Type} (P : A → Prop) (start m : nat) (x : A) :
  P x → Forall2 (λ _ df, P df) (seq start m) (replicate m x).
Proof.
  intros Hx. revert start. induction m as [|m IH]; intros start; simpl;
    constructor; [done|apply IH].
Qed.

Lemma blocks_const {A : Type} (n : nat) (c : cell) (xs : list A) :
  blocks n (λ _, c) xs = replicate (length xs * n) c.
Proof.
  unfold blocks. induction xs as [|x xs IH]; [done|].
  rewrite bind_cons, IH. simpl. by rewrite replicate_add.
Qed.

(** The concatenation of one tagged copy of the table of the texts per
    descriptor set. *)
Lemma tagged_frames_concat (texts : Texts) (tag : nat → cell) (m : nat)
    (frames : list DataFrame) (all : DataFrame) :
  Forall2 (λ i df,
      index_names df = index_names (pd_DataFrame_text texts)
      ∧ index df = index (pd_DataFrame_text texts)
      ∧ column "text" df = column "text" (pd_DataFrame_text texts)
      ∧ column "rich_prompt_index" df
        = Some (replicate (nrows (pd_DataFrame_text texts)) (tag i)))
    (seq 0 m) frames →
  pd_concat frames ≫= reset_index (Some ["text_index"%string]) = Ok all →
  nrows all = (m * length (text_values texts))%nat
  ∧ index all = RangeIndex (m * length (text_values texts))
  ∧ column "text" all = Some (seq 0 m ≫= (λ _, CStr <$> text_values texts))
  ∧ column "text_index" all = Some (seq 0 m ≫= (λ _, text_labels texts))
  ∧ column "rich_prompt_index" all
    = Some (blocks (length (text_values texts)) tag (seq 0 m)).
Proof.
  intros Hframes Hconcat.
  assert (frames ≠ []) as Hne by (by intros ->).
  apply concat_reset_index_inv in Hconcat as (Hindex & Hlabels & Hcols).
  2:{ apply Forall_forall. intros df Hdf.
      destruct (Forall2_elem_r _ _ _ _ Hframes Hdf) as (i & _ & Hnames & _).
      rewrite Hnames. apply text_frame_levels. }
  assert (length (frames ≫= index) = (m * length (text_values texts))%nat)
    as Hlen.
  { rewrite (nrows_concat (length (text_values texts))).
    - by rewrite <- (Forall2_length _ _ _ Hframes), length_seq.
    - apply Forall_forall. intros df Hdf.
      destruct (Forall2_elem_r _ _ _ _ Hframes Hdf) as (i & _ & _ & Hi & _).
      unfold nrows. rewrite Hi. apply text_frame_nrows. }
  split_and!.
  - unfold nrows. by rewrite Hindex, nrows_RangeIndex.
  - by rewrite Hindex, Hlen.
  - rewrite Hcols by done. rewrite decide_True.
    + f_equal. apply concat_column_Forall2.
      eapply Forall2_impl; [exact Hframes|]. intros i df (_ & _ & Ht & _).
      by rewrite Ht, text_frame_column.
    + apply column_in_frames; [done|]. apply Forall_forall. intros df Hdf.
      destruct (Forall2_elem_r _ _ _ _ Hframes Hdf) as (i & _ & _ & _ & Ht & _).
      by rewrite Ht, text_frame_column.
  - rewrite Hlabels. f_equal.
    rewrite (labels_Forall2_index (index (pd_DataFrame_text texts)) (seq 0 m)).
    + by rewrite text_frame_labels.
    + eapply Forall2_impl; [exact Hframes|]. by intros i df (_ & ? & _).
  - rewrite Hcols by done. rewrite decide_True.
    + f_equal. unfold blocks. apply concat_column_Forall2.
      eapply Forall2_impl; [exact Hframes|]. intros i df (_ & _ & _ & Hi).
      by rewrite Hi, text_frame_nrows.
    + apply column_in_frames; [done|]. apply Forall_forall. intros df Hdf.
      destruct (Forall2_elem_r _ _ _ _ Hframes Hdf) as (i & _ & _ & _ & _ & Hi).
      by rewrite Hi.
Qed.

(** X13.  The table of a metric sweep.  Scoring returns, per its contract,
    one row per text under the label of the text, with the text it scored;
    the sweep writes the number of the descriptor set into the table that
    scoring returns and keeps the table by reference.  A sweep that returns
    then has one row per (descriptor set, text) pair, set by set, under a
    fresh [RangeIndex]: the texts repeat once per set, and [text_index]
    holds the label of each text, its position in a list and its own label
    in a series.  When scoring makes a table of its own every time,
    [rich_prompt_index] holds the number of the set on each of its rows.
    When scoring returns the table it was handed, all rounds have written to
    that one table, and [rich_prompt_index] holds the number of the last set
    on every row. *)
Theorem sweep_over_metrics_rows {HookFn MetricsDict Kwargs : Type}
    (collaborators : Objects.Collaborators HookFn MetricsDict Kwargs) :
  ReadOnlyContract collaborators →
  ∀ (s s' : Objects.Store HookFn) texts metrics_dict metric_args patched_all,
    Objects.sweep_over_metrics texts metrics_dict metric_args s
    = (s', Ok patched_all) →
    let numbers := seq 0 (length (remaining (rich_prompts (Objects.world s)))) in
    let n := length (text_values texts) in
    ∃ df,
      Objects.tables s' !! patched_all = Some df
      ∧ (scores_afresh collaborators ∨ scores_in_place collaborators →
         nrows df = (length numbers * n)%nat
         ∧ index df = RangeIndex (length numbers * n)
         ∧ column "text" df = Some (numbers ≫= (λ _, CStr <$> text_values texts))
         ∧ column "text_index" df = Some (numbers ≫= (λ _, text_labels texts)))
      ∧ (scores_afresh collaborators →
         column "rich_prompt_index" df
         = Some (blocks n (λ i : nat, CInt (Z.of_nat i)) numbers))
      ∧ (scores_in_place collaborators →
         column "rich_prompt_index" df
         = Some (replicate (length numbers * n)
                   (CInt (Z.of_nat (length numbers - 1))))).
Proof.
  intros Hro s s' texts metrics_dict metric_args patched_all Hrun numbers n.
  apply obj_sweep_over_metrics_inv in Hrun
    as (refs & tables' & frames & all & Hrounds & Hread & Hconcat & -> & Htables);
    [|done].
  set (sets := remaining (rich_prompts (Objects.world s))) in *.
  assert ((Objects.tables s ++ [pd_DataFrame_text texts])
            !! length (Objects.tables s) = Some (pd_DataFrame_text texts)) as Hdata.
  { by rewrite lookup_app_r, Nat.sub_diag by lia. }
  assert (length numbers = length sets) as Hnumbers by apply length_seq.
  assert (scores_afresh collaborators →
          Forall2 (λ i df, tagged_copy (pd_DataFrame_text texts) i df)
            (seq 0 (length sets)) frames) as Hafresh.
  { intros Hfresh.
    destruct (metric_rounds_afresh _ _ _ _ _ _ _ _ _ _ Hfresh Hdata Hrounds)
      as [_ Hrefs].
    clear -Hrefs Hread. revert frames Hread.
    induction Hrefs as [|i r idxs refs (df & Hdf & Htag) _ IH]; intros frames Hread.
    - apply Forall2_nil_inv_l in Hread as ->. constructor.
    - apply Forall2_cons_inv_l in Hread as (df' & frames' & Hdf' & Hread & ->).
      constructor; [congruence|by apply IH]. }
  assert (scores_in_place collaborators →
          Forall2 (λ (i : nat) df,
              index_names df = index_names (pd_DataFrame_text texts)
              ∧ index df = index (pd_DataFrame_text texts)
              ∧ column "text" df = column "text" (pd_DataFrame_text texts)
              ∧ column "rich_prompt_index" df
                = Some (replicate (nrows (pd_DataFrame_text texts))
                          (CInt (Z.of_nat (length sets - 1)))))
            (seq 0 (length sets)) frames) as Hplace.
  { intros Hplace.
    destruct (metric_rounds_in_place _ _ _ _ _ _ _ _ _ _ Hplace Hdata Hrounds)
      as (-> & _ & df & Hdf & Hnames & Hindex & Htext & Htag).
    assert (sets ≠ []) as Hne.
    { intros Hnil. rewrite Hnil in Hread. simpl in Hread.
      apply Forall2_nil_inv_l in Hread as ->. done. }
    specialize (Htag Hne). simpl in Htag.
    rewrite (Forall2_replicate_lookup _ _ _ _ _ Hread Hdf).
    by apply Forall2_seq_replicate. }
  exists all. split_and!.
  - rewrite Htables. by rewrite lookup_app_r, Nat.sub_diag by lia.
  - subst numbers n. rewrite Hnumbers. intros [Hscore|Hscore].
    + destruct (tagged_frames_concat texts (λ i : nat, CInt (Z.of_nat i))
                  (length sets) frames all) as (? & ? & ? & ? & _);
        [by apply Hafresh|done|done].
    + destruct (tagged_frames_concat texts
                  (λ _ : nat, CInt (Z.of_nat (length sets - 1)))
                  (length sets) frames all) as (? & ? & ? & ? & _);
        [by apply Hplace|done|done].
  - intros Hscore.
    by destruct (tagged_frames_concat texts (λ i : nat, CInt (Z.of_nat i))
                   (length sets) frames all) as (_ & _ & _ & _ & ?);
      [by apply Hafresh|done|].
  - intros Hscore.
    destruct (tagged_frames_concat texts
                (λ _ : nat, CInt (Z.of_nat (length sets - 1)))
                (length sets) frames all) as (_ & _ & _ & _ & Htag);
      [by apply Hplace|done|].
    rewrite Htag, blocks_const, length_seq. subst numbers n.
    by rewrite Hnumbers.
Qed.

(** X10.  What [sweep_over_metrics] returns, and when.  When the hook
    compiler leaves the descriptor sets as it is handed them, the sweep
    returns a table exactly when every descriptor set it is handed compiles,
    the table of the texts can be scored under the hooks of every set, each
    time with a table that exists as the result, and the tables then found at
    the addresses that the rounds appended concatenate.  The table of the
    texts is made once; it is scored once per set, under the hooks compiled
    from that set and no other hook, and what scoring returns is tagged where
    it is, so that a round sees the tags of the rounds before it on every
    table it is handed again.  Only the compilation of the first set can see
    hooks the caller had left on the model.  The table returned is the last
    table made; the sweep leaves the model without hooks and an iterator of
    sets used up, and generates nothing. *)
Theorem sweep_over_metrics_returns_iff {HookFn MetricsDict Kwargs : Type}
    (collaborators : Objects.Collaborators HookFn MetricsDict Kwargs) :
  ReadOnlyContract collaborators →
  ∀ (s s' : Objects.Store HookFn) texts metrics_dict metric_args patched_all,
    Objects.sweep_over_metrics texts metrics_dict metric_args s
    = (s', Ok patched_all)
    ↔ ∃ patched_list tables' frames all,
        metric_rounds (length (Objects.tables s)) metrics_dict metric_args
          (model_hooks (Objects.world s)) 0
          (remaining (rich_prompts (Objects.world s)))
          (Objects.tables s ++ [pd_DataFrame_text texts]) patched_list tables'
        ∧ Forall2 (λ r df, tables' !! r = Some df) patched_list frames
        ∧ pd_concat frames ≫= reset_index (Some ["text_index"%string]) = Ok all
        ∧ patched_all = length tables'
        ∧ s' = {| Objects.world :=
                    {| model_hooks := [];
                       rich_prompts := after_loop (rich_prompts (Objects.world s));
                       gen_calls := gen_calls (Objects.world s) |};
                  Objects.tables := tables' ++ [all] |}.
Proof.
  intros Hro s s' texts metrics_dict metric_args patched_all.
  unfold Objects.sweep_over_metrics.
  rewrite obj_bind_run. unfold Objects.new_table at 1. rewrite obj_bind_run.
  set (s0 := {| Objects.world := Objects.world s;
                Objects.tables := Objects.tables s ++ [pd_DataFrame_text texts] |}).
  destruct (Objects.for_enumerate _ s0) as [s1 [refs|e]] eqn:Hloop.
  - pose proof Hloop as Hloop0.
    apply obj_for_enumerate_metrics in Hloop as [Hrounds Hw1]. split.
    + intros (-> & Hw & dfs & df & Hread & Hconcat & Htables)%concat_reset_index_made.
      apply for_append_read_table_iff in Hread.
      exists refs, (Objects.tables s1), dfs, df. split_and!; [done..|].
      destruct s' as [w' t']. simpl in *. subst w' t'. f_equal.
      rewrite Hw1. destruct refs; [|done].
      apply Forall2_nil_inv_l in Hread as ->. done.
    + intros (refs' & tables' & frames & all & Hrounds' & Hread & Hconcat & -> & ->).
      assert (refs' ≠ []) as Hne.
      { intros ->. apply Forall2_nil_inv_l in Hread as ->. done. }
      pose proof (proj2 (obj_for_enumerate_metrics (length (Objects.tables s))
                           metrics_dict metric_args s0
                           {| Objects.world :=
                                {| model_hooks := [];
                                   rich_prompts :=
                                     after_loop (rich_prompts (Objects.world s));
                                   gen_calls := gen_calls (Objects.world s) |};
                              Objects.tables := tables' |} refs')) as Hrun.
      rewrite Hloop0 in Hrun.
      assert ((s1, Ok refs : result (list Objects.ref))
              = ({| Objects.world :=
                      {| model_hooks := [];
                         rich_prompts :=
                           after_loop (rich_prompts (Objects.world s));
                         gen_calls := gen_calls (Objects.world s) |};
                    Objects.tables := tables' |}, Ok refs')) as Heq.
      { apply Hrun. split; [exact Hrounds'|]. simpl. by destruct refs'. }
      injection Heq as -> ->.
      unfold Objects.concat_reset_index. rewrite obj_bind_run.
      rewrite (proj2 (for_append_read_table_iff refs' _ frames)) by done.
      rewrite obj_bind_run. unfold Objects.lift at 1. by rewrite Hconcat.
  - split; [done|].
    intros (refs' & tables' & frames & all & Hrounds' & Hread & _ & _ & _).
    pose proof (proj2 (obj_for_enumerate_metrics (length (Objects.tables s))
                           metrics_dict metric_args s0
                         {| Objects.world :=
                              {| model_hooks :=
                                   match refs' with
                                   | [] => model_hooks (Objects.world s)
                                   | _ => []
                                   end;
                                 rich_prompts :=
                                   after_loop (rich_prompts (Objects.world s));
                                 gen_calls := gen_calls (Objects.world s) |};
                            Objects.tables := tables' |} refs')) as Hrun.
    rewrite Hloop in Hrun.
    assert ((s1, Raise e : result (list Objects.ref))
            = ({| Objects.world :=
                    {| model_hooks :=
                         match refs' with
                         | [] => model_hooks (Objects.world s)
                         | _ => []
                         end;
                       rich_prompts := after_loop (rich_prompts (Objects.world s));
                       gen_calls := gen_calls (Objects.world s) |};
                  Objects.tables := tables' |}, Ok refs')) as Heq; [|done].
    apply Hrun. by split.
Qed.

(** C8.  The sweeps are read-only on their descriptor sets, and what they
    return is new.  The descriptor sets are lists that the sweeps hand to
    the collaborators, and the tables are objects that the collaborators
    return and the sweeps write to.  When the collaborators leave a
    descriptor set as they were handed it, and keep to what Python grants of
    objects, then in every outcome of either sweep, a return or an
    exception, the iterable holds the same descriptor sets, the same
    descriptors in each, as before the call; an iterator may have been moved
    on.  A table that a sweep returns was not there before the call and is
    there after it, and the two tables of [sweep_over_prompts] are two
    objects; when metrics are passed to [sweep_over_prompts], this is so
    whenever scoring returns the table it was handed or one it has made. *)
Theorem sweeps_read_only {HookFn MetricsDict Kwargs : Type}
    (collaborators : Objects.Collaborators HookFn MetricsDict Kwargs)
    (s : Objects.Store HookFn) :
  ReadOnlyContract collaborators →
  HeapContract collaborators →
  (∀ prompts n m tokens seed metrics_dict kwargs,
     let run :=
       Objects.sweep_over_prompts prompts n m tokens seed metrics_dict kwargs s in
     same_sets (rich_prompts (Objects.world s)) (rich_prompts (Objects.world run.1))
     ∧ items (rich_prompts (Objects.world run.1))
       = items (rich_prompts (Objects.world s))
     ∧ ∀ normal_all patched_all,
         run.2 = Ok (normal_all, patched_all) →
         (is_Some metrics_dict → scores_own_table collaborators) →
         made_since s run.1 normal_all ∧ made_since s run.1 patched_all
         ∧ normal_all ≠ patched_all)
  ∧ (∀ texts metrics_dict metric_args,
       let run := Objects.sweep_over_metrics texts metrics_dict metric_args s in
       same_sets (rich_prompts (Objects.world s))
         (rich_prompts (Objects.world run.1))
       ∧ items (rich_prompts (Objects.world run.1))
         = items (rich_prompts (Objects.world s))
       ∧ ∀ patched_all, run.2 = Ok patched_all → made_since s run.1 patched_all).
Proof.
  intros Hro Hheap. split.
  - intros prompts n m tokens seed metrics_dict kwargs run.
    destruct (steady_sweep_over_prompts prompts n m tokens seed metrics_dict
                kwargs s) as [Hsame _].
    fold run in Hsame. split_and!; [done|by apply same_sets_items|].
    intros normal_all patched_all Hrun.
    apply (sweep_over_prompts_made prompts n m tokens seed metrics_dict kwargs).
    subst run. rewrite <- Hrun. by destruct (Objects.sweep_over_prompts _ _ _ _ _ _ _ s).
  - intros texts metrics_dict metric_args run.
    destruct (steady_sweep_over_metrics texts metrics_dict metric_args s)
      as [Hsame _].
    fold run in Hsame. split_and!; [done|by apply same_sets_items|].
    intros patched_all Hrun.
    apply (sweep_over_metrics_made texts metrics_dict metric_args).
    subst run. rewrite <- Hrun. by destruct (Objects.sweep_over_metrics _ _ _ s).
Qed.

(** ** Collaborators that keep the contracts *)

Section as_objects_contracts.
Context {HookFn MetricsDict Kwargs : Type}.
Context (collaborators : Collaborators HookFn MetricsDict Kwargs).
Local Open Scope nat_scope.

Lemma returns_new_table_keeps_objects made tables :
  keeps_objects tables (returns_new_table made tables).
Proof.
  destruct made as [df|e]; split; simpl; rewrite ?length_app; simpl;
    [lia| |lia|done].
  intros r [= <-]. lia.
Qed.

Lemma as_objects_read_only : ReadOnlyContract (as_objects collaborators).
Proof. by split. Qed.

Lemma scoring_in_place_read_only :
  ReadOnlyContract (scoring_in_place collaborators).
Proof. by split. Qed.

Lemma as_objects_heap : HeapContract (as_objects collaborators).
Proof.
  split.
  - intros. apply returns_new_table_keeps_objects.
  - intros. apply returns_new_table_keeps_objects.
  - intros data metrics_dict cols_to_use metric_args hooks tables. simpl.
    destruct (tables !! data); [apply returns_new_table_keeps_objects|].
    by split.
Qed.

Lemma as_objects_scores_own_table : scores_own_table (as_objects collaborators).
Proof.
  intros data metrics_dict cols_to_use metric_args hooks tables r. simpl.
  destruct (tables !! data) as [df|]; [|done].
  destruct (add_metric_cols df _ _ _ _); [|done]. simpl. intros [= <-]. by right.
Qed.

Lemma as_objects_scores_afresh :
  (∀ data metrics_dict metric_args hooks df,
     add_metric_cols data metrics_dict (Some "text"%string) metric_args hooks
     = Ok df →
     scored_frame data "text" df) →
  scores_afresh (as_objects collaborators).
Proof.
  intros Hscored data metrics_dict metric_args hooks tables tables' r df0 Hdata.
  simpl. rewrite Hdata.
  destruct (add_metric_cols df0 _ _ _ _) as [df|e] eqn:Hscore; [|done].
  simpl. intros [= <- <-]. split_and!; [done| |].
  - intros a Ha. by rewrite lookup_app_l.
  - exists df. split; [|by eapply Hscored].
    by rewrite lookup_app_r, Nat.sub_diag by lia.
Qed.

Lemma scoring_in_place_scores_in_place :
  (∀ data metrics_dict metric_args hooks df,
     add_metric_cols data metrics_dict (Some "text"%string) metric_args hooks
     = Ok df →
     scored_frame data "text" df) →
  scores_in_place (scoring_in_place collaborators).
Proof.
  intros Hscored data metrics_dict metric_args hooks tables tables' r df0 Hdata.
  simpl. rewrite Hdata.
  destruct (add_metric_cols df0 _ _ _ _) as [df|e] eqn:Hscore; [|done].
  intros [= <- <-]. split; [done|]. exists df. split; [|by eapply Hscored].
  apply list_lookup_insert_eq. by eapply lookup_lt_Some.
Qed.
End as_objects_contracts.

Lemma toy_scoring_scored_frame data metrics_dict metric_args hooks df :
  add_metric_cols (Collaborators := Examples.toy_collaborators) data metrics_dict
    (Some "text"%string) metric_args hooks = Ok df →
  scored_frame data "text" df.
Proof.
  simpl. intros [= <-]. split_and!; [done|done|].
  by rewrite column_setitem_ne.
Qed.

(** A compiler that writes to the list it is handed is seen by the caller:
    after a metric sweep with the compiler that turns the list round, every
    descriptor set of the scenario is the other way round. *)
Example reversing_compiler_is_seen :
  items (rich_prompts (Objects.world
    (Objects.sweep_over_metrics
       (Collaborators0 := reversing_compiler Examples.toy_collaborators)
       (TextList ["some text"%string]) [] tt ObjectExamples.scenario_store).1))
  = reverse <$> Examples.scenario_sets
  ∧ reverse <$> Examples.scenario_sets ≠ Examples.scenario_sets.
Proof. split; [vm_compute; reflexivity|vm_compute; discriminate]. Qed.

Lemma sweeps_read_only_witness :
  let s := ObjectExamples.scenario_store in
  let completions :=
    Objects.sweep_over_prompts
      (Collaborators0 := as_objects Examples.toy_collaborators)
      ["I think you're"%string] 1 2 40 (Some 1) (Some ["n_hooks"%string]) tt s in
  let metrics :=
    Objects.sweep_over_metrics
      (Collaborators0 := as_objects Examples.toy_collaborators)
      ObjectExamples.labelled_texts [] tt s in
  (completions.2 = Ok (7%nat, 8%nat)
   ∧ items (rich_prompts (Objects.world completions.1)) = Examples.scenario_sets
   ∧ made_since s completions.1 7%nat ∧ made_since s completions.1 8%nat)
  ∧ (metrics.2 = Ok 5%nat
     ∧ items (rich_prompts (Objects.world metrics.1)) = Examples.scenario_sets
     ∧ made_since s metrics.1 5%nat).
Proof.
  intros s completions metrics.
  destruct (sweeps_read_only (as_objects Examples.toy_collaborators) s
              (as_objects_read_only _) (as_objects_heap _))
    as [Hcompletions Hmetrics].
  split.
  - destruct (Hcompletions ["I think you're"%string] 1%nat 2%nat 40%nat (Some 1)
                (Some ["n_hooks"%string]) tt) as (_ & Hitems & Hmade).
    destruct (Hmade 7%nat 8%nat) as (H7 & H8 & _);
      [vm_compute; reflexivity|intros _; apply as_objects_scores_own_table|].
    split_and!; [vm_compute; reflexivity|exact Hitems|exact H7|exact H8].
  - destruct (Hmetrics ObjectExamples.labelled_texts [] tt)
      as (_ & Hitems & Hmade).
    split_and!; [vm_compute; reflexivity|exact Hitems|].
    apply Hmade. vm_compute. reflexivity.
Defined.

Lemma sweep_over_metrics_returns_iff_witness :
  ∃ s' patched_all,
    Objects.sweep_over_metrics
      (Collaborators0 := scoring_in_place Examples.toy_collaborators)
      ObjectExamples.labelled_texts [] tt ObjectExamples.scenario_store
    = (s', Ok patched_all)
    ∧ ∃ patched_list tables' frames all,
        metric_rounds
          (collaborators := scoring_in_place Examples.toy_collaborators)
          0%nat [] tt [] 0%nat Examples.scenario_sets
          [pd_DataFrame_text ObjectExamples.labelled_texts] patched_list tables'
        ∧ Forall2 (λ r df, tables' !! r = Some df) patched_list frames
        ∧ pd_concat frames ≫= reset_index (Some ["text_index"%string]) = Ok all
        ∧ patched_all = length tables'
        ∧ s' = {| Objects.world :=
                    {| model_hooks := [];
                       rich_prompts := Sequence Examples.scenario_sets;
                       gen_calls := 0%nat |};
                  Objects.tables := tables' ++ [all] |}.
Proof.
  assert (∃ s' patched_all,
            Objects.sweep_over_metrics
              (Collaborators0 := scoring_in_place Examples.toy_collaborators)
              ObjectExamples.labelled_texts [] tt ObjectExamples.scenario_store
            = (s', Ok patched_all)) as (s' & patched_all & Hrun).
  { eexists _, _. vm_compute. reflexivity. }
  exists s', patched_all. split; [exact Hrun|].
  exact (proj1 (sweep_over_metrics_returns_iff
                  (scoring_in_place Examples.toy_collaborators)
                  (scoring_in_place_read_only _)
                  ObjectExamples.scenario_store s'
                  ObjectExamples.labelled_texts [] tt patched_all) Hrun).
Defined.

Lemma sweep_over_metrics_rows_witness :
  (∃ s' patched_all df,
     Objects.sweep_over_metrics
       (Collaborators0 := as_objects Examples.toy_collaborators)
       ObjectExamples.labelled_texts [] tt ObjectExamples.scenario_store
     = (s', Ok patched_all)
     ∧ Objects.tables s' !! patched_all = Some df
     ∧ nrows df = 8%nat
     ∧ column "text_index" df = Some (CInt <$> [7; 9; 7; 9; 7; 9; 7; 9])
     ∧ column "rich_prompt_index" df = Some (CInt <$> [0; 0; 1; 1; 2; 2; 3; 3]))
  ∧ (∃ s' patched_all df,
       Objects.sweep_over_metrics
         (Collaborators0 := scoring_in_place Examples.toy_collaborators)
         ObjectExamples.labelled_texts [] tt ObjectExamples.scenario_store
       = (s', Ok patched_all)
       ∧ Objects.tables s' !! patched_all = Some df
       ∧ nrows df = 8%nat
       ∧ column "text_index" df = Some (CInt <$> [7; 9; 7; 9; 7; 9; 7; 9])
       ∧ column "rich_prompt_index" df
         = Some (CInt <$> [3; 3; 3; 3; 3; 3; 3; 3])).
Proof.
  split.
  - assert (∃ s' patched_all,
              Objects.sweep_over_metrics
                (Collaborators0 := as_objects Examples.toy_collaborators)
                ObjectExamples.labelled_texts [] tt ObjectExamples.scenario_store
              = (s', Ok patched_all)) as (s' & patched_all & Hrun).
    { eexists _, _. vm_compute. reflexivity. }
    pose proof (as_objects_scores_afresh Examples.toy_collaborators
                  toy_scoring_scored_frame) as Hscore.
    destruct (sweep_over_metrics_rows (as_objects Examples.toy_collaborators)
                (as_objects_read_only _) _ _ _ _ _ _ Hrun)
      as (df & Hdf & Hrows & Hfresh & _).
    destruct (Hrows (or_introl Hscore)) as (Hn & _ & _ & Hlabels).
    exists s', patched_all, df. split_and!; [done|done|exact Hn|exact Hlabels|].
    exact (Hfresh Hscore).
  - assert (∃ s' patched_all,
              Objects.sweep_over_metrics
                (Collaborators0 := scoring_in_place Examples.toy_collaborators)
                ObjectExamples.labelled_texts [] tt ObjectExamples.scenario_store
              = (s', Ok patched_all)) as (s' & patched_all & Hrun).
    { eexists _, _. vm_compute. reflexivity. }
    pose proof (scoring_in_place_scores_in_place Examples.toy_collaborators
                  toy_scoring_scored_frame) as Hscore.
    destruct (sweep_over_metrics_rows
                (scoring_in_place Examples.toy_collaborators)
                (scoring_in_place_read_only _) _ _ _ _ _ _ Hrun)
      as (df & Hdf & Hrows & _ & Hplace).
    destruct (Hrows (or_intror Hscore)) as (Hn & _ & _ & Hlabels).
    exists s', patched_all, df. split_and!; [done|done|exact Hn|exact Hlabels|].
    exact (Hplace Hscore).
Defined.

(** * The two embeddings agree *)

Section agreement.
Context {HookFn MetricsDict Kwargs : Type}.
Context {collaborators : Collaborators HookFn MetricsDict Kwargs}.
#[local] Existing Instances Objects.M_ret Objects.M_bind.
Local Open Scope nat_scope.

Lemma lasting_held_at : lasting held_at.
Proof. intros tables made df r Hr. by apply lookup_app_l_Some. Qed.

Lemma lasting_Forall2 {A B : Type} (R : list DataFrame → A → B → Prop) :
  lasting R → lasting (λ tables, Forall2 (R tables)).
Proof.
  intros HR tables made l k Hlk. eapply Forall2_impl; [exact Hlk|].
  intros a b. apply HR.
Qed.

Lemma agrees_ret {A B : Type} (R : list DataFrame → A → B → Prop) (a : A) (b : B)
    (s : Objects.Store HookFn) :
  R (Objects.tables s) a b →
  agrees R (mret a) (mret b) s.
Proof.
  intros Hab. exists []. simpl. rewrite app_nil_r. split; [by destruct s|].
  by exists b.
Qed.

Lemma agrees_bind {A B A' B' : Type} (R : list DataFrame → A → B → Prop)
    (R' : list DataFrame → A' → B' → Prop)
    (m : M HookFn A) (om : Objects.M HookFn B)
    (f : A → M HookFn A') (g : B → Objects.M HookFn B')
    (s : Objects.Store HookFn) :
  agrees R m om s →
  (∀ a b made,
     R (Objects.tables s ++ made) a b →
     agrees R' (f a) (g b)
       {| Objects.world := (m (Objects.world s)).1;
          Objects.tables := Objects.tables s ++ made |}) →
  agrees R' (m ≫= f) (om ≫= g) s.
Proof.
  intros (made & Hs1 & Hres) Hfg. unfold agrees. rewrite obj_bind_run, bind_run.
  destruct (om s) as [s1 ores]. simpl in Hs1. subst s1.
  destruct (m (Objects.world s)) as [w1 [a|e]]; simpl in *.
  - destruct Hres as (b & -> & Hab).
    destruct (Hfg a b made Hab) as (made' & Hs2 & Hres'). simpl in *.
    exists (made ++ made'). rewrite Hs2, app_assoc. done.
  - rewrite Hres. by exists made.
Qed.

Lemma agrees_for_append {X A B : Type} (R : list DataFrame → A → B → Prop)
    (I : list DataFrame → Prop) (l : list X)
    (f : X → M HookFn A) (g : X → Objects.M HookFn B) :
  lasting R →
  (∀ tables made, I tables → I (tables ++ made)) →
  (∀ x s, I (Objects.tables s) → agrees R (f x) (g x) s) →
  ∀ s, I (Objects.tables s) →
       agrees (λ tables, Forall2 (R tables)) (for_append l f)
         (Objects.for_append l g) s.
Proof.
  intros HR HI Hfg. induction l as [|x l IH]; intros s Hs; simpl.
  - apply agrees_ret. constructor.
  - eapply agrees_bind; [by apply Hfg|]. intros a b made Hab.
    eapply agrees_bind; [apply IH; simpl; by apply HI|].
    intros ys bs made' Hys. apply agrees_ret. simpl.
    constructor; [by apply HR|done].
Qed.

Lemma agrees_enumerate_from {A B : Type} (R : list DataFrame → A → B → Prop)
    (I : list DataFrame → Prop)
    (body : nat → list RichPrompt → M HookFn A)
    (obody : nat → nat → list RichPrompt → Objects.M HookFn B) :
  lasting R →
  (∀ tables made, I tables → I (tables ++ made)) →
  (∀ i c x s,
     I (Objects.tables s) →
     items (rich_prompts (Objects.world s)) !! c = Some x →
     agrees R (body i x) (obody i c x) s) →
  ∀ rounds index cursor s,
    I (Objects.tables s) →
    agrees (λ tables, Forall2 (R tables))
      (enumerate_from rounds index cursor body)
      (Objects.enumerate_from rounds index cursor obody) s.
Proof.
  intros HR HI Hbody rounds.
  induction rounds as [|rounds IH]; intros index cursor s Hs.
  - apply agrees_ret. constructor.
  - unfold agrees. cbn [enumerate_from Objects.enumerate_from].
    destruct (items (rich_prompts (Objects.world s)) !! cursor) as [x|] eqn:Hx.
    2:{ exists []. simpl. rewrite app_nil_r. split; [by destruct s|].
        exists []. split; [done|constructor]. }
    set (s1 := {| Objects.world :=
                    {| model_hooks := model_hooks (Objects.world s);
                       rich_prompts := advance cursor (rich_prompts (Objects.world s));
                       gen_calls := gen_calls (Objects.world s) |};
                  Objects.tables := Objects.tables s |}).
    change (agrees (λ tables, Forall2 (R tables))
              (y ← body index x;
               ys ← enumerate_from rounds (S index) (S cursor) body;
               mret (y :: ys))
              (y ← obody index cursor x;
               ys ← Objects.enumerate_from rounds (S index) (S cursor) obody;
               mret (y :: ys)) s1).
    eapply agrees_bind.
    { apply Hbody; [done|]. simpl.
      by destruct (rich_prompts (Objects.world s)). }
    intros a b made Hab.
    eapply agrees_bind; [apply IH; simpl; by apply HI|].
    intros ys bs made' Hys. apply agrees_ret. simpl.
    constructor; [by apply HR|done].
Qed.

Lemma agrees_for_enumerate {A B : Type} (R : list DataFrame → A → B → Prop)
    (I : list DataFrame → Prop)
    (body : nat → list RichPrompt → M HookFn A)
    (obody : nat → nat → list RichPrompt → Objects.M HookFn B) :
  lasting R →
  (∀ tables made, I tables → I (tables ++ made)) →
  (∀ i c x s,
     I (Objects.tables s) →
     items (rich_prompts (Objects.world s)) !! c = Some x →
     agrees R (body i x) (obody i c x) s) →
  ∀ s, I (Objects.tables s) →
       agrees (λ tables, Forall2 (R tables)) (for_enumerate body)
         (Objects.for_enumerate obody) s.
Proof.
  intros HR HI Hbody s Hs. by apply (agrees_enumerate_from R I).
Qed.

(** [pd.concat(...).reset_index(names=...)] on tables and on the addresses
    that hold them. *)
Lemma agrees_concat_reset_index frames refs names (s : Objects.Store HookFn) :
  Forall2 (held_at (Objects.tables s)) frames refs →
  agrees held_at
    (lift (pd_concat frames ≫= reset_index (Some names)))
    (Objects.concat_reset_index refs names) s.
Proof.
  intros Hheld. unfold agrees, Objects.concat_reset_index, lift.
  rewrite obj_bind_run.
  rewrite (proj2 (for_append_read_table_iff refs s frames))
    by (by apply Forall2_flip).
  rewrite obj_bind_run. unfold Objects.lift at 1. simpl.
  destruct (pd_concat frames ≫= reset_index (Some names)) as [df|e].
  - exists [df]. split; [done|]. eexists. split; [done|].
    unfold held_at. by rewrite lookup_app_r, Nat.sub_diag by lia.
  - exists []. rewrite app_nil_r. by destruct s.
Qed.

(** ** Collaborators that make a new table with every call *)

Lemma insert_new_table (tables : list DataFrame) (df df' : DataFrame) :
  <[length tables := df']> (tables ++ [df]) = tables ++ [df'].
Proof.
  rewrite insert_app_r_alt by lia. by rewrite Nat.sub_diag.
Qed.

Lemma agrees_call_gen_using_hooks prompt_batch hook_fns tokens seed kwargs
    (s : Objects.Store HookFn) :
  agrees held_at
    (call_gen_using_hooks prompt_batch hook_fns tokens seed kwargs)
    (Objects.call_gen_using_hooks (Collaborators0 := as_objects collaborators)
       prompt_batch hook_fns tokens seed kwargs) s.
Proof.
  unfold agrees, call_gen_using_hooks, Objects.call_gen_using_hooks. simpl.
  destruct (gen_using_hooks _ _ _ _ _ _) as [df|e]; simpl.
  - exists [df]. split; [done|]. eexists. split; [done|].
    unfold held_at. by rewrite lookup_app_r, Nat.sub_diag by lia.
  - exists []. by rewrite app_nil_r.
Qed.

Lemma agrees_call_add_metric_cols data r metrics_dict cols_to_use metric_args
    (s : Objects.Store HookFn) :
  held_at (Objects.tables s) data r →
  agrees held_at
    (call_add_metric_cols data metrics_dict cols_to_use metric_args)
    (Objects.call_add_metric_cols (Collaborators0 := as_objects collaborators)
       r metrics_dict cols_to_use metric_args) s.
Proof.
  intros Hdata. unfold agrees, call_add_metric_cols, Objects.call_add_metric_cols.
  simpl. rewrite Hdata.
  destruct (add_metric_cols _ _ _ _ _) as [df|e]; simpl.
  - exists [df]. split; [by destruct s|]. eexists. split; [done|].
    unfold held_at. by rewrite lookup_app_r, Nat.sub_diag by lia.
  - exists []. rewrite app_nil_r. by destruct s.
Qed.

(** The body of the loop over the descriptor sets in [sweep_over_prompts]:
    the table that generation has just made is the one that is tagged. *)
Lemma agrees_patched_round index cursor rich_prompts_this prompt_batch tokens
    seed kwargs (s : Objects.Store HookFn) :
  items (rich_prompts (Objects.world s)) !! cursor = Some rich_prompts_this →
  agrees held_at
    (patched_df ←
       call_gen_using_rich_prompts rich_prompts_this prompt_batch tokens seed
         kwargs;
     mret (setitem "rich_prompt_index" (CInt (Z.of_nat index)) patched_df))
    (patched_df ←
       Objects.call_gen_using_rich_prompts
         (Collaborators0 := as_objects collaborators) cursor rich_prompts_this
         prompt_batch tokens seed kwargs;
     Objects.setitem_at "rich_prompt_index" (CInt (Z.of_nat index)) patched_df;;
     mret patched_df) s.
Proof.
  intros Hitem. unfold agrees. rewrite obj_bind_run, bind_run.
  unfold call_gen_using_rich_prompts, Objects.call_gen_using_rich_prompts.
  simpl. rewrite (write_back_id _ _ _ Hitem).
  destruct (gen_using_rich_prompts _ _ _ _ _ _) as [df|e]; simpl.
  - rewrite !obj_bind_run. unfold Objects.setitem_at. simpl.
    rewrite !lookup_app_r, !Nat.sub_diag by lia. simpl.
    rewrite insert_new_table. eexists [_]. split; [done|].
    eexists. split; [done|].
    unfold held_at. by rewrite lookup_app_r, Nat.sub_diag by lia.
  - exists []. by rewrite app_nil_r.
Qed.

(** One round of [sweep_over_metrics]. *)
Lemma agrees_metrics_round texts_df data metrics_dict metric_args index cursor
    rich_prompts_this (s : Objects.Store HookFn) :
  held_at (Objects.tables s) data texts_df →
  items (rich_prompts (Objects.world s)) !! cursor = Some rich_prompts_this →
  agrees held_at
    (metrics_round data metrics_dict metric_args index rich_prompts_this)
    (Objects.metrics_round (Collaborators0 := as_objects collaborators) texts_df
       metrics_dict metric_args index cursor rich_prompts_this) s.
Proof.
  intros Hdata Hitem. unfold agrees.
  rewrite (obj_metrics_round_run
             (ReadOnlyContract0 := as_objects_read_only collaborators)
             _ _ _ _ _ _ _ Hitem).
  rewrite metrics_round_run. simpl.
  destruct (hook_fns_from_rich_prompts _ _) as [hook_fns|e]; simpl.
  2:{ exists []. rewrite app_nil_r. by destruct s. }
  rewrite Hdata.
  destruct (add_metric_cols data _ _ _ hook_fns) as [df|e]; simpl.
  - rewrite lookup_app_r, Nat.sub_diag by lia. simpl.
    rewrite insert_new_table. eexists [_]. split; [done|].
    eexists. split; [done|].
    unfold held_at. by rewrite lookup_app_r, Nat.sub_diag by lia.
  - exists []. by rewrite app_nil_r.
Qed.

Lemma agrees_new_table {A B : Type} (R : list DataFrame → A → B → Prop)
    (df : DataFrame) (m : M HookFn A) (g : Objects.ref → Objects.M HookFn B)
    (s : Objects.Store HookFn) :
  agrees R m (g (length (Objects.tables s)))
    {| Objects.world := Objects.world s;
       Objects.tables := Objects.tables s ++ [df] |} →
  agrees R m (Objects.new_table df ≫= g) s.
Proof.
  intros (made & Hs & Hres). exists (df :: made). unfold agrees.
  rewrite obj_bind_run. unfold Objects.new_table at 1 2. simpl in *.
  rewrite Hs, !(assoc_L (++) _ [df] made) in *. done.
Qed.

Lemma Forall2_held_at_join (tables : list DataFrame)
    (frames : list (list DataFrame)) (refs : list (list Objects.ref)) :
  Forall2 (Forall2 (held_at tables)) frames refs →
  Forall2 (held_at tables) (mjoin frames) (mjoin refs).
Proof.
  induction 1 as [|l k frames refs Hlk _ IH]; [constructor|].
  simpl. by apply Forall2_app.
Qed.

(** Tables that go in pairs, each with its address. *)
Lemma agrees_completion_lists prompts n m tokens seed kwargs
    (s : Objects.Store HookFn) :
  agrees
    (λ tables,
       Forall2 (λ (a : DataFrame * list DataFrame) (b : Objects.ref * list Objects.ref),
                  held_at tables a.1 b.1 ∧ Forall2 (held_at tables) a.2 b.2))
    (completion_lists prompts n m tokens seed kwargs)
    (Objects.completion_lists (Collaborators0 := as_objects collaborators)
       prompts n m tokens seed kwargs) s.
Proof.
  unfold completion_lists, Objects.completion_lists.
  apply (agrees_for_append
           (λ tables (a : DataFrame * list DataFrame)
              (b : Objects.ref * list Objects.ref),
              held_at tables a.1 b.1 ∧ Forall2 (held_at tables) a.2 b.2)
           (λ _, True)); [| |clear s|done].
  - intros tables made a b [H1 H2]. split; [by apply lasting_held_at|].
    by apply (lasting_Forall2 held_at lasting_held_at).
  - done.
  - intros prompt s _.
    eapply agrees_bind; [apply agrees_call_gen_using_hooks|].
    intros normal_df r made Hnormal.
    eapply agrees_bind.
    { apply (agrees_for_enumerate held_at (λ _, True));
        [apply lasting_held_at|done| |done].
      intros i c x s1 _ Hx. by apply agrees_patched_round. }
    intros patched refs made' Hpatched. apply agrees_ret. simpl.
    split; [by apply lasting_held_at|done].
Qed.
End agreement.

(** X20.  The two embeddings agree.  Take collaborators over values as
    collaborators over objects that make a new table with every call, write
    to no table that is there and leave the descriptor sets alone.  Then,
    from any store, either sweep over objects does what the sweep over
    values does from the world of the store: it leaves the same world, it
    raises the same exception where that one raises, and where that one
    returns tables it returns addresses at which the store then holds these
    very tables.  It has left every table it found as it was. *)
Theorem embeddings_agree {HookFn MetricsDict Kwargs : Type}
    (collaborators : Collaborators HookFn MetricsDict Kwargs)
    (s : Objects.Store HookFn) :
  (∀ prompts n m tokens seed metrics_dict kwargs,
     agrees
       (λ tables (a : DataFrame * DataFrame) (b : Objects.ref * Objects.ref),
          held_at tables a.1 b.1 ∧ held_at tables a.2 b.2)
       (sweep_over_prompts prompts n m tokens seed metrics_dict kwargs)
       (Objects.sweep_over_prompts (Collaborators0 := as_objects collaborators)
          prompts n m tokens seed metrics_dict kwargs) s)
  ∧ (∀ texts metrics_dict metric_args,
       agrees held_at
         (sweep_over_metrics texts metrics_dict metric_args)
         (Objects.sweep_over_metrics (Collaborators0 := as_objects collaborators)
            texts metrics_dict metric_args) s).
Proof.
  split.
  - intros prompts n m tokens seed metrics_dict kwargs.
    unfold sweep_over_prompts, Objects.sweep_over_prompts.
    eapply agrees_bind; [apply agrees_completion_lists|].
    intros lists olists made Hlists. cbn zeta.
    eapply agrees_bind.
    { apply agrees_concat_reset_index. simpl. apply Forall2_fmap.
      eapply Forall2_impl; [exact Hlists|]. by intros a b [? _]. }
    intros normal_all rn made1 Hnormal.
    eapply agrees_bind.
    { apply agrees_concat_reset_index. simpl. apply Forall2_held_at_join.
      apply Forall2_fmap. eapply Forall2_impl; [exact Hlists|].
      intros a b [_ Hab]. by apply (lasting_Forall2 held_at lasting_held_at). }
    intros patched_all rp made2 Hpatched. simpl in *.
    destruct metrics_dict as [metrics_dict|].
    + eapply agrees_bind.
      { apply agrees_call_add_metric_cols. simpl. by apply lasting_held_at. }
      intros normal_all' rn' made3 Hnormal'.
      eapply agrees_bind.
      { apply agrees_call_add_metric_cols. simpl. by apply lasting_held_at. }
      intros patched_all' rp' made4 Hpatched'. apply agrees_ret. simpl.
      split; [by apply lasting_held_at|done].
    + apply agrees_ret. simpl. split; [by apply lasting_held_at|done].
  - intros texts metrics_dict metric_args.
    unfold sweep_over_metrics, Objects.sweep_over_metrics. cbn zeta.
    apply agrees_new_table.
    eapply agrees_bind.
    { apply (agrees_for_enumerate held_at
               (λ tables, held_at tables (pd_DataFrame_text texts)
                            (length (Objects.tables s)))).
      - apply lasting_held_at.
      - intros tables made. apply lasting_held_at.
      - intros i c x s1 Hdata Hx. by apply agrees_metrics_round.
      - simpl. unfold held_at. by rewrite lookup_app_r, Nat.sub_diag by lia. }
    intros frames refs made Hframes. by apply agrees_concat_reset_index.
Qed.
